(** * Grok desktop shell: navigation policy, restore state, single instance

    A shallow embedding of [main.js] (the Electron main process of the
    shell) and of the second copy of that script kept in the repository
    (embedded in [Module Part000]), together with the properties of the
    domain policy, the restore-state store, the navigation interceptor and
    the single-instance coordinator.

    Conventions.
    - A JavaScript string is the list of its UTF-16 code units ([jsstring]).
    - A JavaScript function that may throw is a computation in [Completion]
      (pure) or in [M] (over the [World]: module variables, windows, the
      state file, the clock and the trace of host calls).  [try]/[catch]
      is [tryC]/[tryM]; side effects made before a throw are kept.
    - The platform's [URL] constructor is a parameter of the development
      ([URL_new], a [Section] variable): every general theorem holds
      whatever the parser answers.  [UrlRef.parse] is an executable
      reference parser for a fragment of the URL Standard; it is used
      to run the handlers on concrete strings.
    - [JSON.stringify] and [JSON.parse] are executable ([JSON_stringify],
      [JSON_parse]).
    - The host is Electron as documented: a method of a destroyed window
      throws, [restore], [show] and [focus] do what they say, [closed] is
      emitted once after the window is destroyed, and the page of a
      window is requested through the [webRequest] filter of the session.
      The file system holds the state file; a call fails when the file is
      missing and in no other way. *)

From Stdlib Require Import NArith ZArith Lia List Bool String Ascii.
From stdpp Require Import base list.
Import ListNotations.

Local Open Scope N_scope.

(* ================================================================== *)
(** ** JavaScript strings *)
(* ================================================================== *)

(** A string is a sequence of UTF-16 code units. *)
Abbreviation jsstring := (list N).

(** String literal of the source, code unit by code unit. *)
Definition js (s : string) : jsstring :=
  List.map N_of_ascii (list_ascii_of_string s).

(** [a === b] on strings. *)
Fixpoint strictEq (a b : jsstring) : bool :=
  match a, b with
  | [], [] => true
  | x :: a', y :: b' => N.eqb x y && strictEq a' b'
  | _, _ => false
  end.

(** [String.prototype.toLowerCase] on one code unit.  The source applies
    it to [u.hostname] only, which the URL Standard serialises in ASCII;
    on ASCII the Unicode lower-case mapping is this one. *)
Definition lowerUnit (c : N) : N :=
  if (65 <=? c) && (c <=? 90) then c + 32 else c.

Definition toLowerCase (s : jsstring) : jsstring := List.map lowerUnit s.

(** [s.endsWith(suffix)]. *)
Definition endsWith (s suffix : jsstring) : bool :=
  (length suffix <=? length s)%nat
  && strictEq (skipn (length s - length suffix) s) suffix.

(** Truthiness of a string: [!s] holds of the empty string only. *)
Definition truthy (s : jsstring) : bool :=
  match s with [] => false | _ :: _ => true end.

(* ================================================================== *)
(** ** Completions: values and exceptions *)
(* ================================================================== *)

Inductive Exn : Type :=
| TypeError      (* invalid URL, use of a destroyed object *)
| SyntaxError    (* JSON.parse *)
| ENOENT.        (* fs: no such file *)

Inductive Completion (A : Type) : Type :=
| Normal (a : A)
| Throw (e : Exn).
Arguments Normal {A} a.
Arguments Throw {A} e.

Definition bindC {A B} (c : Completion A) (k : A -> Completion B) : Completion B :=
  match c with
  | Normal a => k a
  | Throw e => Throw e
  end.

(** [try { body } catch { handler }] *)
Definition tryC {A} (body handler : Completion A) : Completion A :=
  match body with
  | Normal a => Normal a
  | Throw _ => handler
  end.

Declare Scope comp_scope.
Delimit Scope comp_scope with comp.
Notation "x <- c ;; k" := (bindC c (fun x => k))
  (at level 100, c at next level, right associativity) : comp_scope.

(* ================================================================== *)
(** ** The URL object *)
(* ================================================================== *)

(** The two properties of a parsed [URL] that the source reads. *)
Record URL : Type := mkURL {
  protocol : jsstring;     (* scheme followed by ":" *)
  hostname : jsstring
}.

(* ================================================================== *)
(** ** Domain policy *)
(* ================================================================== *)

Definition ALLOWED_HOSTS : list jsstring :=
  [ js "grok.com";
    js "x.ai";
    js "cloudflare.com";
    js "xai.com";
    js "cloudflareinsights.com";
    js "grokipedia.com";
    js "grokusercontent.com" ].

Section Policy.

(** [new URL(s)]: [None] when the constructor throws. *)
Variable URL_new : jsstring -> option URL.

Definition newURL (s : jsstring) : Completion URL :=
  match URL_new s with
  | Some u => Normal u
  | None => Throw TypeError
  end.

(** The callback of [ALLOWED_HOSTS.some(...)]. *)
Definition hostMatches (host a : jsstring) : bool :=
  strictEq host a || endsWith host (js "." ++ a).

Definition isAllowed (urlString : jsstring) : Completion bool :=
  tryC
    (u <- newURL urlString ;;
     if negb (strictEq (protocol u) (js "https:")) then Normal false
     else
       let host := toLowerCase (hostname u) in
       Normal (existsb (hostMatches host) ALLOWED_HOSTS))%comp
    (Normal false).

Definition isHttpUrl (u : URL) : bool :=
  strictEq (protocol u) (js "http:") || strictEq (protocol u) (js "https:").

Definition shouldOpenExternally (targetUrl : jsstring) : Completion bool :=
  tryC
    (u <- newURL targetUrl ;;
     if negb (isHttpUrl u) then Normal false
     else
       (allowed <- isAllowed targetUrl ;;
        Normal (negb allowed)))%comp
    (Normal false).

End Policy.

(* ================================================================== *)
(** ** JSON texts (ECMA-404) as [JSON.parse] and [JSON.stringify] see them *)
(* ================================================================== *)

(** A JSON value.  A number is kept as its lexeme: the source never
    computes with one.  An object is its list of own properties in
    creation order, without duplicate keys. *)
#[warnings="-register-all"]
Inductive json : Type :=
| JNull
| JBool (b : bool)
| JNumber (lexeme : jsstring)
| JString (s : jsstring)
| JArray (items : list json)
| JObject (members : list (jsstring * json)).

Definition QUOTE : N := 34.
Definition BACKSLASH : N := 92.
Definition ch (a : ascii) : N := N_of_ascii a.

(** [CreateDataProperty]: a later duplicate key overwrites the value. *)
Fixpoint setProp (k : jsstring) (v : json) (ms : list (jsstring * json))
  : list (jsstring * json) :=
  match ms with
  | [] => [(k, v)]
  | (k', v') :: r =>
      if strictEq k' k then (k', v) :: r else (k', v') :: setProp k v r
  end.

Fixpoint getProp (k : jsstring) (ms : list (jsstring * json)) : option json :=
  match ms with
  | [] => None
  | (k', v) :: r => if strictEq k' k then Some v else getProp k r
  end.

(** [data?.key]: [None] is [undefined].  Only an object has own
    properties named by an identifier such as [restoreUrl]; [null], a
    number, a boolean, a string and an array give [undefined]. *)
Definition optMember (data : json) (key : jsstring) : option json :=
  match data with
  | JObject ms => getProp key ms
  | _ => None
  end.

(** *** Code-unit classes *)

Definition isDigit (c : N) : bool := (48 <=? c) && (c <=? 57).
Definition isLeadSurrogate (c : N) : bool := (55296 <=? c) && (c <=? 56319).
Definition isTrailSurrogate (c : N) : bool := (56320 <=? c) && (c <=? 57343).
Definition isJsonSpace (c : N) : bool :=
  (c =? 32) || (c =? 9) || (c =? 10) || (c =? 13).

(** Lower-case hexadecimal digit of a value below 16, and back (both
    cases are read). *)
Definition hexDigit (d : N) : N := if d <? 10 then 48 + d else 87 + d.

Definition hexValue (c : N) : option N :=
  if isDigit c then Some (c - 48)
  else if (97 <=? c) && (c <=? 102) then Some (c - 87)
  else if (65 <=? c) && (c <=? 70) then Some (c - 55)
  else None.

(** *** JSON.stringify *)

(** [UnicodeEscape]: backslash, u and four lower-case hex digits. *)
Definition unicodeEscape (c : N) : jsstring :=
  [BACKSLASH; ch "u";
   hexDigit (c / 4096 mod 16); hexDigit (c / 256 mod 16);
   hexDigit (c / 16 mod 16); hexDigit (c mod 16)].

(** One code unit that is not a surrogate, as [QuoteJSONString] writes
    it. *)
Definition escapeUnit (c : N) : jsstring :=
  if c =? 8 then [BACKSLASH; ch "b"]
  else if c =? 9 then [BACKSLASH; ch "t"]
  else if c =? 10 then [BACKSLASH; ch "n"]
  else if c =? 12 then [BACKSLASH; ch "f"]
  else if c =? 13 then [BACKSLASH; ch "r"]
  else if c =? QUOTE then [BACKSLASH; QUOTE]
  else if c =? BACKSLASH then [BACKSLASH; BACKSLASH]
  else if c <? 32 then unicodeEscape c
  else [c].

(** The characters between the quotes of [QuoteJSONString]: a surrogate
    pair is copied, a lone surrogate is escaped. *)
Fixpoint quoteBody (s : jsstring) : jsstring :=
  match s with
  | [] => []
  | c :: t =>
      if isLeadSurrogate c then
        match t with
        | d :: t' =>
            if isTrailSurrogate d then c :: d :: quoteBody t'
            else unicodeEscape c ++ quoteBody t
        | [] => unicodeEscape c
        end
      else if isTrailSurrogate c then unicodeEscape c ++ quoteBody t
      else escapeUnit c ++ quoteBody t
  end.

Definition quoteJSONString (s : jsstring) : jsstring :=
  QUOTE :: quoteBody s ++ [QUOTE].

Fixpoint joinComma (parts : list jsstring) : jsstring :=
  match parts with
  | [] => []
  | [p] => p
  | p :: rest => p ++ ch "," :: joinComma rest
  end.

(** [JSON.stringify(value)] without indentation. *)
Fixpoint JSON_stringify (v : json) : jsstring :=
  match v with
  | JNull => js "null"
  | JBool true => js "true"
  | JBool false => js "false"
  | JNumber lexeme => lexeme
  | JString s => quoteJSONString s
  | JArray items =>
      ch "[" :: joinComma (List.map JSON_stringify items) ++ [ch "]"]
  | JObject members =>
      ch "{"
      :: joinComma
           (List.map (fun m => quoteJSONString (fst m) ++ ch ":" :: JSON_stringify (snd m))
                     members)
      ++ [ch "}"]
  end.

(** Decimal digits of a natural number, most significant first. *)
Fixpoint digitsAcc (fuel : nat) (n : N) (acc : jsstring) : jsstring :=
  match fuel with
  | O => acc
  | S f =>
      let acc' := (48 + n mod 10) :: acc in
      if n <? 10 then acc' else digitsAcc f (n / 10) acc'
  end.

Definition digits (n : N) : jsstring := digitsAcc (S (N.to_nat (N.log2 n))) n [].

(** [Number::toString] of an integer (the value of [Date.now()]). *)
Definition numberToString (z : Z) : jsstring :=
  match z with
  | Z0 => digits 0
  | Zpos p => digits (Npos p)
  | Zneg p => ch "-" :: digits (Npos p)
  end.

(** *** JSON.parse *)

Fixpoint skipSpace (s : jsstring) : jsstring :=
  match s with
  | c :: t => if isJsonSpace c then skipSpace t else s
  | [] => []
  end.

Fixpoint stripPrefix (p s : jsstring) : option jsstring :=
  match p, s with
  | [], _ => Some s
  | x :: p', y :: s' => if x =? y then stripPrefix p' s' else None
  | _ :: _, [] => None
  end.

Definition hex4 (a b c d : N) : option N :=
  match hexValue a, hexValue b, hexValue c, hexValue d with
  | Some x, Some y, Some z, Some w => Some (x * 4096 + y * 256 + z * 16 + w)
  | _, _, _, _ => None
  end.

(** The character written after a backslash, other than [u]. *)
Definition unescapeUnit (e : N) : option N :=
  if e =? QUOTE then Some QUOTE
  else if e =? BACKSLASH then Some BACKSLASH
  else if e =? ch "/" then Some (ch "/")
  else if e =? ch "b" then Some 8
  else if e =? ch "f" then Some 12
  else if e =? ch "n" then Some 10
  else if e =? ch "r" then Some 13
  else if e =? ch "t" then Some 9
  else None.

Definition consFst (c : N) (r : option (jsstring * jsstring))
  : option (jsstring * jsstring) :=
  match r with
  | Some (s, rest) => Some (c :: s, rest)
  | None => None
  end.

(** A string after its opening quote: the value and what follows the
    closing quote. *)
Fixpoint parseChars (s : jsstring) : option (jsstring * jsstring) :=
  match s with
  | [] => None
  | c :: t =>
      if c =? QUOTE then Some ([], t)
      else if c =? BACKSLASH then
        match t with
        | [] => None
        | e :: t1 =>
            if e =? ch "u" then
              match t1 with
              | h1 :: h2 :: h3 :: h4 :: t2 =>
                  match hex4 h1 h2 h3 h4 with
                  | Some u => consFst u (parseChars t2)
                  | None => None
                  end
              | _ => None
              end
            else
              match unescapeUnit e with
              | Some u => consFst u (parseChars t1)
              | None => None
              end
        end
      else if c <? 32 then None
      else consFst c (parseChars t)
  end.

Fixpoint takeDigits (s : jsstring) : jsstring * jsstring :=
  match s with
  | c :: t =>
      if isDigit c then let (ds, r) := takeDigits t in (c :: ds, r)
      else ([], s)
  | [] => ([], [])
  end.

(** Fraction and exponent of a number, both optional. *)
Definition parseFraction (s : jsstring) : option (jsstring * jsstring) :=
  match s with
  | c :: t =>
      if c =? ch "." then
        match takeDigits t with
        | ([], _) => None
        | (ds, r) => Some (c :: ds, r)
        end
      else Some ([], s)
  | [] => Some ([], [])
  end.

Definition parseExponent (s : jsstring) : option (jsstring * jsstring) :=
  match s with
  | c :: t =>
      if (c =? ch "e") || (c =? ch "E") then
        let (sign, t') :=
          match t with
          | g :: u => if (g =? ch "+") || (g =? ch "-") then ([g], u) else ([], t)
          | [] => ([], t)
          end in
        match takeDigits t' with
        | ([], _) => None
        | (ds, r) => Some (c :: sign ++ ds, r)
        end
      else Some ([], s)
  | [] => Some ([], [])
  end.

Definition parseInt (s : jsstring) : option (jsstring * jsstring) :=
  match s with
  | c :: t =>
      if c =? 48 then Some ([c], t)
      else if isDigit c then let (ds, r) := takeDigits t in Some (c :: ds, r)
      else None
  | [] => None
  end.

Definition parseNumber (s : jsstring) : option (jsstring * jsstring) :=
  let (sign, s1) :=
    match s with
    | c :: t => if c =? ch "-" then ([c], t) else ([], s)
    | [] => ([], s)
    end in
  match parseInt s1 with
  | None => None
  | Some (int, s2) =>
      match parseFraction s2 with
      | None => None
      | Some (frac, s3) =>
          match parseExponent s3 with
          | None => None
          | Some (exp, s4) => Some (sign ++ int ++ frac ++ exp, s4)
          end
      end
  end.

(** The value parser.  Every call peels one unit of [fuel]; of two nested
    calls at least one consumes a code unit, so [2 * length s + 2] units
    are enough for the text [s]. *)
Fixpoint parseValue (fuel : nat) (s : jsstring) : option (json * jsstring) :=
  match fuel with
  | O => None
  | S f =>
      match s with
      | [] => None
      | c :: t =>
          if c =? QUOTE then
            match parseChars t with
            | Some (str, r) => Some (JString str, r)
            | None => None
            end
          else if c =? ch "{" then
            match skipSpace t with
            | c2 :: t2 =>
                if c2 =? ch "}" then Some (JObject [], t2)
                else
                  match parseMembers f (c2 :: t2) [] with
                  | Some (ms, r) => Some (JObject ms, r)
                  | None => None
                  end
            | [] => None
            end
          else if c =? ch "[" then
            match skipSpace t with
            | c2 :: t2 =>
                if c2 =? ch "]" then Some (JArray [], t2)
                else
                  match parseElements f (c2 :: t2) [] with
                  | Some (xs, r) => Some (JArray xs, r)
                  | None => None
                  end
            | [] => None
            end
          else if c =? ch "t" then
            match stripPrefix (js "true") s with
            | Some r => Some (JBool true, r)
            | None => None
            end
          else if c =? ch "f" then
            match stripPrefix (js "false") s with
            | Some r => Some (JBool false, r)
            | None => None
            end
          else if c =? ch "n" then
            match stripPrefix (js "null") s with
            | Some r => Some (JNull, r)
            | None => None
            end
          else
            match parseNumber s with
            | Some (lexeme, r) => Some (JNumber lexeme, r)
            | None => None
            end
      end
  end

(** Elements of an array from the first one, up to the closing bracket. *)
with parseElements (fuel : nat) (s : jsstring) (acc : list json)
  : option (list json * jsstring) :=
  match fuel with
  | O => None
  | S f =>
      match parseValue f s with
      | None => None
      | Some (v, r) =>
          match skipSpace r with
          | c :: t =>
              if c =? ch "," then parseElements f (skipSpace t) (acc ++ [v])
              else if c =? ch "]" then Some (acc ++ [v], t)
              else None
          | [] => None
          end
      end
  end

(** Members of an object from the first key, up to the closing brace. *)
with parseMembers (fuel : nat) (s : jsstring) (acc : list (jsstring * json))
  : option (list (jsstring * json) * jsstring) :=
  match fuel with
  | O => None
  | S f =>
      match s with
      | c :: t =>
          if c =? QUOTE then
            match parseChars t with
            | None => None
            | Some (k, r) =>
                match skipSpace r with
                | c2 :: t2 =>
                    if c2 =? ch ":" then
                      match parseValue f (skipSpace t2) with
                      | None => None
                      | Some (v, r2) =>
                          match skipSpace r2 with
                          | c3 :: t3 =>
                              if c3 =? ch "," then
                                parseMembers f (skipSpace t3) (setProp k v acc)
                              else if c3 =? ch "}" then Some (setProp k v acc, t3)
                              else None
                          | [] => None
                          end
                      end
                    else None
                | [] => None
                end
            end
          else None
      | [] => None
      end
  end.

(** [JSON.parse(text)]: [None] when it throws a [SyntaxError]. *)
Definition JSON_parse (text : jsstring) : option json :=
  match parseValue (2 * length text + 2) (skipSpace text) with
  | Some (v, r) =>
      match skipSpace r with
      | [] => Some v
      | _ :: _ => None
      end
  | None => None
  end.

(* ================================================================== *)
(** ** The world of the main process *)
(* ================================================================== *)

(** Events of a window and of its [webContents] that the source listens
    to, and the callbacks it registers for them. *)
Inductive EventName : Type :=
| did_finish_load | did_fail_load | context_menu
| will_navigate | will_redirect | closed.

Inductive Callback : Type :=
| CbClearRestoreUrl     (* clearRestoreUrl *)
| CbContextMenu         (* (_e, p) => { ... popup(...) } *)
| CbWillNavigate        (* (e, url) => { ... } of will-navigate *)
| CbWillRedirect        (* (e, url) => { ... } of will-redirect *)
| CbClosed.             (* () => { win = null; ... } *)

Record Listener : Type := mkListener {
  l_event : EventName;
  l_callback : Callback;
  l_once : bool
}.

(** A [BrowserWindow] of the host, with its [webContents]. *)
Record BrowserWindow : Type := mkWindow {
  destroyed : bool;
  closedEmitted : bool;          (* the host has emitted 'closed' *)
  focused : bool;
  visible : bool;
  minimized : bool;
  currentURL : jsstring;         (* webContents.getURL() *)
  listeners : list Listener;     (* on / once, in registration order *)
  hasOpenHandler : bool;         (* setWindowOpenHandler was called *)
  menuBarVisible : bool
}.

(** Calls into the host that leave a mark outside the process, in the
    order they were made. *)
Inductive Effect : Type :=
| ConsoleLog (tag url : jsstring)
| OpenExternal (url : jsstring)            (* shell.openExternal *)
| AppQuit                                  (* app.quit() *)
| WinFocus (id : nat)
| WinShow (id : nat)
| WinRestore (id : nat)
| LoadURL (id : nat) (url : jsstring)
| SetApplicationMenu
| MenuPopup
| NotificationShow (title body : jsstring).

Record World : Type := mkWorld {
  (* module variables *)
  win : option nat;                   (* null, or a window of [windows] *)
  isWindowCreationStarted : bool;
  (* host *)
  windows : list BrowserWindow;       (* every window ever created *)
  requestFilter : bool;               (* onBeforeRequest listener installed *)
  notificationSupported : bool;       (* Notification.isSupported() *)
  pendingNotifications : nat;         (* shown, with the click listener *)
  isDarwin : bool;                    (* process.platform === 'darwin' *)
  (* file system: restore-state.json, decoded as UTF-8 *)
  stateFile : option jsstring;
  (* Date.now() *)
  clock : Z;
  trace : list Effect
}.

Definition set_win (v : option nat) (w : World) : World :=
  mkWorld v (isWindowCreationStarted w) (windows w) (requestFilter w)
          (notificationSupported w) (pendingNotifications w) (isDarwin w)
          (stateFile w) (clock w) (trace w).
Definition set_started (v : bool) (w : World) : World :=
  mkWorld (win w) v (windows w) (requestFilter w)
          (notificationSupported w) (pendingNotifications w) (isDarwin w)
          (stateFile w) (clock w) (trace w).
Definition set_windows (v : list BrowserWindow) (w : World) : World :=
  mkWorld (win w) (isWindowCreationStarted w) v (requestFilter w)
          (notificationSupported w) (pendingNotifications w) (isDarwin w)
          (stateFile w) (clock w) (trace w).
Definition set_requestFilter (v : bool) (w : World) : World :=
  mkWorld (win w) (isWindowCreationStarted w) (windows w) v
          (notificationSupported w) (pendingNotifications w) (isDarwin w)
          (stateFile w) (clock w) (trace w).
Definition set_pendingNotifications (v : nat) (w : World) : World :=
  mkWorld (win w) (isWindowCreationStarted w) (windows w) (requestFilter w)
          (notificationSupported w) v (isDarwin w)
          (stateFile w) (clock w) (trace w).
Definition set_stateFile (v : option jsstring) (w : World) : World :=
  mkWorld (win w) (isWindowCreationStarted w) (windows w) (requestFilter w)
          (notificationSupported w) (pendingNotifications w) (isDarwin w)
          v (clock w) (trace w).
Definition log_effect (e : Effect) (w : World) : World :=
  mkWorld (win w) (isWindowCreationStarted w) (windows w) (requestFilter w)
          (notificationSupported w) (pendingNotifications w) (isDarwin w)
          (stateFile w) (clock w) (trace w ++ [e]).

Definition set_destroyed (v : bool) (b : BrowserWindow) : BrowserWindow :=
  mkWindow v (closedEmitted b) (focused b) (visible b) (minimized b)
           (currentURL b) (listeners b) (hasOpenHandler b) (menuBarVisible b).
Definition set_closedEmitted (v : bool) (b : BrowserWindow) : BrowserWindow :=
  mkWindow (destroyed b) v (focused b) (visible b) (minimized b)
           (currentURL b) (listeners b) (hasOpenHandler b) (menuBarVisible b).
Definition set_focused (v : bool) (b : BrowserWindow) : BrowserWindow :=
  mkWindow (destroyed b) (closedEmitted b) v (visible b) (minimized b)
           (currentURL b) (listeners b) (hasOpenHandler b) (menuBarVisible b).
Definition set_visible (v : bool) (b : BrowserWindow) : BrowserWindow :=
  mkWindow (destroyed b) (closedEmitted b) (focused b) v (minimized b)
           (currentURL b) (listeners b) (hasOpenHandler b) (menuBarVisible b).
Definition set_minimized (v : bool) (b : BrowserWindow) : BrowserWindow :=
  mkWindow (destroyed b) (closedEmitted b) (focused b) (visible b) v
           (currentURL b) (listeners b) (hasOpenHandler b) (menuBarVisible b).
Definition set_currentURL (v : jsstring) (b : BrowserWindow) : BrowserWindow :=
  mkWindow (destroyed b) (closedEmitted b) (focused b) (visible b) (minimized b)
           v (listeners b) (hasOpenHandler b) (menuBarVisible b).
Definition set_listeners (v : list Listener) (b : BrowserWindow) : BrowserWindow :=
  mkWindow (destroyed b) (closedEmitted b) (focused b) (visible b) (minimized b)
           (currentURL b) v (hasOpenHandler b) (menuBarVisible b).
Definition set_hasOpenHandler (v : bool) (b : BrowserWindow) : BrowserWindow :=
  mkWindow (destroyed b) (closedEmitted b) (focused b) (visible b) (minimized b)
           (currentURL b) (listeners b) v (menuBarVisible b).
Definition set_menuBarVisible (v : bool) (b : BrowserWindow) : BrowserWindow :=
  mkWindow (destroyed b) (closedEmitted b) (focused b) (visible b) (minimized b)
           (currentURL b) (listeners b) (hasOpenHandler b) v.

(** *** The monad of the main process: state and exceptions *)

Definition M (A : Type) : Type := World -> Completion A * World.

Definition retM {A} (a : A) : M A := fun w => (Normal a, w).
Definition throwM {A} (e : Exn) : M A := fun w => (Throw e, w).
Definition bindM {A B} (c : M A) (k : A -> M B) : M B :=
  fun w =>
    match c w with
    | (Normal a, w') => k a w'
    | (Throw e, w') => (Throw e, w')
    end.
(** [try { body } catch { handler }]: the handler runs in the world the
    body left. *)
Definition tryM {A} (body handler : M A) : M A :=
  fun w =>
    match body w with
    | (Normal a, w') => (Normal a, w')
    | (Throw _, w') => handler w'
    end.
Definition liftC {A} (c : Completion A) : M A := fun w => (c, w).
Definition getsM {A} (f : World -> A) : M A := fun w => (Normal (f w), w).
Definition modifyM (f : World -> World) : M unit := fun w => (Normal tt, f w).
Definition effectM (e : Effect) : M unit := modifyM (log_effect e).

Declare Scope m_scope.
Delimit Scope m_scope with M.
Notation "x <- c ;; k" := (bindM c (fun x => k))
  (at level 100, c at next level, right associativity) : m_scope.
Notation "c ;;; k" := (bindM c (fun _ => k))
  (at level 100, right associativity) : m_scope.

(** [if (c) body] with no [else]. *)
Definition whenM (c : bool) (body : M unit) : M unit :=
  if c then body else retM tt.

(** The world after a computation, and its completion. *)
Definition exec {A} (c : M A) (w : World) : World := snd (c w).
Definition result {A} (c : M A) (w : World) : Completion A := fst (c w).

(* ================================================================== *)
(** ** The host: windows, shell, file system *)
(* ================================================================== *)

Local Open Scope m_scope.

Definition getWindow (id : nat) : M BrowserWindow :=
  fun w =>
    match windows w !! id with
    | Some b => (Normal b, w)
    | None => (Throw TypeError, w)
    end.

(** Every method of a destroyed window but [isDestroyed] throws
    ("Object has been destroyed"). *)
Definition liveWindow (id : nat) : M BrowserWindow :=
  b <- getWindow id ;;
  if destroyed b then throwM TypeError else retM b.

Definition updWindow (id : nat) (f : BrowserWindow -> BrowserWindow) : M unit :=
  modifyM (fun w => set_windows (alter f id (windows w)) w).

Definition win_isDestroyed (id : nat) : M bool :=
  b <- getWindow id ;; retM (destroyed b).
Definition win_isFocused (id : nat) : M bool :=
  b <- liveWindow id ;; retM (focused b).
Definition win_isVisible (id : nat) : M bool :=
  b <- liveWindow id ;; retM (visible b).
Definition win_isMinimized (id : nat) : M bool :=
  b <- liveWindow id ;; retM (minimized b).

(** [restore]: out of the minimized state.  [show]: shows the window and
    gives it focus.  [focus]: focuses the window. *)
Definition win_restore (id : nat) : M unit :=
  liveWindow id ;;;
  updWindow id (set_minimized false) ;;;
  effectM (WinRestore id).
Definition win_show (id : nat) : M unit :=
  liveWindow id ;;;
  updWindow id (fun b => set_focused true (set_visible true b)) ;;;
  effectM (WinShow id).
Definition win_focus (id : nat) : M unit :=
  liveWindow id ;;;
  updWindow id (set_focused true) ;;;
  effectM (WinFocus id).
Definition win_setMenuBarVisibility (id : nat) (v : bool) : M unit :=
  liveWindow id ;;;
  updWindow id (set_menuBarVisible v).
Definition win_loadURL (id : nat) (url : jsstring) : M unit :=
  liveWindow id ;;;
  effectM (LoadURL id url).
Definition webContents_getURL (id : nat) : M jsstring :=
  b <- liveWindow id ;; retM (currentURL b).
Definition webContents_setWindowOpenHandler (id : nat) : M unit :=
  liveWindow id ;;;
  updWindow id (set_hasOpenHandler true).

(** [emitter.on(event, cb)] and [emitter.once(event, cb)]. *)
Definition addListener (id : nat) (l : Listener) : M unit :=
  liveWindow id ;;;
  updWindow id (fun b => set_listeners (listeners b ++ [l]) b).
Definition on_ (id : nat) (ev : EventName) (cb : Callback) : M unit :=
  addListener id (mkListener ev cb false).
Definition once_ (id : nat) (ev : EventName) (cb : Callback) : M unit :=
  addListener id (mkListener ev cb true).

(** [new BrowserWindow(options)]: a fresh window, shown ([show] is not
    set to false) and with no page yet. *)
Definition freshWindow : BrowserWindow :=
  mkWindow false false true true false [] [] false true.

Definition new_BrowserWindow : M nat :=
  fun w => (Normal (length (windows w)),
            set_windows (windows w ++ [freshWindow]) w).

(** [BrowserWindow.getAllWindows().length]: the windows not destroyed. *)
Definition liveCount (w : World) : nat :=
  length (List.filter (fun b => negb (destroyed b)) (windows w)).

Definition shell_openExternal (url : jsstring) : M unit :=
  effectM (OpenExternal url).
Definition console_log (tag url : jsstring) : M unit :=
  effectM (ConsoleLog tag url).
Definition app_quit : M unit := effectM AppQuit.
Definition Date_now : M Z := getsM clock.

(** *** The state file *)

(** What [readFileSync(_, 'utf8')] returns of a string written with
    [writeFileSync(_, _, 'utf8')]: encoding to UTF-8 replaces a lone
    surrogate by U+FFFD. *)
Fixpoint toWellFormed (s : jsstring) : jsstring :=
  match s with
  | [] => []
  | c :: t =>
      if isLeadSurrogate c then
        match t with
        | d :: t' =>
            if isTrailSurrogate d then c :: d :: toWellFormed t'
            else 65533 :: toWellFormed t
        | [] => [65533]
        end
      else if isTrailSurrogate c then 65533 :: toWellFormed t
      else c :: toWellFormed t
  end.

Definition fs_writeFileSync (data : jsstring) : M unit :=
  modifyM (set_stateFile (Some (toWellFormed data))).

Definition fs_readFileSync : M jsstring :=
  fun w =>
    match stateFile w with
    | Some raw => (Normal raw, w)
    | None => (Throw ENOENT, w)
    end.

Definition fs_unlinkSync : M unit :=
  fun w =>
    match stateFile w with
    | Some _ => (Normal tt, set_stateFile None w)
    | None => (Throw ENOENT, w)
    end.

Definition JSON_parseM (text : jsstring) : M json :=
  match JSON_parse text with
  | Some v => retM v
  | None => throwM SyntaxError
  end.

(* ================================================================== *)
(** ** Restore-on-rerun state *)
(* ================================================================== *)

Definition writeRestoreUrl (url : jsstring) : M unit :=
  tryM
    (now <- Date_now ;;
     fs_writeFileSync
       (JSON_stringify
          (JObject [(js "restoreUrl", JString url);
                    (js "ts", JNumber (numberToString now))])))
    (retM tt).

(** [null] is [None]. *)
Definition readRestoreUrl : M (option jsstring) :=
  tryM
    (raw <- fs_readFileSync ;;
     data <- JSON_parseM raw ;;
     match optMember data (js "restoreUrl") with
     | Some (JString s) => retM (Some s)
     | _ => retM None
     end)
    (retM None).

Definition clearRestoreUrl : M unit :=
  tryM fs_unlinkSync (retM tt).

(* ================================================================== *)
(** ** The main process of [main.js] *)
(* ================================================================== *)

Record Response : Type := mkResponse { cancel : bool }.

Inductive Action : Type := deny | allow.

(** The event object of a navigation: [e.preventDefault()] sets the flag. *)
Record NavEvent : Type := mkNavEvent { defaultPrevented : bool }.

Definition DEFAULT_URL : jsstring := js "https://grok.com/".

(** The body of the notification; 8212 is the em dash. *)
Definition NOTIFICATION_BODY : jsstring :=
  js "Already running " ++ [8212] ++ js " click to bring it forward".

Section Main.

Variable URL_new : jsstring -> option URL.

(** [win && !win.isDestroyed()] *)
Definition winIsLive : M bool :=
  w <- getsM win ;;
  match w with
  | None => retM false
  | Some id => d <- win_isDestroyed id ;; retM (negb d)
  end.

Definition safeGetCurrentUrl : M (option jsstring) :=
  tryM
    (w <- getsM win ;;
     match w with
     | None => retM None
     | Some id =>
         d <- win_isDestroyed id ;;
         if d then retM None
         else
           url <- webContents_getURL id ;;
           if negb (truthy url) then retM None
           else
             allowed <- liftC (isAllowed URL_new url) ;;
             if negb allowed then retM None else retM (Some url)
     end)
    (retM None).

(** The listener of the notification's [click]. *)
Definition onNotificationClick : M unit :=
  w <- getsM win ;;
  match w with
  | None => throwM TypeError    (* win.isMinimized() of null *)
  | Some id =>
      m <- win_isMinimized id ;;
      whenM m (win_restore id) ;;;
      win_show id ;;;
      win_focus id
  end.

(** [app.on('second-instance', ...)] *)
Definition onSecondInstance : M unit :=
  w <- getsM win ;;
  match w with
  | None => retM tt
  | Some id =>
      d <- win_isDestroyed id ;;
      if d then retM tt
      else
        (* the three tests only read the live window *)
        f <- win_isFocused id ;;
        v <- win_isVisible id ;;
        m <- win_isMinimized id ;;
        if f && v && negb m then
          url <- safeGetCurrentUrl ;;
          match url with
          | Some u => whenM (truthy u) (writeRestoreUrl u)
          | None => retM tt
          end ;;;
          app_quit
        else
          m <- win_isMinimized id ;;
          whenM m (win_restore id) ;;;
          v <- win_isVisible id ;;
          whenM (negb v) (win_show id) ;;;
          win_focus id ;;;
          supported <- getsM notificationSupported ;;
          whenM supported
            (modifyM (fun w => set_pendingNotifications
                                 (S (pendingNotifications w)) w) ;;;
             effectM (NotificationShow (js "Grok") NOTIFICATION_BODY))
  end.

(** The listener of [webRequest.onBeforeRequest]; its result is the
    argument it passes to [cb]. *)
Definition onBeforeRequest (details_url : jsstring) : M Response :=
  tryM
    (u <- liftC (newURL URL_new details_url) ;;
     if negb (strictEq (protocol u) (js "http:"))
        && negb (strictEq (protocol u) (js "https:"))
     then retM (mkResponse false)
     else
       allowed <- liftC (isAllowed URL_new details_url) ;;
       if negb allowed then
         console_log (js "[BLOCKED]") details_url ;;;
         retM (mkResponse true)
       else retM (mkResponse false))
    (retM (mkResponse true)).

(** The handler given to [setWindowOpenHandler]. *)
Definition windowOpenHandler (url : jsstring) : M Action :=
  tryM
    (u <- liftC (newURL URL_new url) ;;
     whenM (strictEq (protocol u) (js "http:")
            || strictEq (protocol u) (js "https:"))
           (shell_openExternal url))
    (retM tt) ;;;
  retM deny.

(** The listeners of [will-navigate] and of [will-redirect]. *)
Definition onWillNavigate (e : NavEvent) (url : jsstring) : M NavEvent :=
  external <- liftC (shouldOpenExternally URL_new url) ;;
  if external then
    shell_openExternal url ;;;
    retM (mkNavEvent true)
  else retM e.

Definition onWillRedirect (e : NavEvent) (url : jsstring) : M NavEvent :=
  external <- liftC (shouldOpenExternally URL_new url) ;;
  if external then
    shell_openExternal url ;;;
    retM (mkNavEvent true)
  else retM e.

(** The listener of the window's [closed]. *)
Definition onClosed : M unit :=
  modifyM (set_win None) ;;;
  modifyM (set_started false).

Definition createWindow : M unit :=
  started <- getsM isWindowCreationStarted ;;
  live <- winIsLive ;;
  if started || live then
    live' <- winIsLive ;;
    match live' with
    | true =>
        w <- getsM win ;;
        match w with
        | Some id => win_focus id
        | None => retM tt
        end
    | false => retM tt
    end
  else
    modifyM (set_started true) ;;;
    id <- new_BrowserWindow ;;
    modifyM (set_win (Some id)) ;;;
    (* Decide startup URL (restore if valid) *)
    restoreUrl <- readRestoreUrl ;;
    startUrl <-
      match restoreUrl with
      | Some r =>
          if truthy r then
            allowed <- liftC (isAllowed URL_new r) ;;
            retM (if allowed then r else DEFAULT_URL)
          else retM DEFAULT_URL
      | None => retM DEFAULT_URL
      end ;;
    whenM (negb (strictEq startUrl DEFAULT_URL))
      (once_ id did_finish_load CbClearRestoreUrl ;;;
       once_ id did_fail_load CbClearRestoreUrl) ;;;
    (* Network lockdown *)
    modifyM (set_requestFilter true) ;;;
    (* Menu *)
    effectM SetApplicationMenu ;;;
    win_setMenuBarVisibility id false ;;;
    (* Context menu *)
    on_ id context_menu CbContextMenu ;;;
    (* Navigation control *)
    webContents_setWindowOpenHandler id ;;;
    on_ id will_navigate CbWillNavigate ;;;
    on_ id will_redirect CbWillRedirect ;;;
    win_loadURL id startUrl ;;;
    on_ id closed CbClosed.

(** [app.on('window-all-closed', ...)] and [app.on('activate', ...)] *)
Definition onWindowAllClosed : M unit :=
  darwin <- getsM isDarwin ;;
  whenM (negb darwin) app_quit.

Definition onActivate : M unit :=
  n <- getsM liveCount ;;
  whenM (Nat.eqb n 0) createWindow.

End Main.

(* ================================================================== *)
(** ** The context menu *)
(* ================================================================== *)

(** What the [context-menu] listener reads of its [params].  [undefined]
    is [None]. *)
Record EditFlags : Type := mkEditFlags {
  canCut : bool;
  canPaste : bool
}.

Record ContextMenuParams : Type := mkParams {
  misspelledWord : jsstring;
  dictionarySuggestions : option (list jsstring);
  isEditable : bool;
  editFlags : EditFlags;
  selectionText : option jsstring;
  linkURL : jsstring
}.

Inductive Role : Type := cut | copy | paste | selectAll.

(** The [click] functions of the template. *)
Inductive Click : Type :=
| ReplaceMisspelling (s : jsstring)   (* win.webContents.replaceMisspelling(s) *)
| ClipboardWriteText (s : jsstring).  (* clipboard.writeText(p.linkURL) *)

(** The values the listener gives to [enabled]. *)
Inductive Value : Type :=
| VUndefined
| VBool (b : bool)
| VNumber (n : nat).

(** An entry of the template: the properties of the object literal;
    a property that is not written is [None]. *)
Record MenuItem : Type := mkItem {
  label : option jsstring;
  role : option Role;
  separator : bool;             (* type: 'separator' *)
  enabled : option Value;
  click : option Click
}.

Definition suggestionItem (s : jsstring) : MenuItem :=
  mkItem (Some s) None false None (Some (ReplaceMisspelling s)).

Definition noSuggestionsItem : MenuItem :=
  mkItem (Some (js "No suggestions")) None false (Some (VBool false)) None.

Definition separatorItem : MenuItem := mkItem None None true None None.

(** [p.selectionText?.length] *)
Definition selectionLength (p : ContextMenuParams) : Value :=
  match selectionText p with
  | Some s => VNumber (length s)
  | None => VUndefined
  end.

Definition editItems (p : ContextMenuParams) : list MenuItem :=
  [ mkItem (Some (js "Cut")) (Some cut) false
           (Some (VBool (isEditable p && canCut (editFlags p)))) None;
    mkItem (Some (js "Copy")) (Some copy) false
           (Some (selectionLength p)) None;
    mkItem (Some (js "Paste")) (Some paste) false
           (Some (VBool (isEditable p && canPaste (editFlags p)))) None;
    mkItem (Some (js "Select All")) (Some selectAll) false None None ].

Definition copyLinkItem (url : jsstring) : MenuItem :=
  mkItem (Some (js "Copy Link Address")) None false None
         (Some (ClipboardWriteText url)).

(** The array [items] when the listener calls [Menu.buildFromTemplate]:
    each [let] is one statement of the listener. *)
Definition contextMenuItems (p : ContextMenuParams) : list MenuItem :=
  let items := [] in
  let items :=
    if truthy (misspelledWord p) then
      let items :=
        fold_left (fun items s => items ++ [suggestionItem s])
          (firstn 8 (match dictionarySuggestions p with
                     | Some l => l
                     | None => []
                     end))
          items in
      let items :=
        if (length items =? 0)%nat then items ++ [noSuggestionsItem]
        else items in
      items ++ [separatorItem]
    else items in
  let items := items ++ editItems p in
  let items :=
    if truthy (linkURL p) then
      items ++ [separatorItem; copyLinkItem (linkURL p)]
    else items in
  items.

(* ================================================================== *)
(** ** Event dispatch *)
(* ================================================================== *)

#[global] Instance EventName_eq_dec : EqDecision EventName.
Proof. solve_decision. Defined.
#[global] Instance Callback_eq_dec : EqDecision Callback.
Proof. solve_decision. Defined.
#[global] Instance Listener_eq_dec : EqDecision Listener.
Proof. solve_decision. Defined.

Fixpoint removeFirst (l : Listener) (ls : list Listener) : list Listener :=
  match ls with
  | [] => []
  | x :: r => if bool_decide (x = l) then r else x :: removeFirst l r
  end.

(** What reaches the process from the host and from the user.  The host
    closes a window in two moments, [Destroy] and then [Closed]; any
    other event may fall between them. *)
Inductive HostEvent : Type :=
| Ready                                   (* app.whenReady() resolves *)
| Activate                                (* app 'activate' *)
| SecondInstance                          (* app 'second-instance' *)
| WindowAllClosed                         (* app 'window-all-closed' *)
| Destroy (id : nat)                      (* the window is destroyed *)
| Closed (id : nat)                       (* its 'closed' is emitted, once *)
| DidFinishLoad (id : nat)
| DidFailLoad (id : nat)
| WillNavigate (id : nat) (url : jsstring)
| WillRedirect (id : nat) (url : jsstring)
| WindowOpen (id : nat) (url : jsstring)  (* window.open, target=_blank *)
| BeforeRequest (url : jsstring)          (* a request of the session *)
| NotificationClick
| UserFocus (id : nat) (v : bool)
| UserMinimize (id : nat) (v : bool)
| UserShow (id : nat) (v : bool)
| Navigate (id : nat) (url : jsstring)    (* the page of a window is requested *)
| Tick (now : Z)                          (* the clock advances *)
| ContextMenu (id : nat).

Section Dispatch.

Variable URL_new : jsstring -> option URL.

Definition runCallback (cb : Callback) (e : NavEvent) (url : jsstring)
  : M NavEvent :=
  match cb with
  | CbClearRestoreUrl => clearRestoreUrl ;;; retM e
  | CbContextMenu => effectM MenuPopup ;;; retM e
  | CbWillNavigate => onWillNavigate URL_new e url
  | CbWillRedirect => onWillRedirect URL_new e url
  | CbClosed => onClosed ;;; retM e
  end.

(** [emitter.emit]: the listeners registered when the event is emitted
    run in order; a [once] listener is removed before it runs. *)
Fixpoint emitTo (id : nat) (ls : list Listener) (e : NavEvent)
         (url : jsstring) : M NavEvent :=
  match ls with
  | [] => retM e
  | l :: r =>
      whenM (l_once l)
        (updWindow id (fun b => set_listeners (removeFirst l (listeners b)) b)) ;;;
      e' <- runCallback (l_callback l) e url ;;
      emitTo id r e' url
  end.

Definition emit (id : nat) (ev : EventName) (url : jsstring) : M NavEvent :=
  b <- getWindow id ;;
  emitTo id
    (List.filter (fun l => bool_decide (l_event l = ev)) (listeners b))
    (mkNavEvent false) url.

(** An event of a window reaches the process while the window lives. *)
Definition whenLive (id : nat) (body : M unit) : M unit :=
  fun w =>
    match windows w !! id with
    | Some b => if destroyed b then (Normal tt, w) else body w
    | None => (Normal tt, w)
    end.

Definition dispatch (ev : HostEvent) : M unit :=
  match ev with
  | Ready => createWindow URL_new
  | Activate => onActivate URL_new
  | SecondInstance => onSecondInstance URL_new
  | WindowAllClosed => onWindowAllClosed
  | Destroy id =>
      whenLive id
        (updWindow id (fun b =>
           set_destroyed true (set_focused false (set_visible false b))))
  | Closed id =>
      fun w =>
        match windows w !! id with
        | Some b =>
            if destroyed b && negb (closedEmitted b) then
              (updWindow id (set_closedEmitted true) ;;;
               emit id closed [] ;;; retM tt) w
            else (Normal tt, w)
        | None => (Normal tt, w)
        end
  | DidFinishLoad id => whenLive id (emit id did_finish_load [] ;;; retM tt)
  | DidFailLoad id => whenLive id (emit id did_fail_load [] ;;; retM tt)
  | WillNavigate id url => whenLive id (emit id will_navigate url ;;; retM tt)
  | WillRedirect id url => whenLive id (emit id will_redirect url ;;; retM tt)
  | WindowOpen id url =>
      whenLive id
        (b <- getWindow id ;;
         whenM (hasOpenHandler b) (windowOpenHandler URL_new url ;;; retM tt))
  | BeforeRequest url =>
      installed <- getsM requestFilter ;;
      whenM installed (onBeforeRequest URL_new url ;;; retM tt)
  | NotificationClick =>
      n <- getsM pendingNotifications ;;
      whenM (negb (Nat.eqb n 0)) onNotificationClick
  | UserFocus id v => whenLive id (updWindow id (set_focused v))
  | UserMinimize id v => whenLive id (updWindow id (set_minimized v))
  | UserShow id v => whenLive id (updWindow id (set_visible v))
  | Navigate id url =>
      (* The main-frame request passes through [onBeforeRequest] when the
         listener is installed; the page becomes the window's page unless
         the request is canceled. *)
      whenLive id
        (installed <- getsM requestFilter ;;
         r <- (if installed then onBeforeRequest URL_new url
               else retM (mkResponse false)) ;;
         whenM (negb (cancel r)) (updWindow id (set_currentURL url)))
  | Tick now =>
      modifyM (fun w =>
        mkWorld (win w) (isWindowCreationStarted w) (windows w)
                (requestFilter w) (notificationSupported w)
                (pendingNotifications w) (isDarwin w) (stateFile w)
                now (trace w))
  | ContextMenu id => whenLive id (emit id context_menu [] ;;; retM tt)
  end.

(** One step of the event loop: an exception that escapes a listener is
    reported by the host and the loop goes on. *)
Definition step (w : World) (ev : HostEvent) : World := exec (dispatch ev) w.

Definition run (w : World) (evs : list HostEvent) : World :=
  fold_left step evs w.

End Dispatch.

(** The process before [app.whenReady()] resolves. *)
Definition initialWorld (supported darwin : bool) (file : option jsstring)
           (now : Z) : World :=
  mkWorld None false [] false supported 0 darwin file now [].

(** At most one window of the host is not destroyed. *)
Definition singleWindow (w : World) : Prop := (liveCount w <= 1)%nat.

(* ================================================================== *)
(** ** A reference URL parser *)
(* ================================================================== *)

(** An executable parser for a fragment of the URL Standard (basic URL
    parser, no base URL): a scheme, and for [http], [https], [ws], [wss]
    and [ftp] an authority whose host is a domain of ASCII letters,
    digits, hyphens, underscores and dots that does not end in a number
    and has no label in the ACE form ([xn--]), with optional credentials
    and a decimal port.  On this fragment [parse s = Some u] gives the
    [protocol] and [hostname] of [new URL(s)]; a string with no scheme,
    and an empty host behind credentials or before a port, make the
    constructor throw.  Outside the fragment (IP literals, ACE labels,
    percent-encoded or non-ASCII hosts, [file:]) [parse] answers [None]
    and says nothing about the constructor. *)
Module UrlRef.

Definition isAlpha (c : N) : bool :=
  ((65 <=? c) && (c <=? 90)) || ((97 <=? c) && (c <=? 122)).

Definition isSchemeUnit (c : N) : bool :=
  isAlpha c || isDigit c || (c =? ch "+") || (c =? ch "-") || (c =? ch ".").

Definition isDomainUnit (c : N) : bool :=
  isAlpha c || isDigit c || (c =? ch "-") || (c =? ch "_") || (c =? ch ".").

Definition isTabOrNewline (c : N) : bool :=
  (c =? 9) || (c =? 10) || (c =? 13).

Fixpoint dropC0 (s : jsstring) : jsstring :=
  match s with
  | c :: t => if c <=? 32 then dropC0 t else s
  | [] => []
  end.

(** Leading and trailing C0 controls and spaces are removed, then every
    tab and newline. *)
Definition preprocess (s : jsstring) : jsstring :=
  List.filter (fun c => negb (isTabOrNewline c))
              (rev (dropC0 (rev (dropC0 s)))).

(** The scheme, lower-cased, and what follows its colon. *)
Fixpoint schemeRest (s : jsstring) : option (jsstring * jsstring) :=
  match s with
  | [] => None
  | c :: t =>
      if c =? ch ":" then Some ([], t)
      else if isSchemeUnit c then consFst (lowerUnit c) (schemeRest t)
      else None
  end.

Definition parseScheme (s : jsstring) : option (jsstring * jsstring) :=
  match s with
  | c :: _ => if isAlpha c then schemeRest s else None
  | [] => None
  end.

Definition isSlash (c : N) : bool := (c =? ch "/") || (c =? BACKSLASH).

Fixpoint dropSlashes (s : jsstring) : jsstring :=
  match s with
  | c :: t => if isSlash c then dropSlashes t else s
  | [] => []
  end.

(** The authority: up to the first slash, question mark or hash. *)
Fixpoint takeAuthority (special : bool) (s : jsstring) : jsstring :=
  match s with
  | c :: t =>
      if (c =? ch "/") || (c =? ch "?") || (c =? ch "#")
         || (special && (c =? BACKSLASH))
      then []
      else c :: takeAuthority special t
  | [] => []
  end.

(** What follows the last [@], when there is one. *)
Fixpoint afterLastAt (s : jsstring) : jsstring :=
  match s with
  | c :: t =>
      if (c =? ch "@") && negb (existsb (N.eqb (ch "@")) t) then t
      else if existsb (N.eqb (ch "@")) s then afterLastAt t
      else s
  | [] => []
  end.

Fixpoint splitPort (s : jsstring) : jsstring * option jsstring :=
  match s with
  | c :: t =>
      if c =? ch ":" then ([], Some t)
      else let (h, p) := splitPort t in (c :: h, p)
  | [] => ([], None)
  end.

Fixpoint decimalValue (acc : N) (s : jsstring) : N :=
  match s with
  | c :: t => decimalValue (acc * 10 + (c - 48)) t
  | [] => acc
  end.

Definition portOk (p : option jsstring) : bool :=
  match p with
  | None => true
  | Some ds => forallb isDigit ds && (decimalValue 0 ds <=? 65535)
  end.

(** The last label of a domain, a trailing dot apart. *)
Fixpoint lastLabel (cur : jsstring) (s : jsstring) : jsstring :=
  match s with
  | c :: t =>
      if c =? ch "." then
        match t with
        | [] => cur
        | _ :: _ => lastLabel [] t
        end
      else lastLabel (cur ++ [c]) t
  | [] => cur
  end.

Definition endsInNumber (host : jsstring) : bool :=
  let l := lastLabel [] host in
  match l with
  | [] => false
  | c :: t =>
      forallb isDigit l
      || ((c =? 48) && match t with
                       | x :: _ => (x =? ch "x") || (x =? ch "X")
                       | [] => false
                       end)
  end.

(** A label of the host starts with [xn--], in any case. *)
Fixpoint hasAceLabel (atStart : bool) (s : jsstring) : bool :=
  match s with
  | c :: t =>
      (atStart && strictEq (toLowerCase (firstn 4 s)) (js "xn--"))
      || hasAceLabel (c =? ch ".") t
  | [] => false
  end.

Definition isSpecial (scheme : jsstring) : bool :=
  strictEq scheme (js "http") || strictEq scheme (js "https")
  || strictEq scheme (js "ws") || strictEq scheme (js "wss")
  || strictEq scheme (js "ftp").

Definition parse (input : jsstring) : option URL :=
  match parseScheme (preprocess input) with
  | None => None
  | Some (scheme, rest) =>
      let proto := scheme ++ [ch ":"] in
      if strictEq scheme (js "file") then None
      else if isSpecial scheme then
        let (host, port) :=
          splitPort (afterLastAt (takeAuthority true (dropSlashes rest))) in
        if truthy host && forallb isDomainUnit host
           && negb (endsInNumber host) && negb (hasAceLabel true host)
           && portOk port
        then Some (mkURL proto (toLowerCase host))
        else None
      else
        match rest with
        | a :: b :: r =>
            if (a =? ch "/") && (b =? ch "/") then
              let authority := takeAuthority false r in
              let (host, port) := splitPort (afterLastAt authority) in
              (* an empty host behind credentials or before a port is a
                 failure of the host parser *)
              if forallb isDomainUnit host && portOk port
                 && (truthy host
                     || negb (existsb (fun c => (c =? ch ":") || (c =? ch "@"))
                                      authority))
              then Some (mkURL proto host)
              else None
            else Some (mkURL proto [])
        | _ => Some (mkURL proto [])
        end
  end.

End UrlRef.

(* ================================================================== *)
(** ** The second copy of the script *)
(* ================================================================== *)

(** The repository holds a second copy of the main script, with its own
    allow list, no creation guard, and a second-instance listener that
    tests [win] only.  The restore-state functions are the same text. *)
Module Part000.

Definition ALLOWED_HOSTS : list jsstring :=
  [ js "grok.com";
    js "accounts.x.ai";
    js "challenges.cloudflare.com";
    js "api.x.ai";
    js "api.grok.xai.com";
    js "console.x.ai";
    js "docs.x.ai";
    js "x.ai";
    js "cloudflare.com";
    js "cloudflareinsights.com";
    js "auth.grokipedia.com";
    js "grokipedia.com";
    js "auth.grokusercontent.com" ].

Section Main.

Variable URL_new : jsstring -> option URL.

Definition isAllowed (urlString : jsstring) : Completion bool :=
  tryC
    (u <- newURL URL_new urlString ;;
     if negb (strictEq (protocol u) (js "https:")) then Normal false
     else
       let host := toLowerCase (hostname u) in
       Normal (existsb (hostMatches host) ALLOWED_HOSTS))%comp
    (Normal false).

Definition safeGetCurrentUrl : M (option jsstring) :=
  tryM
    (w <- getsM win ;;
     match w with
     | None => retM None
     | Some id =>
         d <- win_isDestroyed id ;;
         if d then retM None
         else
           url <- webContents_getURL id ;;
           if negb (truthy url) then retM None
           else
             allowed <- liftC (isAllowed url) ;;
             if negb allowed then retM None else retM (Some url)
     end)
    (retM None).

(** [app.on('second-instance', ...)]: the guard is [if (!win) return;]. *)
Definition onSecondInstance : M unit :=
  w <- getsM win ;;
  match w with
  | None => retM tt
  | Some id =>
      (* the three tests only read the window *)
      f <- win_isFocused id ;;
      v <- win_isVisible id ;;
      m <- win_isMinimized id ;;
      if f && v && negb m then
        url <- safeGetCurrentUrl ;;
        match url with
        | Some u => whenM (truthy u) (writeRestoreUrl u)
        | None => retM tt
        end ;;;
        app_quit
      else
        m <- win_isMinimized id ;;
        whenM m (win_restore id) ;;;
        v <- win_isVisible id ;;
        whenM (negb v) (win_show id) ;;;
        win_show id ;;;
        win_focus id ;;;
        supported <- getsM notificationSupported ;;
        whenM supported
          (modifyM (fun w => set_pendingNotifications
                               (S (pendingNotifications w)) w) ;;;
           effectM (NotificationShow (js "ChatGPT") NOTIFICATION_BODY))
  end.

End Main.

End Part000.

(* ================================================================== *)
(** ** Vocabulary of the specification *)
(* ================================================================== *)

(** Two host names compared without regard to case. *)
Definition sameHost (a b : jsstring) : Prop := toLowerCase a = toLowerCase b.

(** The suffix rule of the allow list: the host is the entry, or ends
    with a dot followed by the entry. *)
Definition matchesEntry (host a : jsstring) : Prop :=
  sameHost host a \/ exists p, sameHost host (p ++ js "." ++ a).

Definition httpScheme (u : URL) : Prop :=
  protocol u = js "http:" \/ protocol u = js "https:".

(** No live window: [win] is null, or the window it names is destroyed. *)
Definition windowGone (w : World) : Prop :=
  win w = None
  \/ exists id b, win w = Some id /\ windows w !! id = Some b
                  /\ destroyed b = true.

(** [win] names the window [b], which is not destroyed. *)
Definition liveAt (w : World) (id : nat) (b : BrowserWindow) : Prop :=
  win w = Some id /\ windows w !! id = Some b /\ destroyed b = false.

(** The window is in front of the user. *)
Definition inFront (b : BrowserWindow) : bool :=
  focused b && visible b && negb (minimized b).

(** What a call that only touches a window and the trace leaves alone. *)
Definition quiet (w w' : World) : Prop :=
  win w' = win w /\ stateFile w' = stateFile w
  /\ exists added, trace w' = trace w ++ added /\ ~ In AppQuit added.

(** What [readRestoreUrl] finds in the state file. *)
Definition storedUrl (w : World) : option jsstring :=
  match stateFile w with
  | Some raw =>
      match JSON_parse raw with
      | Some data =>
          match optMember data (js "restoreUrl") with
          | Some (JString s) => Some s
          | _ => None
          end
      | None => None
      end
  | None => None
  end.

(** The startup URL that [createWindow] derives from what was read. *)
Definition chooseStartUrl (URL_new : jsstring -> option URL)
           (r : option jsstring) : jsstring :=
  match r with
  | Some r =>
      if truthy r then
        match isAllowed URL_new r with
        | Normal true => r
        | _ => DEFAULT_URL
        end
      else DEFAULT_URL
  | None => DEFAULT_URL
  end.

(** The listeners of a window that [createWindow] has set up. *)
Definition restoreListeners (startUrl : jsstring) : list Listener :=
  if negb (strictEq startUrl DEFAULT_URL) then
    [mkListener did_finish_load CbClearRestoreUrl true;
     mkListener did_fail_load CbClearRestoreUrl true]
  else [].

Definition shellListeners : list Listener :=
  [mkListener context_menu CbContextMenu false;
   mkListener will_navigate CbWillNavigate false;
   mkListener will_redirect CbWillRedirect false;
   mkListener closed CbClosed false].

Definition createdWindow (startUrl : jsstring) : BrowserWindow :=
  mkWindow false false true true false []
           (restoreListeners startUrl ++ shellListeners) true false.

(** The world after [createWindow] has created a window. *)
Definition afterCreate (w : World) (startUrl : jsstring) : World :=
  mkWorld (Some (length (windows w))) true
          (windows w ++ [createdWindow startUrl]) true
          (notificationSupported w) (pendingNotifications w) (isDarwin w)
          (stateFile w) (clock w)
          (trace w ++ [SetApplicationMenu;
                       LoadURL (length (windows w)) startUrl]).

(** After the window is created and its first page has finished loading,
    no restore record is left. *)
Definition restoreConsumed (URL_new : jsstring -> option URL) (w : World)
  : Prop :=
  stateFile (run URL_new w [Ready; DidFinishLoad (length (windows w))]) = None.

(** A window whose end the process has not been told: it lives, or its
    [closed] event is still to come. *)
Definition unsettled (b : BrowserWindow) : Prop :=
  destroyed b = false \/ closedEmitted b = false.

(** The [closed] listener of the source is registered for [closed] only. *)
Definition closedOnly (b : BrowserWindow) : Prop :=
  forall l, In l (listeners b) -> l_callback l = CbClosed -> l_event l = closed.

(** The invariant of the window controller: an unsettled window is the
    one [win] names, and creation is then marked as started. *)
Definition shellInv (w : World) : Prop :=
  (forall i b, windows w !! i = Some b -> unsettled b ->
               win w = Some i /\ isWindowCreationStarted w = true)
  /\ (forall i b, windows w !! i = Some b -> closedOnly b).

(** Every window is destroyed and its [closed] event was emitted. *)
Definition settledInv (w : World) : Prop :=
  (forall i b, windows w !! i = Some b ->
               destroyed b = true /\ closedEmitted b = true)
  /\ (forall i b, windows w !! i = Some b -> closedOnly b).

(** A computation keeps an invariant of the world, however it ends. *)
Definition preserves (P : World -> Prop) {A : Type} (c : M A) : Prop :=
  forall w, P w -> P (exec c w).

(** The decision of [isAllowed] on a parsed URL. *)
Definition allowedUrl (url : URL) : bool :=
  strictEq (protocol url) (js "https:")
  && existsb (hostMatches (toLowerCase (hostname url))) ALLOWED_HOSTS.

(** An update of a window that keeps its life-cycle flags, its page and
    the shape of its listeners. *)
Definition flagsKept (f : BrowserWindow -> BrowserWindow) : Prop :=
  forall b, destroyed (f b) = destroyed b
            /\ closedEmitted (f b) = closedEmitted b
            /\ currentURL (f b) = currentURL b
            /\ (closedOnly b -> closedOnly (f b)).

(** What the request filter answers for a URL: canceled or not. *)
Definition blockedUrl (URL_new : jsstring -> option URL) (u : jsstring) : bool :=
  match URL_new u with
  | Some url => isHttpUrl url && negb (allowedUrl url)
  | None => true
  end.

(** The invariant of the pages: the request filter is installed as soon
    as a window exists, and a window shows no page or a page whose
    request the filter lets through. *)
Definition pageInv (URL_new : jsstring -> option URL) (w : World) : Prop :=
  (windows w <> [] -> requestFilter w = true)
  /\ (forall i b, windows w !! i = Some b ->
                  currentURL b = [] \/ blockedUrl URL_new (currentURL b) = false).

(** Invariants that depend on [win], on the creation flag, on the
    installed filter and on the windows only, and that such updates
    keep. *)
Class WindowInvariant (P : World -> Prop) : Prop := {
  inv_frame : forall w w',
    win w' = win w ->
    isWindowCreationStarted w' = isWindowCreationStarted w ->
    requestFilter w' = requestFilter w ->
    windows w' = windows w -> P w -> P w';
  inv_alter : forall w id f,
    flagsKept f -> P w -> P (set_windows (alter f id (windows w)) w)
}.

(** Worlds to run the listeners in: a primary with one window, showing
    [url] with the given focus, visibility and minimized state; and a
    process that starts with a restore record for [url]. *)
Definition sampleWindow (url : jsstring) (f v m : bool) : BrowserWindow :=
  mkWindow false false f v m url shellListeners true false.

Definition sampleWorld (b : BrowserWindow) : World :=
  mkWorld (Some 0%nat) true [b] true true 0 false None 1700000000000 [].

Definition startWorld (file : option jsstring) : World :=
  initialWorld true false file 1700000000000.

Definition recordOf (url : jsstring) : jsstring :=
  JSON_stringify (JObject [(js "restoreUrl", JString url);
                           (js "ts", JNumber (numberToString 1690000000000))]).

(** A request that is canceled leaves exactly one line in the log, with
    its URL. *)
Definition loggedWhenBlocked (URL_new : jsstring -> option URL)
           (u : jsstring) (w : World) : Prop :=
  result (onBeforeRequest URL_new u) w = Normal (mkResponse true) ->
  trace (exec (onBeforeRequest URL_new u) w)
  = trace w ++ [ConsoleLog (js "[BLOCKED]") u].

(** A code unit that is not half of a surrogate pair, and a decimal
    digit. *)
Definition plainUnit (c : N) : Prop :=
  isLeadSurrogate c = false /\ isTrailSurrogate c = false.
Definition digitUnit (c : N) : Prop := isDigit c = true.

(** The text [JSON.stringify] writes for the record. *)
Definition recordText (url lexeme : jsstring) : jsstring :=
  ch "{" :: QUOTE :: quoteBody (js "restoreUrl") ++ QUOTE :: ch ":"
  :: QUOTE :: quoteBody url ++ QUOTE :: ch ","
  :: QUOTE :: quoteBody (js "ts") ++ QUOTE :: ch ":" :: lexeme ++ [ch "}"].


(** *** Relations between the world before and after *)

(** A relation that holds between a world and any later world with the
    same state file and the same trace, and that composes. *)
Class Frame (R : World -> World -> Prop) : Prop := {
  frame_trans : forall a b c, R a b -> R b c -> R a c;
  frame_silent : forall w w',
    stateFile w' = stateFile w -> trace w' = trace w -> R w w'
}.

(** A computation relates the world it starts in to the world it
    leaves, however it ends. *)
Definition keeps (R : World -> World -> Prop) {A : Type} (c : M A) : Prop :=
  forall w, R w (exec c w).

(** The host calls made from [w] to [w'] all satisfy [P]. *)
Definition adds (P : Effect -> Prop) (w w' : World) : Prop :=
  exists added, trace w' = trace w ++ added /\ Forall P added.

(** A call of [shell.openExternal] is made with a URL that parses with
    scheme http or https. *)
Definition httpTarget (URL_new : jsstring -> option URL) (e : Effect) : Prop :=
  match e with
  | OpenExternal u => exists url, URL_new u = Some url /\ httpScheme url
  | _ => True
  end.

Definition notQuit (e : Effect) : Prop := e <> AppQuit.

(** The state file is what it was, or is gone. *)
Definition keptOrDeleted (w w' : World) : Prop :=
  stateFile w' = stateFile w \/ stateFile w' = None.

(** The state file holds the record of a URL that [isAllowed] accepts. *)
Definition allowedRecord (URL_new : jsstring -> option URL)
           (file : option jsstring) : Prop :=
  exists u z, file = Some (recordText u (numberToString z))
              /\ isAllowed URL_new u = Normal true.

(** The state file is what it was, is gone, or holds such a record. *)
Definition fileSafe (URL_new : jsstring -> option URL) (w w' : World) : Prop :=
  keptOrDeleted w w' \/ allowedRecord URL_new (stateFile w').

(** The calls that bring the window [id], found as [b], to the front. *)
Definition raiseCalls (id : nat) (b : BrowserWindow) : list Effect :=
  (if minimized b then [WinRestore id] else [])
  ++ (if visible b then [] else [WinShow id])
  ++ [WinFocus id].

(** The window was destroyed by the host. *)
Definition destroyWindow (b : BrowserWindow) : BrowserWindow :=
  set_destroyed true (set_focused false (set_visible false b)).

(** The two one-shot listeners that clear the restore record. *)
Definition finishHook : Listener :=
  mkListener did_finish_load CbClearRestoreUrl true.
Definition failHook : Listener :=
  mkListener did_fail_load CbClearRestoreUrl true.

(** The entries of a menu that replace the misspelled word. *)
Definition isSuggestion (it : MenuItem) : bool :=
  match click it with
  | Some (ReplaceMisspelling _) => true
  | _ => false
  end.

(** No window is named by [win] and no creation is under way. *)
Definition idle (w : World) : Prop :=
  win w = None /\ isWindowCreationStarted w = false.

(** The host has created [n] windows so far. *)
Definition windowCount (n : nat) (w : World) : Prop :=
  length (windows w) = n.

(** From [w] to [w'] the module variables, the state file, the
    notifications and every window but [id] are what they were. *)
Definition onlyWindow (id : nat) (w w' : World) : Prop :=
  win w' = win w
  /\ isWindowCreationStarted w' = isWindowCreationStarted w
  /\ stateFile w' = stateFile w
  /\ notificationSupported w' = notificationSupported w
  /\ pendingNotifications w' = pendingNotifications w
  /\ length (windows w') = length (windows w)
  /\ forall i, i <> id -> windows w' !! i = windows w !! i.

(** The window has the handler of [window.open] and the four listeners
    that [createWindow] registers for its whole life. *)
Definition wired (b : BrowserWindow) : Prop :=
  hasOpenHandler b = true
  /\ forall l, In l shellListeners -> In l (listeners b).

(** Every window of the host is wired. *)
Definition wiredInv (w : World) : Prop :=
  forall i b, windows w !! i = Some b -> wired b.

(** Every window of the host satisfies [W]. *)
Definition everyWindow (W : BrowserWindow -> Prop) (w : World) : Prop :=
  forall i b, windows w !! i = Some b -> W b.

(** The listeners of a window for one event, as [emit] finds them. *)
Definition listenersOf (ev : EventName) (b : BrowserWindow) : list Listener :=
  List.filter (fun l => bool_decide (l_event l = ev)) (listeners b).

(** The interception points of a window are those that [createWindow]
    sets up: the handler of [window.open], one listener of will-navigate
    and one of will-redirect. *)
Definition guarded (b : BrowserWindow) : Prop :=
  hasOpenHandler b = true
  /\ listenersOf will_navigate b
     = [mkListener will_navigate CbWillNavigate false]
  /\ listenersOf will_redirect b
     = [mkListener will_redirect CbWillRedirect false].

(** Decides comparisons of code units by arithmetic. *)
Ltac ntest :=
  repeat match goal with
  | |- context [N.eqb ?a ?b] =>
      first [ replace (N.eqb a b) with false by (symmetry; apply N.eqb_neq; lia)
            | replace (N.eqb a b) with true by (symmetry; apply N.eqb_eq; lia) ]
  | |- context [N.ltb ?a ?b] =>
      first [ replace (N.ltb a b) with false by (symmetry; apply N.ltb_ge; lia)
            | replace (N.ltb a b) with true by (symmetry; apply N.ltb_lt; lia) ]
  | |- context [N.leb ?a ?b] =>
      first [ replace (N.leb a b) with false by (symmetry; apply N.leb_gt; lia)
            | replace (N.leb a b) with true by (symmetry; apply N.leb_le; lia) ]
  end.

(* ================================================================== *)
(** * Properties *)
(* ================================================================== *)

(** ** Strings *)

Lemma strictEq_spec (a b : jsstring) : strictEq a b = true <-> a = b.
Proof.
  revert b; induction a as [|x a IH]; intros [|y b]; simpl; try (split; congruence).
  rewrite andb_true_iff, N.eqb_eq, IH. split.
  - intros [-> ->]; reflexivity.
  - intros H; injection H; auto.
Qed.

Lemma endsWith_spec (s x : jsstring) :
  endsWith s x = true <-> exists p, s = p ++ x.
Proof.
  unfold endsWith. rewrite andb_true_iff, Nat.leb_le, strictEq_spec. split.
  - intros [_ H]. exists (firstn (length s - length x) s).
    pose proof (firstn_skipn (length s - length x) s) as E.
    rewrite H in E. symmetry; exact E.
  - intros [p ->]. rewrite length_app. split; [lia|].
    replace (length p + length x - length x)%nat with (length p) by lia.
    rewrite skipn_app, Nat.sub_diag, skipn_all. reflexivity.
Qed.

Lemma toLowerCase_app (a b : jsstring) :
  toLowerCase (a ++ b) = toLowerCase a ++ toLowerCase b.
Proof. apply List.map_app. Qed.

(** ** Domain policy *)

(** Every entry of the allow list is in lower case, and so is the dot. *)
Lemma ALLOWED_HOSTS_lower (a : jsstring) :
  In a ALLOWED_HOSTS -> toLowerCase a = a.
Proof.
  intros H. unfold ALLOWED_HOSTS in H. simpl in H.
  repeat (destruct H as [<-|H]; [vm_compute; reflexivity|]). contradiction.
Qed.

Lemma hostMatches_spec (host a : jsstring) :
  toLowerCase a = a ->
  hostMatches (toLowerCase host) a = true <-> matchesEntry host a.
Proof.
  intros La. unfold hostMatches, matchesEntry, sameHost.
  rewrite orb_true_iff, strictEq_spec, endsWith_spec, La. split.
  - intros [H|[p H]]; [left; exact H|right].
    exists (firstn (length p) host).
    rewrite !toLowerCase_app, La.
    replace (toLowerCase (js ".")) with (js ".") by reflexivity.
    rewrite H. f_equal.
    unfold toLowerCase. rewrite <- List.firstn_map.
    fold (toLowerCase host). rewrite H.
    rewrite firstn_app, Nat.sub_diag, firstn_all. simpl.
    symmetry; apply app_nil_r.
  - intros [H|[p H]]; [left; exact H|right].
    exists (toLowerCase p). rewrite H, !toLowerCase_app, La. reflexivity.
Qed.

Section PolicyFacts.

Variable URL_new : jsstring -> option URL.

Lemma isAllowed_parsed (u : jsstring) (url : URL) :
  URL_new u = Some url ->
  isAllowed URL_new u =
    Normal (strictEq (protocol url) (js "https:")
            && existsb (hostMatches (toLowerCase (hostname url))) ALLOWED_HOSTS).
Proof.
  intros H. unfold isAllowed, newURL. rewrite H. simpl.
  destruct (strictEq (protocol url) (js "https:")); reflexivity.
Qed.

Lemma isAllowed_unparsed (u : jsstring) :
  URL_new u = None -> isAllowed URL_new u = Normal false.
Proof. intros H. unfold isAllowed, newURL. rewrite H. reflexivity. Qed.

Lemma isAllowed_total (u : jsstring) : exists b, isAllowed URL_new u = Normal b.
Proof.
  destruct (URL_new u) as [url|] eqn:E.
  - eexists; apply isAllowed_parsed; eassumption.
  - eexists; apply isAllowed_unparsed; assumption.
Qed.

Lemma shouldOpenExternally_parsed (u : jsstring) (url : URL) :
  URL_new u = Some url ->
  shouldOpenExternally URL_new u =
    Normal (isHttpUrl url
            && negb (strictEq (protocol url) (js "https:")
                     && existsb (hostMatches (toLowerCase (hostname url)))
                                ALLOWED_HOSTS)).
Proof.
  intros H. unfold shouldOpenExternally.
  rewrite (isAllowed_parsed _ _ H). unfold newURL. rewrite H. simpl.
  destruct (isHttpUrl url); reflexivity.
Qed.

Lemma shouldOpenExternally_unparsed (u : jsstring) :
  URL_new u = None -> shouldOpenExternally URL_new u = Normal false.
Proof. intros H. unfold shouldOpenExternally, newURL. rewrite H. reflexivity. Qed.

Lemma isHttpUrl_spec (url : URL) : isHttpUrl url = true <-> httpScheme url.
Proof.
  unfold isHttpUrl, httpScheme. rewrite orb_true_iff, !strictEq_spec. tauto.
Qed.

End PolicyFacts.

(** C2. For every string [u], [isAllowed(u)] is true exactly when [u]
    parses as a URL whose scheme is https and whose host name, compared
    without regard to case, is an entry of the allow list or ends with a
    dot followed by an entry.  [isAllowed] never throws, and answers
    false when [u] does not parse. *)
Theorem isAllowed_iff (URL_new : jsstring -> option URL) (u : jsstring) :
  (isAllowed URL_new u = Normal true <->
   exists url, URL_new u = Some url
               /\ protocol url = js "https:"
               /\ exists a, In a ALLOWED_HOSTS /\ matchesEntry (hostname url) a)
  /\ (exists b, isAllowed URL_new u = Normal b)
  /\ (URL_new u = None -> isAllowed URL_new u = Normal false).
Proof.
  split; [|split; [apply isAllowed_total|apply isAllowed_unparsed]].
  destruct (URL_new u) as [url|] eqn:E.
  - rewrite (isAllowed_parsed _ _ _ E). split.
    + intros H.
      assert (H' : strictEq (protocol url) (js "https:")
                   && existsb (hostMatches (toLowerCase (hostname url)))
                              ALLOWED_HOSTS = true) by congruence.
      apply andb_true_iff in H' as [Hp Hh].
      exists url. split; [reflexivity|]. split; [apply strictEq_spec, Hp|].
      apply existsb_exists in Hh as (a & Ha & Hm). exists a. split; [exact Ha|].
      apply hostMatches_spec; [apply ALLOWED_HOSTS_lower, Ha|exact Hm].
    + intros (url' & Hu & Hp & a & Ha & Hm). injection Hu as <-.
      f_equal. apply andb_true_iff. split; [apply strictEq_spec, Hp|].
      apply existsb_exists. exists a. split; [exact Ha|].
      apply hostMatches_spec; [apply ALLOWED_HOSTS_lower, Ha|exact Hm].
  - rewrite (isAllowed_unparsed _ _ E). split; [discriminate|].
    intros (url & Hu & _). discriminate.
Qed.

(** C7. If [shouldOpenExternally(u)] is true then [u] parses with scheme
    http or https and [isAllowed(u)] is false; [shouldOpenExternally(u)]
    is false for every URL whose scheme is neither, whatever its host,
    and for every string that does not parse. *)
Theorem shouldOpenExternally_sound (URL_new : jsstring -> option URL)
        (u : jsstring) :
  (shouldOpenExternally URL_new u = Normal true ->
   exists url, URL_new u = Some url /\ httpScheme url
               /\ isAllowed URL_new u = Normal false)
  /\ (forall url, URL_new u = Some url -> ~ httpScheme url ->
                  shouldOpenExternally URL_new u = Normal false)
  /\ (URL_new u = None -> shouldOpenExternally URL_new u = Normal false).
Proof.
  split; [|split].
  - destruct (URL_new u) as [url|] eqn:E.
    + rewrite (shouldOpenExternally_parsed _ _ _ E), (isAllowed_parsed _ _ _ E).
      intros H.
      assert (H' : isHttpUrl url
                   && negb (strictEq (protocol url) (js "https:")
                            && existsb (hostMatches (toLowerCase (hostname url)))
                                       ALLOWED_HOSTS) = true) by congruence.
      apply andb_true_iff in H' as [Hh Hn].
      exists url. split; [reflexivity|]. split; [apply isHttpUrl_spec, Hh|].
      apply negb_true_iff in Hn. rewrite Hn. reflexivity.
    + rewrite (shouldOpenExternally_unparsed _ _ E). discriminate.
  - intros url E Hn. rewrite (shouldOpenExternally_parsed _ _ _ E).
    destruct (isHttpUrl url) eqn:Hh; [|reflexivity].
    exfalso. apply Hn, isHttpUrl_spec, Hh.
  - apply shouldOpenExternally_unparsed.
Qed.

(** ** Navigation interceptor *)

Section InterceptorFacts.

Variable URL_new : jsstring -> option URL.


Lemma onBeforeRequest_run (u : jsstring) (w : World) :
  onBeforeRequest URL_new u w =
  match URL_new u with
  | None => (Normal (mkResponse true), w)
  | Some url =>
      if isHttpUrl url then
        if allowedUrl url then (Normal (mkResponse false), w)
        else (Normal (mkResponse true),
              log_effect (ConsoleLog (js "[BLOCKED]") u) w)
      else (Normal (mkResponse false), w)
  end.
Proof.
  unfold onBeforeRequest, tryM, bindM, liftC.
  destruct (URL_new u) as [url|] eqn:E.
  - rewrite (isAllowed_parsed _ _ _ E). unfold newURL. rewrite E.
    fold (allowedUrl url). unfold isHttpUrl.
    destruct (strictEq (protocol url) (js "http:")),
             (strictEq (protocol url) (js "https:")),
             (allowedUrl url); reflexivity.
  - unfold newURL. rewrite E. reflexivity.
Qed.

Lemma windowOpenHandler_run (u : jsstring) (w : World) :
  windowOpenHandler URL_new u w =
  (Normal deny,
   match URL_new u with
   | Some url => if isHttpUrl url then log_effect (OpenExternal u) w else w
   | None => w
   end).
Proof.
  unfold windowOpenHandler, tryM, bindM, liftC, newURL.
  destruct (URL_new u) as [url|]; [|reflexivity].
  unfold isHttpUrl. destruct (_ || _); reflexivity.
Qed.

Lemma onWillNavigate_run (e : NavEvent) (u : jsstring) (w : World) :
  onWillNavigate URL_new e u w =
  match shouldOpenExternally URL_new u with
  | Normal true => (Normal (mkNavEvent true), log_effect (OpenExternal u) w)
  | Normal false => (Normal e, w)
  | Throw x => (Throw x, w)
  end.
Proof.
  unfold onWillNavigate, bindM, liftC.
  destruct (shouldOpenExternally URL_new u) as [[|]|]; reflexivity.
Qed.

Lemma onWillRedirect_run (e : NavEvent) (u : jsstring) (w : World) :
  onWillRedirect URL_new e u w =
  match shouldOpenExternally URL_new u with
  | Normal true => (Normal (mkNavEvent true), log_effect (OpenExternal u) w)
  | Normal false => (Normal e, w)
  | Throw x => (Throw x, w)
  end.
Proof.
  unfold onWillRedirect, bindM, liftC.
  destruct (shouldOpenExternally URL_new u) as [[|]|]; reflexivity.
Qed.

Lemma allowedUrl_of_isAllowed (u : jsstring) (url : URL) (b : bool) :
  URL_new u = Some url -> isAllowed URL_new u = Normal b -> allowedUrl url = b.
Proof.
  intros E H. rewrite (isAllowed_parsed _ _ _ E) in H. unfold allowedUrl.
  congruence.
Qed.

Lemma isHttpUrl_false (url : URL) : ~ httpScheme url -> isHttpUrl url = false.
Proof.
  intros H. destruct (isHttpUrl url) eqn:E; [|reflexivity].
  exfalso; apply H, isHttpUrl_spec, E.
Qed.

End InterceptorFacts.

(** C3. For every request URL [u] that the filter sees (a URL: [u]
    parses).  If the scheme of [u] is neither http nor https the request
    proceeds and nothing changes; if it is http or https the request
    proceeds, nothing changed, when [isAllowed] holds, and is canceled
    otherwise.  The request is blocked exactly in this last case; every
    blocked request leaves one log line, which carries its URL, and a
    request that proceeds leaves none. *)
Theorem onBeforeRequest_policy (URL_new : jsstring -> option URL)
        (u : jsstring) (url : URL) (w : World) :
  URL_new u = Some url ->
  (~ httpScheme url ->
     onBeforeRequest URL_new u w = (Normal (mkResponse false), w))
  /\ (httpScheme url -> isAllowed URL_new u = Normal true ->
        onBeforeRequest URL_new u w = (Normal (mkResponse false), w))
  /\ (httpScheme url -> isAllowed URL_new u = Normal false ->
        onBeforeRequest URL_new u w
        = (Normal (mkResponse true),
           log_effect (ConsoleLog (js "[BLOCKED]") u) w))
  /\ (result (onBeforeRequest URL_new u) w = Normal (mkResponse true)
      <-> httpScheme url /\ isAllowed URL_new u = Normal false)
  /\ loggedWhenBlocked URL_new u w
  /\ (result (onBeforeRequest URL_new u) w = Normal (mkResponse false) ->
      exec (onBeforeRequest URL_new u) w = w).
Proof.
  intros E. unfold loggedWhenBlocked, result, exec.
  rewrite onBeforeRequest_run, E, (isAllowed_parsed _ _ _ E).
  fold (allowedUrl url).
  destruct (isHttpUrl url) eqn:Hh.
  - assert (Hs : httpScheme url) by (apply isHttpUrl_spec, Hh).
    destruct (allowedUrl url); cbn [fst snd];
      (split; [intros Hn; contradiction|]);
      (split; [intros _ H; first [reflexivity | discriminate H]|]);
      (split; [intros _ H; first [reflexivity | discriminate H]|]);
      (split; [split; [intros H; first [discriminate H | split; auto]
                      |intros [_ H]; first [reflexivity | discriminate H]]|]);
      (split; [intros H; first [reflexivity | discriminate H]
              |intros H; first [reflexivity | discriminate H]]).
  - assert (Hn : ~ httpScheme url).
    { intros H. apply isHttpUrl_spec in H. congruence. }
    cbn [fst snd].
    split; [reflexivity|]. split; [intros H; contradiction|].
    split; [intros H; contradiction|].
    split; [split; [discriminate|intros [H _]; contradiction]|].
    split; [discriminate|reflexivity].
Qed.

(** C8. The window-open handler answers [deny] for every target and
    creates no window; a target that parses with scheme http or https is
    passed to [shell.openExternal] exactly once, and any other target
    leaves the world as it was. *)
Theorem windowOpen_always_denied (URL_new : jsstring -> option URL)
        (u : jsstring) (w : World) :
  result (windowOpenHandler URL_new u) w = Normal deny
  /\ windows (exec (windowOpenHandler URL_new u) w) = windows w
  /\ (forall url, URL_new u = Some url -> httpScheme url ->
        exec (windowOpenHandler URL_new u) w = log_effect (OpenExternal u) w)
  /\ (forall url, URL_new u = Some url -> ~ httpScheme url ->
        exec (windowOpenHandler URL_new u) w = w)
  /\ (URL_new u = None -> exec (windowOpenHandler URL_new u) w = w).
Proof.
  unfold result, exec. rewrite windowOpenHandler_run. simpl.
  repeat split.
  - destruct (URL_new u) as [url|]; [destruct (isHttpUrl url)|]; reflexivity.
  - intros url E Hh. apply isHttpUrl_spec in Hh. rewrite E, Hh. reflexivity.
  - intros url E Hn. rewrite E, (isHttpUrl_false _ Hn). reflexivity.
  - intros E. rewrite E. reflexivity.
Qed.

(** ** JSON: what is written is read back *)

Lemma hexValue_hexDigit d : d < 16 -> hexValue (hexDigit d) = Some d.
Proof.
  intros H. unfold hexDigit, hexValue, isDigit.
  destruct (N.ltb_spec d 10).
  - replace (48 <=? 48 + d) with true by (symmetry; apply N.leb_le; lia).
    replace (48 + d <=? 57) with true by (symmetry; apply N.leb_le; lia).
    simpl. f_equal. lia.
  - replace (87 + d <=? 57) with false by (symmetry; apply N.leb_gt; lia).
    rewrite andb_false_r.
    replace (97 <=? 87 + d) with true by (symmetry; apply N.leb_le; lia).
    replace (87 + d <=? 102) with true by (symmetry; apply N.leb_le; lia).
    simpl. f_equal. lia.
Qed.

Lemma hex4_unicodeEscape c :
  c < 65536 ->
  hex4 (hexDigit (c / 4096 mod 16)) (hexDigit (c / 256 mod 16))
       (hexDigit (c / 16 mod 16)) (hexDigit (c mod 16)) = Some c.
Proof.
  intros H. unfold hex4.
  rewrite !hexValue_hexDigit by (apply N.mod_lt; lia).
  f_equal.
  pose proof (N.div_mod c 16 ltac:(lia)) as E0.
  pose proof (N.div_mod (c / 16) 16 ltac:(lia)) as E1.
  pose proof (N.div_mod (c / 256) 16 ltac:(lia)) as E2.
  replace (c / 16 / 16) with (c / 256) in E1 by (rewrite N.Div0.div_div; reflexivity).
  replace (c / 256 / 16) with (c / 4096) in E2 by (rewrite N.Div0.div_div; reflexivity).
  assert (c / 4096 < 16) by (apply N.Div0.div_lt_upper_bound; lia).
  rewrite (N.mod_small (c / 4096) 16) by assumption.
  lia.
Qed.


Lemma parseChars_plain c rest :
  32 <= c -> c <> QUOTE -> c <> BACKSLASH ->
  parseChars (c :: rest) = consFst c (parseChars rest).
Proof.
  unfold QUOTE, BACKSLASH. intros. cbn [parseChars]. unfold QUOTE, BACKSLASH.
  ntest. reflexivity.
Qed.

Lemma parseChars_unicodeEscape c rest :
  c < 65536 ->
  parseChars (unicodeEscape c ++ rest) = consFst c (parseChars rest).
Proof.
  intros H. unfold unicodeEscape. cbn [app parseChars].
  change (BACKSLASH =? QUOTE) with false.
  change (BACKSLASH =? BACKSLASH) with true.
  change (ch "u" =? ch "u") with true. cbv iota.
  rewrite hex4_unicodeEscape by assumption. reflexivity.
Qed.

Lemma parseChars_escapeUnit c rest :
  c < 55296 \/ 57343 < c ->
  parseChars (escapeUnit c ++ rest) = consFst c (parseChars rest).
Proof.
  intros Hc. unfold escapeUnit.
  destruct (N.eqb_spec c 8) as [->|]; [reflexivity|].
  destruct (N.eqb_spec c 9) as [->|]; [reflexivity|].
  destruct (N.eqb_spec c 10) as [->|]; [reflexivity|].
  destruct (N.eqb_spec c 12) as [->|]; [reflexivity|].
  destruct (N.eqb_spec c 13) as [->|]; [reflexivity|].
  destruct (N.eqb_spec c QUOTE) as [->|]; [reflexivity|].
  destruct (N.eqb_spec c BACKSLASH) as [->|]; [reflexivity|].
  destruct (N.ltb_spec c 32).
  - apply parseChars_unicodeEscape. lia.
  - apply parseChars_plain; assumption.
Qed.

(** Induction that follows the look-ahead of [quoteBody] and
    [toWellFormed]. *)
Lemma lookahead_ind (P : jsstring -> Prop) :
  P [] ->
  (forall c, P [] -> P [c]) ->
  (forall c d t, P t -> P (d :: t) -> P (c :: d :: t)) ->
  forall s, P s.
Proof.
  intros H0 H1 H2 s.
  assert (H : P s /\ forall c, P (c :: s)); [|apply H].
  induction s as [|d t [IH1 IH2]].
  - split; [exact H0|intros c; apply H1, H0].
  - split; [apply IH2|]. intros c. apply H2; [exact IH1|apply IH2].
Qed.

Lemma surrogate_cases c :
  (isLeadSurrogate c = true /\ 55296 <= c <= 56319)
  \/ (isLeadSurrogate c = false /\ isTrailSurrogate c = true /\ 56320 <= c <= 57343)
  \/ (isLeadSurrogate c = false /\ isTrailSurrogate c = false
      /\ (c < 55296 \/ 57343 < c)).
Proof.
  unfold isLeadSurrogate, isTrailSurrogate.
  destruct (N.leb_spec 55296 c), (N.leb_spec c 56319),
           (N.leb_spec 56320 c), (N.leb_spec c 57343); simpl;
    first [left; split; [reflexivity|lia]
          | right; left; repeat split; lia
          | right; right; repeat split; lia].
Qed.

(** What [JSON.stringify] writes between the quotes, [JSON.parse] reads
    back as the string. *)
Lemma parseChars_quoteBody (s rest : jsstring) :
  parseChars (quoteBody s ++ QUOTE :: rest) = Some (s, rest).
Proof.
  induction s as [|c _|c d t IHt IHd] using lookahead_ind.
  - reflexivity.
  - cbn [quoteBody].
    destruct (surrogate_cases c) as [[-> B]|[(-> & -> & B)|(-> & -> & B)]].
    + rewrite parseChars_unicodeEscape by lia. reflexivity.
    + rewrite app_nil_r, parseChars_unicodeEscape by lia. reflexivity.
    + rewrite app_nil_r, parseChars_escapeUnit by lia. reflexivity.
  - cbn [quoteBody] in *.
    destruct (surrogate_cases c) as [[-> B]|[(-> & -> & B)|(-> & -> & B)]].
    + destruct (isTrailSurrogate d) eqn:Ed.
      * assert (56320 <= d <= 57343).
        { unfold isTrailSurrogate in Ed. apply andb_true_iff in Ed as [E1 E2].
          apply N.leb_le in E1, E2. lia. }
        cbn [app]. unfold QUOTE, BACKSLASH in *.
        rewrite !parseChars_plain by (unfold QUOTE, BACKSLASH; lia).
        rewrite IHt. reflexivity.
      * rewrite <- app_assoc, parseChars_unicodeEscape by lia.
        rewrite IHd. reflexivity.
    + rewrite <- app_assoc, parseChars_unicodeEscape by lia.
      rewrite IHd. reflexivity.
    + rewrite <- app_assoc, parseChars_escapeUnit by lia.
      rewrite IHd. reflexivity.
Qed.

(** ** UTF-8 on disk *)


Lemma toWellFormed_plain (x rest : jsstring) :
  Forall plainUnit x -> toWellFormed (x ++ rest) = x ++ toWellFormed rest.
Proof.
  induction 1 as [|c x [Hl Ht] _ IH]; [reflexivity|].
  cbn [app toWellFormed]. rewrite Hl, Ht, IH. reflexivity.
Qed.

Lemma plainUnit_lt (c : N) : c < 55296 -> plainUnit c.
Proof.
  intros H. unfold plainUnit, isLeadSurrogate, isTrailSurrogate.
  ntest. split; reflexivity.
Qed.

Lemma hexDigit_plain (d : N) : d < 16 -> plainUnit (hexDigit d).
Proof.
  intros H. apply plainUnit_lt. unfold hexDigit. destruct (d <? 10); lia.
Qed.

Lemma unicodeEscape_plain (c : N) : Forall plainUnit (unicodeEscape c).
Proof.
  unfold unicodeEscape.
  repeat constructor;
    try (apply hexDigit_plain, N.mod_lt; lia);
    apply plainUnit_lt; vm_compute; reflexivity.
Qed.

Lemma escapeUnit_plain (c : N) : plainUnit c -> Forall plainUnit (escapeUnit c).
Proof.
  intros H. unfold escapeUnit.
  assert (P : forall x y, x < 55296 -> y < 55296 -> Forall plainUnit [x; y]).
  { intros x y Hx Hy. constructor; [apply plainUnit_lt, Hx|].
    constructor; [apply plainUnit_lt, Hy|constructor]. }
  destruct (c =? 8); [apply P; reflexivity|].
  destruct (c =? 9); [apply P; reflexivity|].
  destruct (c =? 10); [apply P; reflexivity|].
  destruct (c =? 12); [apply P; reflexivity|].
  destruct (c =? 13); [apply P; reflexivity|].
  destruct (c =? QUOTE); [apply P; reflexivity|].
  destruct (c =? BACKSLASH); [apply P; reflexivity|].
  destruct (c <? 32); [apply unicodeEscape_plain|].
  constructor; [exact H|constructor].
Qed.

(** The text between the quotes survives the encoding unchanged. *)
Lemma toWellFormed_quoteBody (s rest : jsstring) :
  toWellFormed (quoteBody s ++ rest) = quoteBody s ++ toWellFormed rest.
Proof.
  induction s as [|c _|c d t IHt IHd] using lookahead_ind.
  - reflexivity.
  - cbn [quoteBody].
    destruct (isLeadSurrogate c) eqn:El;
      [apply toWellFormed_plain, unicodeEscape_plain|].
    destruct (isTrailSurrogate c) eqn:Et; rewrite app_nil_r;
      apply toWellFormed_plain;
      [apply unicodeEscape_plain|apply escapeUnit_plain; split; assumption].
  - cbn [quoteBody] in *.
    destruct (isLeadSurrogate c) eqn:El.
    + destruct (isTrailSurrogate d) eqn:Ed.
      * cbn [app toWellFormed]. rewrite El, Ed, IHt. reflexivity.
      * rewrite <- app_assoc, toWellFormed_plain by apply unicodeEscape_plain.
        rewrite IHd, app_assoc. reflexivity.
    + destruct (isTrailSurrogate c) eqn:Et.
      * rewrite <- app_assoc, toWellFormed_plain by apply unicodeEscape_plain.
        rewrite IHd, app_assoc. reflexivity.
      * rewrite <- app_assoc, toWellFormed_plain
          by (apply escapeUnit_plain; split; assumption).
        rewrite IHd, app_assoc. reflexivity.
Qed.

(** ** Decimal digits *)


Lemma digitsAcc_S (f : nat) (n : N) (acc : jsstring) :
  digitsAcc (S f) n acc =
  if n <? 10 then (48 + n mod 10) :: acc
  else digitsAcc f (n / 10) ((48 + n mod 10) :: acc).
Proof. reflexivity. Qed.

Lemma digitsAcc_shape (f : nat) : forall (n : N) (acc : jsstring),
  n < 2 ^ N.of_nat (S f) ->
  exists d ds, digitsAcc (S f) n acc = d :: ds ++ acc
               /\ digitUnit d /\ Forall digitUnit ds
               /\ (d = 48 -> n = 0 /\ ds = []).
Proof.
  assert (Hsmall : forall g n acc, n < 10 ->
            exists d ds, digitsAcc (S g) n acc = d :: ds ++ acc
               /\ digitUnit d /\ Forall digitUnit ds
               /\ (d = 48 -> n = 0 /\ ds = [])).
  { intros g n acc Hs. rewrite digitsAcc_S.
    replace (n <? 10) with true by (symmetry; apply N.ltb_lt; lia).
    exists (48 + n mod 10), []. rewrite N.mod_small by assumption.
    repeat split; try constructor; try lia.
    unfold digitUnit, isDigit. ntest. reflexivity. }
  induction f as [|f IH]; intros n acc Hn.
  - apply Hsmall. change (2 ^ N.of_nat 1) with 2 in Hn. lia.
  - destruct (N.ltb_spec n 10) as [Hs|Hs]; [apply Hsmall, Hs|].
    rewrite digitsAcc_S.
    replace (n <? 10) with false by (symmetry; apply N.ltb_ge; lia).
    assert (Hq : n / 10 < 2 ^ N.of_nat (S f)).
    { apply N.Div0.div_lt_upper_bound.
      rewrite (Nat2N.inj_succ (S f)), N.pow_succ_r' in Hn. lia. }
    destruct (IH (n / 10) ((48 + n mod 10) :: acc) Hq)
      as (d & ds & E & Hd & Hds & H0).
    exists d, (ds ++ [48 + n mod 10]).
    rewrite E. rewrite <- app_assoc.
    assert (1 <= n / 10) by (apply N.div_le_lower_bound; lia).
    repeat split; try assumption.
    + apply Forall_app. split; [assumption|]. repeat constructor.
      pose proof (N.mod_lt n 10 ltac:(lia)) as Hm.
      revert Hm. generalize (n mod 10) as m. intros m Hm.
      unfold digitUnit, isDigit. ntest. reflexivity.
    + exfalso. destruct (H0 H1) as [Hz _]. lia.
    + exfalso. destruct (H0 H1) as [Hz _]. lia.
Qed.

Lemma digits_shape (n : N) :
  exists d ds, digits n = d :: ds
               /\ digitUnit d /\ Forall digitUnit ds
               /\ (d = 48 -> ds = []).
Proof.
  unfold digits.
  destruct (digitsAcc_shape (N.to_nat (N.log2 n)) n [])
    as (d & ds & E & Hd & Hds & H0).
  - rewrite Nat2N.inj_succ, N2Nat.id. destruct n as [|p]; [reflexivity|].
    apply N.log2_spec. lia.
  - exists d, ds. rewrite E, app_nil_r. repeat split; try assumption.
    intros H; apply H0, H.
Qed.

(** ** Numbers *)

Lemma takeDigits_app (ds r : jsstring) :
  Forall digitUnit ds ->
  match r with c :: _ => isDigit c = false | [] => True end ->
  takeDigits (ds ++ r) = (ds, r).
Proof.
  intros H Hr. induction H as [|c ds Hc _ IH].
  - destruct r as [|c r]; [reflexivity|]. simpl. rewrite Hr. reflexivity.
  - simpl. unfold digitUnit in Hc. rewrite Hc, IH. reflexivity.
Qed.

Lemma digitUnit_range (c : N) : digitUnit c -> 48 <= c <= 57.
Proof.
  unfold digitUnit, isDigit. intros H. apply andb_true_iff in H as [H1 H2].
  apply N.leb_le in H1, H2. lia.
Qed.

(** A number written by [numberToString] and followed by a closing
    brace is read back as its lexeme. *)
Lemma parseNumber_digits (d : N) (ds r : jsstring) (neg : bool) :
  digitUnit d -> Forall digitUnit ds -> (d = 48 -> ds = []) ->
  let lexeme := (if neg then [ch "-"] else []) ++ d :: ds in
  parseNumber (lexeme ++ ch "}" :: r) = Some (lexeme, ch "}" :: r).
Proof.
  intros Hd Hds H0 lexeme. subst lexeme.
  pose proof (digitUnit_range _ Hd) as Rd.
  assert (Hint : parseInt ((d :: ds) ++ ch "}" :: r)
                 = Some (d :: ds, ch "}" :: r)).
  { cbn [app parseInt]. destruct (N.eqb_spec d 48) as [E|E].
    - rewrite (H0 E). reflexivity.
    - unfold digitUnit in Hd. rewrite Hd.
      rewrite takeDigits_app; [reflexivity|assumption|reflexivity]. }
  assert (Hfrac : forall x, parseFraction (ch "}" :: x) = Some ([], ch "}" :: x))
    by reflexivity.
  assert (Hexp : forall x, parseExponent (ch "}" :: x) = Some ([], ch "}" :: x))
    by reflexivity.
  unfold parseNumber. destruct neg.
  - cbn [app]. change (ch "-" =? ch "-") with true. cbv iota.
    change (d :: ds ++ ch "}" :: r) with ((d :: ds) ++ ch "}" :: r).
    rewrite Hint, (Hfrac r), (Hexp r), !app_nil_r. reflexivity.
  - cbn [app]. replace (d =? ch "-") with false
      by (symmetry; apply N.eqb_neq; change (ch "-") with 45; lia).
    change (d :: ds ++ ch "}" :: r) with ((d :: ds) ++ ch "}" :: r).
    rewrite Hint, (Hfrac r), (Hexp r), !app_nil_r. reflexivity.
Qed.

Lemma numberToString_shape (z : Z) :
  exists (neg : bool) (d : N) (ds : jsstring),
    numberToString z = (if neg then [ch "-"] else []) ++ d :: ds
    /\ digitUnit d /\ Forall digitUnit ds /\ (d = 48 -> ds = []).
Proof.
  destruct z as [|p|p]; cbn [numberToString].
  - destruct (digits_shape 0) as (d & ds & E & H). exists false, d, ds.
    rewrite E. split; [reflexivity|exact H].
  - destruct (digits_shape (Npos p)) as (d & ds & E & H). exists false, d, ds.
    rewrite E. split; [reflexivity|exact H].
  - destruct (digits_shape (Npos p)) as (d & ds & E & H). exists true, d, ds.
    rewrite E. split; [reflexivity|exact H].
Qed.

(** ** The record of the state file *)

Lemma parseValue_string (f : nat) (t : jsstring) :
  parseValue (S f) (QUOTE :: t) =
  match parseChars t with
  | Some (str, r) => Some (JString str, r)
  | None => None
  end.
Proof. reflexivity. Qed.

Lemma parseValue_object (f : nat) (t : jsstring) :
  parseValue (S f) (ch "{" :: QUOTE :: t) =
  match parseMembers f (QUOTE :: t) [] with
  | Some (ms, r) => Some (JObject ms, r)
  | None => None
  end.
Proof. reflexivity. Qed.

Lemma parseMembers_key (f : nat) (t : jsstring) (acc : list (jsstring * json)) :
  parseMembers (S f) (QUOTE :: t) acc =
  match parseChars t with
  | None => None
  | Some (k, r) =>
      match skipSpace r with
      | c2 :: t2 =>
          if c2 =? ch ":" then
            match parseValue f (skipSpace t2) with
            | None => None
            | Some (v, r2) =>
                match skipSpace r2 with
                | c3 :: t3 =>
                    if c3 =? ch "," then
                      parseMembers f (skipSpace t3) (setProp k v acc)
                    else if c3 =? ch "}" then Some (setProp k v acc, t3)
                    else None
                | [] => None
                end
            end
          else None
      | [] => None
      end
  end.
Proof. reflexivity. Qed.

Lemma parseValue_number (f : nat) (neg : bool) (d : N) (t : jsstring) :
  digitUnit d ->
  let s := (if neg then [ch "-"] else []) ++ d :: t in
  skipSpace s = s
  /\ parseValue (S f) s =
     match parseNumber s with
     | Some (lexeme, r) => Some (JNumber lexeme, r)
     | None => None
     end.
Proof.
  intros Hd s. subst s. destruct neg; [split; reflexivity|].
  apply digitUnit_range in Hd. cbn [app].
  split.
  - cbn [skipSpace]. unfold isJsonSpace. ntest. reflexivity.
  - cbn [parseValue]. unfold QUOTE, ch; simpl N_of_ascii. ntest. reflexivity.
Qed.


Lemma stringify_record (url lexeme : jsstring) :
  JSON_stringify (JObject [(js "restoreUrl", JString url);
                           (js "ts", JNumber lexeme)])
  = recordText url lexeme.
Proof.
  unfold recordText. cbn [JSON_stringify List.map joinComma fst snd].
  unfold quoteJSONString. cbn [app].
  repeat (rewrite <- ?app_assoc; cbn [app]). reflexivity.
Qed.

Lemma skipSpace_cons (c : N) (t : jsstring) :
  isJsonSpace c = false -> skipSpace (c :: t) = c :: t.
Proof. intros H. cbn [skipSpace]. rewrite H. reflexivity. Qed.

Lemma parseValue_record (f : nat) (url : jsstring) (z : Z) :
  parseValue (4 + f) (recordText url (numberToString z))
  = Some (JObject [(js "restoreUrl", JString url);
                   (js "ts", JNumber (numberToString z))], []).
Proof.
  destruct (numberToString_shape z) as (neg & d & ds & E & Hd & Hds & H0).
  unfold recordText. rewrite E.
  change (4 + f)%nat with (S (S (S (S f)))).
  rewrite parseValue_object, parseMembers_key, parseChars_quoteBody.
  rewrite (skipSpace_cons (ch ":")) by reflexivity.
  change (ch ":" =? ch ":") with true. cbv iota.
  rewrite (skipSpace_cons QUOTE) by reflexivity.
  rewrite parseValue_string, parseChars_quoteBody.
  rewrite (skipSpace_cons (ch ",")) by reflexivity.
  change (ch "," =? ch ",") with true. cbv iota.
  rewrite (skipSpace_cons QUOTE) by reflexivity.
  rewrite parseMembers_key, parseChars_quoteBody.
  rewrite (skipSpace_cons (ch ":")) by reflexivity.
  change (ch ":" =? ch ":") with true. cbv iota.
  rewrite <- app_assoc.
  destruct (parseValue_number f neg d (ds ++ [ch "}"]) Hd) as [Hs Hp].
  cbn zeta in Hs, Hp. cbn [app].
  rewrite Hs, Hp.
  pose proof (parseNumber_digits d ds [] neg Hd Hds H0) as Hn.
  cbn zeta in Hn. rewrite <- !app_assoc in Hn. cbn [app] in Hn.
  rewrite <- ?app_assoc. cbn [app].
  rewrite Hn.
  rewrite (skipSpace_cons (ch "}")) by reflexivity.
  change (ch "}" =? ch ",") with false. change (ch "}" =? ch "}") with true.
  reflexivity.
Qed.

(** [JSON.parse(JSON.stringify({ restoreUrl: url, ts: now }))] is the
    record again. *)
Lemma JSON_parse_stringify_record (url : jsstring) (z : Z) :
  JSON_parse (JSON_stringify (JObject [(js "restoreUrl", JString url);
                                       (js "ts", JNumber (numberToString z))]))
  = Some (JObject [(js "restoreUrl", JString url);
                   (js "ts", JNumber (numberToString z))]).
Proof.
  rewrite stringify_record. unfold JSON_parse.
  assert (Hs : skipSpace (recordText url (numberToString z))
               = recordText url (numberToString z)) by reflexivity.
  rewrite Hs.
  assert (Hl : exists f, (2 * length (recordText url (numberToString z)) + 2
                          = 4 + f)%nat).
  { exists (2 * length (recordText url (numberToString z)) - 2)%nat.
    unfold recordText. cbn [length]. lia. }
  destruct Hl as [f ->]. rewrite parseValue_record. reflexivity.
Qed.

Lemma toWellFormed_record (url : jsstring) (z : Z) :
  toWellFormed (recordText url (numberToString z))
  = recordText url (numberToString z).
Proof.
  destruct (numberToString_shape z) as (neg & d & ds & E & Hd & Hds & H0).
  assert (Hnum : Forall plainUnit (numberToString z ++ [ch "}"])).
  { rewrite E. apply Forall_app. split; [apply Forall_app; split|].
    - destruct neg; repeat constructor.
    - constructor.
      + apply plainUnit_lt. apply digitUnit_range in Hd. lia.
      + eapply List.Forall_impl; [|exact Hds].
        intros c Hc. apply plainUnit_lt. apply digitUnit_range in Hc. lia.
    - repeat constructor. }
  unfold recordText.
  change (ch "{" :: QUOTE :: quoteBody (js "restoreUrl") ++ ?x)
    with ([ch "{"; QUOTE] ++ quoteBody (js "restoreUrl") ++ x).
  rewrite (toWellFormed_plain [ch "{"; QUOTE]) by (repeat constructor).
  rewrite toWellFormed_quoteBody.
  change (QUOTE :: ch ":" :: QUOTE :: quoteBody url ++ ?x)
    with ([QUOTE; ch ":"; QUOTE] ++ quoteBody url ++ x).
  rewrite (toWellFormed_plain [QUOTE; ch ":"; QUOTE]) by (repeat constructor).
  rewrite toWellFormed_quoteBody.
  change (QUOTE :: ch "," :: QUOTE :: quoteBody (js "ts") ++ ?x)
    with ([QUOTE; ch ","; QUOTE] ++ quoteBody (js "ts") ++ x).
  rewrite (toWellFormed_plain [QUOTE; ch ","; QUOTE]) by (repeat constructor).
  rewrite toWellFormed_quoteBody.
  change (QUOTE :: ch ":" :: numberToString z ++ [ch "}"])
    with ([QUOTE; ch ":"] ++ (numberToString z ++ [ch "}"])).
  rewrite (toWellFormed_plain [QUOTE; ch ":"]) by (repeat constructor).
  pose proof (toWellFormed_plain _ [] Hnum) as X.
  rewrite app_nil_r in X. cbn [toWellFormed] in X. rewrite app_nil_r in X.
  rewrite X. reflexivity.
Qed.

(** ** Restore-state store *)

Lemma writeRestoreUrl_run (url : jsstring) (w : World) :
  writeRestoreUrl url w =
  (Normal tt,
   set_stateFile (Some (recordText url (numberToString (clock w)))) w).
Proof.
  unfold writeRestoreUrl, tryM, bindM, Date_now, getsM, fs_writeFileSync, modifyM.
  rewrite stringify_record, toWellFormed_record. reflexivity.
Qed.

Lemma readRestoreUrl_run (w : World) :
  readRestoreUrl w =
  (Normal match stateFile w with
          | Some raw =>
              match JSON_parse raw with
              | Some data =>
                  match optMember data (js "restoreUrl") with
                  | Some (JString s) => Some s
                  | _ => None
                  end
              | None => None
              end
          | None => None
          end, w).
Proof.
  unfold readRestoreUrl, tryM, bindM, fs_readFileSync, JSON_parseM.
  destruct (stateFile w) as [raw|]; [|reflexivity].
  destruct (JSON_parse raw) as [data|]; [|reflexivity].
  unfold retM.
  destruct (optMember data (js "restoreUrl")) as [[]|]; reflexivity.
Qed.

Lemma clearRestoreUrl_run (w : World) :
  clearRestoreUrl w = (Normal tt, set_stateFile None w).
Proof.
  unfold clearRestoreUrl, tryM, fs_unlinkSync.
  destruct w as [a b c d e f g [raw|] h i]; reflexivity.
Qed.

Lemma JSON_parse_recordText (url : jsstring) (z : Z) :
  JSON_parse (recordText url (numberToString z))
  = Some (JObject [(js "restoreUrl", JString url);
                   (js "ts", JNumber (numberToString z))]).
Proof. rewrite <- stringify_record. apply JSON_parse_stringify_record. Qed.

(** Reading a file that holds the record of [url] gives [url]. *)
Lemma readRestoreUrl_record (url : jsstring) (z : Z) (w : World) :
  stateFile w = Some (recordText url (numberToString z)) ->
  readRestoreUrl w = (Normal (Some url), w).
Proof.
  intros H. rewrite readRestoreUrl_run, H, JSON_parse_recordText. reflexivity.
Qed.

(** C6. The store round-trips: after [write(url)], [read()] gives
    [url]; after [clear()], [read()] gives nothing; over a missing file,
    a file that is not JSON, or JSON whose [restoreUrl] is not a string,
    [read()] gives nothing.  None of the three operations throws, and
    reading changes nothing. *)
Theorem restore_state_round_trip (url : jsstring) (w : World) :
  result readRestoreUrl (exec (writeRestoreUrl url) w) = Normal (Some url)
  /\ result readRestoreUrl (exec clearRestoreUrl (exec (writeRestoreUrl url) w))
     = Normal None
  /\ result readRestoreUrl (exec clearRestoreUrl w) = Normal None
  /\ (stateFile w = None -> result readRestoreUrl w = Normal None)
  /\ (forall raw, stateFile w = Some raw -> JSON_parse raw = None ->
        result readRestoreUrl w = Normal None)
  /\ (forall raw data,
        stateFile w = Some raw -> JSON_parse raw = Some data ->
        (forall s, optMember data (js "restoreUrl") <> Some (JString s)) ->
        result readRestoreUrl w = Normal None)
  /\ (exists r, readRestoreUrl w = (Normal r, w))
  /\ result (writeRestoreUrl url) w = Normal tt
  /\ result clearRestoreUrl w = Normal tt.
Proof.
  unfold result, exec.
  rewrite writeRestoreUrl_run, !clearRestoreUrl_run. cbn [fst snd].
  split; [|split; [|split; [|split; [|split; [|split; [|split; [|split]]]]]]].
  - erewrite readRestoreUrl_record; reflexivity.
  - rewrite readRestoreUrl_run. reflexivity.
  - rewrite readRestoreUrl_run. reflexivity.
  - intros H. rewrite readRestoreUrl_run, H. reflexivity.
  - intros raw H Hp. rewrite readRestoreUrl_run, H, Hp. reflexivity.
  - intros raw data H Hp Hn. rewrite readRestoreUrl_run, H, Hp.
    destruct (optMember data (js "restoreUrl")) as [[| | |s| |]|];
      try reflexivity.
    exfalso; apply (Hn s); reflexivity.
  - rewrite readRestoreUrl_run. eexists; reflexivity.
  - reflexivity.
  - reflexivity.
Qed.

(** ** Windows *)

Lemma getWindow_run (w : World) (id : nat) (b : BrowserWindow) :
  windows w !! id = Some b -> getWindow id w = (Normal b, w).
Proof. intros H. unfold getWindow. rewrite H. reflexivity. Qed.

Lemma liveWindow_run (w : World) (id : nat) (b : BrowserWindow) :
  windows w !! id = Some b -> destroyed b = false ->
  liveWindow id w = (Normal b, w).
Proof.
  intros H Hd. unfold liveWindow, bindM. rewrite (getWindow_run _ _ _ H), Hd.
  reflexivity.
Qed.

Lemma liveWindow_destroyed (w : World) (id : nat) (b : BrowserWindow) :
  windows w !! id = Some b -> destroyed b = true ->
  liveWindow id w = (Throw TypeError, w).
Proof.
  intros H Hd. unfold liveWindow, bindM. rewrite (getWindow_run _ _ _ H), Hd.
  reflexivity.
Qed.

(** A method that updates the window and leaves an effect. *)
Lemma win_method_run (w : World) (id : nat) (b : BrowserWindow)
      (f : BrowserWindow -> BrowserWindow) (e : Effect) :
  windows w !! id = Some b -> destroyed b = false ->
  bindM (liveWindow id) (fun _ => bindM (updWindow id f) (fun _ => effectM e)) w
  = (Normal tt, log_effect e (set_windows (alter f id (windows w)) w)).
Proof.
  intros H Hd. unfold bindM. rewrite (liveWindow_run _ _ _ H Hd). reflexivity.
Qed.

Lemma lookup_updated (w : World) (id : nat) (b : BrowserWindow)
      (f : BrowserWindow -> BrowserWindow) :
  windows w !! id = Some b ->
  windows (set_windows (alter f id (windows w)) w) !! id = Some (f b).
Proof.
  intros H. cbn [windows set_windows]. rewrite list_lookup_alter_eq, H. reflexivity.
Qed.

Lemma bindM_run {A B : Type} (c : M A) (k : A -> M B) (w w' : World) (a : A) :
  c w = (Normal a, w') -> bindM c k w = k a w'.
Proof. intros H. unfold bindM. rewrite H. reflexivity. Qed.


Lemma quiet_refl (w : World) : quiet w w.
Proof.
  repeat split. exists []. split; [symmetry; apply app_nil_r|intros []].
Qed.

Lemma quiet_trans (w1 w2 w3 : World) : quiet w1 w2 -> quiet w2 w3 -> quiet w1 w3.
Proof.
  intros (A1 & B1 & x & C1 & D1) (A2 & B2 & y & C2 & D2).
  split; [congruence|]. split; [congruence|].
  exists (x ++ y). split; [rewrite C2, C1, app_assoc; reflexivity|].
  rewrite in_app_iff. tauto.
Qed.

Lemma quiet_method (w : World) (id : nat)
      (f : BrowserWindow -> BrowserWindow) (e : Effect) :
  e <> AppQuit ->
  quiet w (log_effect e (set_windows (alter f id (windows w)) w)).
Proof.
  intros He. repeat split. exists [e]. split; [reflexivity|].
  intros [E|[]]. apply He; exact E.
Qed.

Lemma win_method_spec (w : World) (id : nat) (b : BrowserWindow)
      (f : BrowserWindow -> BrowserWindow) (e : Effect) :
  windows w !! id = Some b -> destroyed b = false -> e <> AppQuit ->
  exists w',
    bindM (liveWindow id) (fun _ => bindM (updWindow id f) (fun _ => effectM e)) w
    = (Normal tt, w')
    /\ windows w' !! id = Some (f b) /\ quiet w w'.
Proof.
  intros H Hd He. eexists. split; [exact (win_method_run _ _ _ _ _ H Hd)|].
  split; [exact (lookup_updated _ _ _ f H)|apply quiet_method, He].
Qed.

Lemma win_restore_spec (w : World) (id : nat) (b : BrowserWindow) :
  windows w !! id = Some b -> destroyed b = false ->
  exists w', win_restore id w = (Normal tt, w')
             /\ windows w' !! id = Some (set_minimized false b) /\ quiet w w'.
Proof.
  intros H Hd.
  exact (win_method_spec w id b (set_minimized false) (WinRestore id) H Hd
                         ltac:(discriminate)).
Qed.

Lemma win_show_spec (w : World) (id : nat) (b : BrowserWindow) :
  windows w !! id = Some b -> destroyed b = false ->
  exists w', win_show id w = (Normal tt, w')
             /\ windows w' !! id = Some (set_focused true (set_visible true b))
             /\ quiet w w'.
Proof.
  intros H Hd.
  exact (win_method_spec w id b
           (fun b => set_focused true (set_visible true b)) (WinShow id) H Hd
           ltac:(discriminate)).
Qed.

Lemma win_focus_spec (w : World) (id : nat) (b : BrowserWindow) :
  windows w !! id = Some b -> destroyed b = false ->
  exists w', win_focus id w = (Normal tt, w')
             /\ windows w' !! id = Some (set_focused true b) /\ quiet w w'.
Proof.
  intros H Hd.
  exact (win_method_spec w id b (set_focused true) (WinFocus id) H Hd
                         ltac:(discriminate)).
Qed.

Lemma getsM_win (w : World) (v : option nat) :
  win w = v -> getsM win w = (Normal v, w).
Proof. intros <-. reflexivity. Qed.

Lemma win_isDestroyed_run (w : World) (id : nat) (b : BrowserWindow) :
  windows w !! id = Some b -> win_isDestroyed id w = (Normal (destroyed b), w).
Proof.
  intros H. unfold win_isDestroyed.
  rewrite (bindM_run _ _ _ _ _ (getWindow_run _ _ _ H)). reflexivity.
Qed.

Lemma liveWindow_get {A : Type} (w : World) (id : nat) (b : BrowserWindow)
      (g : BrowserWindow -> A) :
  windows w !! id = Some b -> destroyed b = false ->
  bindM (liveWindow id) (fun x => retM (g x)) w = (Normal (g b), w).
Proof.
  intros H Hd. rewrite (bindM_run _ _ _ _ _ (liveWindow_run _ _ _ H Hd)).
  reflexivity.
Qed.

Section SecondInstance.

Variable URL_new : jsstring -> option URL.

Lemma onSecondInstance_gone (w : World) :
  windowGone w -> onSecondInstance URL_new w = (Normal tt, w).
Proof.
  intros [H|(id & b & H & Hb & Hd)]; unfold onSecondInstance, bindM, getsM;
    rewrite H; [reflexivity|].
  unfold win_isDestroyed, bindM. rewrite (getWindow_run _ _ _ Hb). cbn.
  rewrite Hd. reflexivity.
Qed.



Lemma safeGetCurrentUrl_run (w : World) (id : nat) (b : BrowserWindow) :
  liveAt w id b ->
  safeGetCurrentUrl URL_new w =
  (Normal (if truthy (currentURL b)
           then match isAllowed URL_new (currentURL b) with
                | Normal true => Some (currentURL b)
                | _ => None
                end
           else None), w).
Proof.
  intros (H & Hb & Hd).
  unfold safeGetCurrentUrl, tryM, bindM, getsM. rewrite H.
  unfold win_isDestroyed, webContents_getURL, bindM.
  rewrite (getWindow_run _ _ _ Hb). cbn [retM]. rewrite Hd.
  rewrite (liveWindow_run _ _ _ Hb Hd). unfold liftC, retM. cbv beta iota.
  destruct (truthy (currentURL b)); [|reflexivity]. cbn [negb].
  destruct (isAllowed_total URL_new (currentURL b)) as [a ->].
  destruct a; reflexivity.
Qed.

(** The listener when the window is in front of the user. *)
Lemma onSecondInstance_front (w : World) (id : nat) (b : BrowserWindow) :
  liveAt w id b -> inFront b = true ->
  onSecondInstance URL_new w =
  (Normal tt,
   log_effect AppQuit
     (if truthy (currentURL b)
      then match isAllowed URL_new (currentURL b) with
           | Normal true =>
               set_stateFile
                 (Some (recordText (currentURL b) (numberToString (clock w)))) w
           | _ => w
           end
      else w)).
Proof.
  intros L Hf. pose proof L as (H & Hb & Hd).
  unfold onSecondInstance;
    rewrite (bindM_run _ _ _ _ _ (getsM_win _ _ H));
    rewrite (bindM_run _ _ _ _ _ (win_isDestroyed_run _ _ _ Hb)), Hd;
    unfold win_isFocused, win_isVisible, win_isMinimized;
    rewrite !(bindM_run _ _ _ _ _ (liveWindow_get _ _ _ _ Hb Hd)).
  unfold inFront in Hf. rewrite Hf.
  rewrite (bindM_run _ _ _ _ _ (safeGetCurrentUrl_run _ _ _ L)).
  destruct (truthy (currentURL b)) eqn:Ht; [|reflexivity].
  destruct (isAllowed_total URL_new (currentURL b)) as [[|] ->]; [|reflexivity].
  unfold whenM. rewrite Ht.
  rewrite (bindM_run _ _ _ _ _ (writeRestoreUrl_run _ _)). reflexivity.
Qed.

(** The listener when the window is minimized, hidden or unfocused. *)
Lemma onSecondInstance_behind (w : World) (id : nat) (b : BrowserWindow) :
  liveAt w id b -> inFront b = false ->
  exists w' b',
    onSecondInstance URL_new w = (Normal tt, w')
    /\ windows w' !! id = Some b'
    /\ destroyed b' = false /\ minimized b' = false
    /\ visible b' = true /\ focused b' = true
    /\ quiet w w'.
Proof.
  intros L Hf. pose proof L as (H & Hb & Hd).
  unfold onSecondInstance;
    rewrite (bindM_run _ _ _ _ _ (getsM_win _ _ H));
    rewrite (bindM_run _ _ _ _ _ (win_isDestroyed_run _ _ _ Hb)), Hd;
    unfold win_isFocused, win_isVisible, win_isMinimized;
    rewrite !(bindM_run _ _ _ _ _ (liveWindow_get _ _ _ _ Hb Hd)).
  unfold inFront in Hf. rewrite Hf.
  rewrite (bindM_run _ _ _ _ _ (liveWindow_get _ _ _ _ Hb Hd)).
  (* restore *)
  assert (S1 : exists w1 b1,
             whenM (minimized b) (win_restore id) w = (Normal tt, w1)
             /\ windows w1 !! id = Some b1 /\ destroyed b1 = false
             /\ minimized b1 = false /\ quiet w w1).
  { destruct (minimized b) eqn:Em.
    - destruct (win_restore_spec _ _ _ Hb Hd) as (w1 & R & B1 & Q).
      exists w1, (set_minimized false b). repeat split; try assumption; apply Q.
    - exists w, b. repeat split; try assumption; apply quiet_refl. }
  destruct S1 as (w1 & b1 & R1 & B1 & D1 & M1 & Q1).
  rewrite (bindM_run _ _ _ _ _ R1).
  rewrite (bindM_run _ _ _ _ _ (liveWindow_get _ _ _ _ B1 D1)).
  (* show *)
  assert (S2 : exists w2 b2,
             whenM (negb (visible b1)) (win_show id) w1 = (Normal tt, w2)
             /\ windows w2 !! id = Some b2 /\ destroyed b2 = false
             /\ minimized b2 = false /\ visible b2 = true /\ quiet w1 w2).
  { destruct (visible b1) eqn:Ev.
    - exists w1, b1. repeat split; try assumption; apply quiet_refl.
    - destruct (win_show_spec _ _ _ B1 D1) as (w2 & R & B2 & Q).
      exists w2, (set_focused true (set_visible true b1)).
      repeat split; try assumption; apply Q. }
  destruct S2 as (w2 & b2 & R2 & B2 & D2 & M2 & V2 & Q2).
  rewrite (bindM_run _ _ _ _ _ R2).
  (* focus *)
  destruct (win_focus_spec _ _ _ B2 D2) as (w3 & R3 & B3 & Q3).
  rewrite (bindM_run _ _ _ _ _ R3).
  rewrite (bindM_run _ _ w3 w3 (notificationSupported w3)) by reflexivity.
  pose proof (quiet_trans _ _ _ (quiet_trans _ _ _ Q1 Q2) Q3) as Q.
  destruct (notificationSupported w3).
  - eexists _, (set_focused true b2). split; [reflexivity|].
    split; [exact B3|]. repeat split; try assumption.
    + apply Q.
    + apply Q.
    + destruct Q as (_ & _ & added & E & N).
      exists (added ++ [NotificationShow (js "Grok") NOTIFICATION_BODY]).
      split; [cbn; rewrite E, app_assoc; reflexivity|].
      rewrite in_app_iff. intros [X|[X|[]]]; [exact (N X)|discriminate].
  - exists w3, (set_focused true b2). split; [reflexivity|].
    split; [exact B3|]. repeat split; try assumption; apply Q.
Qed.

End SecondInstance.

(** C5. On a second-instance signal with a live window.  When the window
    is focused, visible and not minimized, the URL of the page is written
    to the restore store exactly when [isAllowed] holds for it, the store
    then reads back that very URL, nothing is written otherwise, and the
    listener ends with [app.quit()].  In every other state the window
    ends up restored, shown and focused, the store is untouched and
    [app.quit()] is not called. *)
Theorem second_instance_hand_off (URL_new : jsstring -> option URL)
        (w : World) (id : nat) (b : BrowserWindow) :
  URL_new [] = None -> liveAt w id b ->
  let w' := exec (onSecondInstance URL_new) w in
  (inFront b = true ->
     (isAllowed URL_new (currentURL b) = Normal true ->
        result readRestoreUrl w' = Normal (Some (currentURL b)))
     /\ (isAllowed URL_new (currentURL b) = Normal false ->
           stateFile w' = stateFile w)
     /\ trace w' = trace w ++ [AppQuit])
  /\ (inFront b = false ->
       (exists b', windows w' !! id = Some b'
                   /\ destroyed b' = false /\ minimized b' = false
                   /\ visible b' = true /\ focused b' = true)
       /\ stateFile w' = stateFile w
       /\ exists added, trace w' = trace w ++ added /\ ~ In AppQuit added).
Proof.
  intros He L w'. subst w'. unfold exec. split; intros Hf.
  - rewrite (onSecondInstance_front _ _ _ _ L Hf). cbn [snd].
    split; [|split].
    + intros Ha. rewrite Ha.
      destruct (currentURL b) as [|c t] eqn:Eu.
      * rewrite (isAllowed_unparsed _ _ He) in Ha. discriminate.
      * cbn [truthy]. unfold result.
        erewrite readRestoreUrl_record; reflexivity.
    + intros Ha. rewrite Ha. destruct (truthy (currentURL b)); reflexivity.
    + destruct (truthy (currentURL b)); [|reflexivity].
      destruct (isAllowed URL_new (currentURL b)) as [[|]|]; reflexivity.
  - destruct (onSecondInstance_behind URL_new _ _ _ L Hf)
      as (w' & b' & R & B & D & Mi & V & F & Q).
    rewrite R. cbn [snd]. split; [exists b'; auto|].
    split; apply Q.
Qed.


(** ** Window creation *)

Lemma lookup_last (ws : list BrowserWindow) (b : BrowserWindow) :
  (ws ++ [b]) !! length ws = Some b.
Proof. apply list_lookup_middle. reflexivity. Qed.

Lemma alter_last (f : BrowserWindow -> BrowserWindow)
      (ws : list BrowserWindow) (b : BrowserWindow) :
  alter f (length ws) (ws ++ [b]) = ws ++ [f b].
Proof.
  induction ws as [|x ws IH]; [reflexivity|].
  cbn [length app]. change (alter f (S (length ws)) (x :: ws ++ [b]))
    with (x :: alter f (length ws) (ws ++ [b])).
  rewrite IH. reflexivity.
Qed.

(** A call on the window that was appended last. *)
Lemma upd_last_run (w : World) (ws : list BrowserWindow) (b : BrowserWindow)
      (f : BrowserWindow -> BrowserWindow) :
  windows w = ws ++ [b] -> destroyed b = false ->
  bindM (liveWindow (length ws)) (fun _ => updWindow (length ws) f) w
  = (Normal tt, set_windows (ws ++ [f b]) w).
Proof.
  intros H Hd.
  assert (L : windows w !! length ws = Some b) by (rewrite H; apply lookup_last).
  rewrite (bindM_run _ _ _ _ _ (liveWindow_run _ _ _ L Hd)).
  unfold updWindow, modifyM. rewrite H, alter_last. reflexivity.
Qed.

Lemma winIsLive_gone (w : World) : windowGone w -> winIsLive w = (Normal false, w).
Proof.
  intros [H|(id & b & H & Hb & Hd)]; unfold winIsLive;
    rewrite (bindM_run _ _ _ _ _ (getsM_win _ _ H)); [reflexivity|].
  rewrite (bindM_run _ _ _ _ _ (win_isDestroyed_run _ _ _ Hb)), Hd. reflexivity.
Qed.

Lemma winIsLive_live (w : World) (id : nat) (b : BrowserWindow) :
  liveAt w id b -> winIsLive w = (Normal true, w).
Proof.
  intros (H & Hb & Hd). unfold winIsLive.
  rewrite (bindM_run _ _ _ _ _ (getsM_win _ _ H)).
  rewrite (bindM_run _ _ _ _ _ (win_isDestroyed_run _ _ _ Hb)), Hd. reflexivity.
Qed.

Lemma readRestoreUrl_stored (w : World) :
  readRestoreUrl w = (Normal (storedUrl w), w).
Proof. apply readRestoreUrl_run. Qed.

Lemma addListener_last (w : World) (ws : list BrowserWindow)
      (b : BrowserWindow) (l : Listener) :
  windows w = ws ++ [b] -> destroyed b = false ->
  addListener (length ws) l w
  = (Normal tt, set_windows (ws ++ [set_listeners (listeners b ++ [l]) b]) w).
Proof. intros H Hd. exact (upd_last_run w ws b _ H Hd). Qed.

Lemma setMenuBarVisibility_last (w : World) (ws : list BrowserWindow)
      (b : BrowserWindow) (v : bool) :
  windows w = ws ++ [b] -> destroyed b = false ->
  win_setMenuBarVisibility (length ws) v w
  = (Normal tt, set_windows (ws ++ [set_menuBarVisible v b]) w).
Proof. intros H Hd. exact (upd_last_run w ws b _ H Hd). Qed.

Lemma setWindowOpenHandler_last (w : World) (ws : list BrowserWindow)
      (b : BrowserWindow) :
  windows w = ws ++ [b] -> destroyed b = false ->
  webContents_setWindowOpenHandler (length ws) w
  = (Normal tt, set_windows (ws ++ [set_hasOpenHandler true b]) w).
Proof. intros H Hd. exact (upd_last_run w ws b _ H Hd). Qed.

Lemma loadURL_last (w : World) (ws : list BrowserWindow)
      (b : BrowserWindow) (url : jsstring) :
  windows w = ws ++ [b] -> destroyed b = false ->
  win_loadURL (length ws) url w
  = (Normal tt, log_effect (LoadURL (length ws) url) w).
Proof.
  intros H Hd. unfold win_loadURL.
  assert (L : windows w !! length ws = Some b) by (rewrite H; apply lookup_last).
  rewrite (bindM_run _ _ _ _ _ (liveWindow_run _ _ _ L Hd)). reflexivity.
Qed.

(** Unfolds the field updates of worlds and windows. *)
Ltac world_norm :=
  cbv [set_win set_started set_windows set_requestFilter
       set_pendingNotifications set_stateFile log_effect
       set_destroyed set_closedEmitted set_focused set_visible set_minimized
       set_currentURL set_listeners set_hasOpenHandler set_menuBarVisible
       win isWindowCreationStarted windows requestFilter
       notificationSupported pendingNotifications isDarwin stateFile clock
       trace destroyed closedEmitted focused visible minimized currentURL
       listeners hasOpenHandler menuBarVisible freshWindow].

(** One statement of a sequence, run with the given lemma. *)
Ltac step_with lem :=
  match goal with
  | |- bindM ?c ?k ?W = _ =>
      let H := fresh "Hstep" in
      eassert (H : c W = (Normal tt, _))
        by (eapply lem; first [eassumption | reflexivity]);
      rewrite (bindM_run _ _ _ _ _ H); clear H
  end.

Section Creation.

Variable URL_new : jsstring -> option URL.

Lemma createWindow_fresh (w : World) :
  isWindowCreationStarted w = false -> windowGone w ->
  createWindow URL_new w
  = (Normal tt, afterCreate w (chooseStartUrl URL_new (storedUrl w))).
Proof.
  intros Hs Hg. unfold createWindow.
  rewrite (bindM_run _ _ w w false) by (unfold getsM; rewrite Hs; reflexivity).
  rewrite (bindM_run _ _ _ _ _ (winIsLive_gone _ Hg)). cbn [orb].
  rewrite (bindM_run _ _ w (set_started true w) tt) by reflexivity.
  rewrite (bindM_run _ _ _ _ _ (eq_refl : new_BrowserWindow _ = _)).
  rewrite (bindM_run _ _ _ _ _ (eq_refl : modifyM _ _ = (Normal tt, _))).
  rewrite (bindM_run _ _ _ _ _ (readRestoreUrl_stored _)).
  match goal with
  | |- context [storedUrl ?x] => change (storedUrl x) with (storedUrl w)
  end.
  set (id := length (windows w)).
  set (start := chooseStartUrl URL_new (storedUrl w)).
  match goal with
  | |- bindM ?c _ ?w0 = _ =>
      assert (Hst : c w0 = (Normal start, w0))
  end.
  { subst start. destruct (storedUrl w) as [r|]; [|reflexivity].
    cbn [chooseStartUrl]. destruct (truthy r); [|reflexivity].
    unfold bindM, liftC.
    destruct (isAllowed_total URL_new r) as [[|] ->]; reflexivity. }
  rewrite (bindM_run _ _ _ _ _ Hst). clear Hst.
  assert (Hw : forall (c : bool) (W : World) (ws : list BrowserWindow)
                      (b : BrowserWindow),
             windows W = ws ++ [b] -> destroyed b = false ->
             whenM c (once_ (length ws) did_finish_load CbClearRestoreUrl ;;;
                      once_ (length ws) did_fail_load CbClearRestoreUrl)%M W
             = (Normal tt,
                set_windows
                  (ws ++ [set_listeners
                            (listeners b ++
                             if c then [mkListener did_finish_load CbClearRestoreUrl true;
                                        mkListener did_fail_load CbClearRestoreUrl true]
                             else []) b]) W)).
  { intros c W ws b HW Hd. destruct c; cbn [whenM].
    - unfold once_. step_with addListener_last.
      erewrite addListener_last; [|reflexivity|exact Hd].
      destruct W, b. world_norm. rewrite <- app_assoc. reflexivity.
    - rewrite app_nil_r. destruct W, b. simpl in HW. subst. reflexivity. }
  step_with Hw.
  rewrite (bindM_run _ _ _ _ tt (eq_refl : modifyM _ _ = (Normal tt, _))).
  rewrite (bindM_run _ _ _ _ tt (eq_refl : effectM _ _ = (Normal tt, _))).
  step_with setMenuBarVisibility_last.
  step_with addListener_last.
  step_with setWindowOpenHandler_last.
  step_with addListener_last.
  step_with addListener_last.
  step_with loadURL_last.
  unfold on_. erewrite addListener_last; [|reflexivity|reflexivity].
  f_equal. unfold afterCreate, createdWindow, restoreListeners.
  fold start. destruct w.
  destruct (negb (strictEq start DEFAULT_URL));
    world_norm; cbn [app]; rewrite <- app_assoc; reflexivity.
Qed.

Lemma createWindow_live (w : World) (id : nat) (b : BrowserWindow) :
  liveAt w id b ->
  createWindow URL_new w
  = (Normal tt,
     log_effect (WinFocus id)
                (set_windows (alter (set_focused true) id (windows w)) w)).
Proof.
  intros L. pose proof L as (H & Hb & Hd). unfold createWindow.
  rewrite (bindM_run _ _ w w (isWindowCreationStarted w)) by reflexivity.
  rewrite (bindM_run _ _ _ _ _ (winIsLive_live _ _ _ L)).
  rewrite orb_true_r.
  rewrite (bindM_run _ _ _ _ _ (winIsLive_live _ _ _ L)).
  rewrite (bindM_run _ _ _ _ _ (getsM_win _ _ H)).
  exact (win_method_run _ _ _ _ _ Hb Hd).
Qed.

Lemma createWindow_started_gone (w : World) :
  isWindowCreationStarted w = true -> windowGone w ->
  createWindow URL_new w = (Normal tt, w).
Proof.
  intros Hs Hg. unfold createWindow.
  rewrite (bindM_run _ _ w w true) by (unfold getsM; rewrite Hs; reflexivity).
  rewrite (bindM_run _ _ _ _ _ (winIsLive_gone _ Hg)). cbn [orb].
  rewrite (bindM_run _ _ _ _ _ (winIsLive_gone _ Hg)). reflexivity.
Qed.

Lemma emit_run (w : World) (id : nat) (b : BrowserWindow) (ev : EventName)
      (url : jsstring) :
  windows w !! id = Some b ->
  emit URL_new id ev url w
  = emitTo URL_new id
           (List.filter (fun l => bool_decide (l_event l = ev)) (listeners b))
           (mkNavEvent false) url w.
Proof.
  intros H. unfold emit. rewrite (bindM_run _ _ _ _ _ (getWindow_run _ _ _ H)).
  reflexivity.
Qed.

(** The first load event after the window was created. *)
Lemma load_event_after_create (w : World) (start : jsstring) (ev : HostEvent) :
  ev = DidFinishLoad (length (windows w))
  \/ ev = DidFailLoad (length (windows w)) ->
  stateFile (step URL_new (afterCreate w start) ev)
  = if negb (strictEq start DEFAULT_URL) then None else stateFile w.
Proof.
  assert (L : windows (afterCreate w start) !! length (windows w)
              = Some (createdWindow start)) by apply lookup_last.
  intros [-> | ->]; unfold step, exec, dispatch, whenLive;
    rewrite L; cbn [destroyed createdWindow];
    unfold bindM at 1; rewrite (emit_run _ _ _ _ _ L);
    unfold createdWindow, restoreListeners;
    destruct (negb (strictEq start DEFAULT_URL));
    destruct w as [? ? ? ? ? ? ? [raw|] ? ?]; reflexivity.
Qed.

End Creation.

(** C4, as the code has it.  A window that is really created loads the
    persisted restore URL exactly when one is present and [isAllowed]
    holds for it, and the default URL otherwise.  When the URL loaded is
    not the default, the first [did-finish-load] or [did-fail-load] of the
    window deletes the record; when it is the default, nothing is
    registered and the state file is left as it was. *)
Theorem startup_url_and_restore (URL_new : jsstring -> option URL) (w : World) :
  URL_new [] = None ->
  isWindowCreationStarted w = false -> windowGone w ->
  let id := length (windows w) in
  let w' := exec (createWindow URL_new) w in
  exists startUrl,
    trace w' = trace w ++ [SetApplicationMenu; LoadURL id startUrl]
    /\ (forall r, result readRestoreUrl w = Normal (Some r) ->
                  isAllowed URL_new r = Normal true -> startUrl = r)
    /\ (forall r, result readRestoreUrl w = Normal (Some r) ->
                  isAllowed URL_new r = Normal false -> startUrl = DEFAULT_URL)
    /\ (result readRestoreUrl w = Normal None -> startUrl = DEFAULT_URL)
    /\ stateFile w' = stateFile w
    /\ (forall ev, ev = DidFinishLoad id \/ ev = DidFailLoad id ->
          stateFile (step URL_new w' ev)
          = if strictEq startUrl DEFAULT_URL then stateFile w else None).
Proof.
  intros He Hs Hg id w'. subst id w'. unfold exec, result.
  rewrite (createWindow_fresh _ _ Hs Hg), readRestoreUrl_stored. cbn [fst snd].
  exists (chooseStartUrl URL_new (storedUrl w)).
  split; [reflexivity|]. split; [|split; [|split; [|split]]].
  - intros r Hr Ha. injection Hr as ->. cbn [chooseStartUrl]. rewrite Ha.
    destruct r as [|c t]; [|reflexivity].
    rewrite (isAllowed_unparsed _ _ He) in Ha. discriminate.
  - intros r Hr Ha. injection Hr as ->. cbn [chooseStartUrl]. rewrite Ha.
    destruct (truthy r); reflexivity.
  - intros Hr. injection Hr as ->. reflexivity.
  - reflexivity.
  - intros ev Hev. rewrite (load_event_after_create _ _ _ _ Hev).
    destruct (strictEq _ DEFAULT_URL); reflexivity.
Qed.

(** ** The single window *)

Lemma lookup_alter_cases (f : BrowserWindow -> BrowserWindow) (id i : nat)
      (ws : list BrowserWindow) (b' : BrowserWindow) :
  alter f id ws !! i = Some b' ->
  (i = id /\ exists b, ws !! i = Some b /\ b' = f b)
  \/ (i <> id /\ ws !! i = Some b').
Proof.
  intros H. destruct (Nat.eq_dec id i) as [->|Hn].
  - left. split; [reflexivity|]. rewrite list_lookup_alter_eq in H.
    destruct (ws !! i) as [b|]; [|discriminate].
    exists b. split; [reflexivity|]. cbn in H. congruence.
  - right. split; [congruence|]. rewrite list_lookup_alter_ne in H by exact Hn.
    exact H.
Qed.

#[global] Instance shellInv_invariant : WindowInvariant shellInv.
Proof.
  split.
  - intros w w' Hw Hs _ Hws [I1 I2]. unfold shellInv. rewrite Hw, Hs, Hws.
    split; assumption.
  - intros w id f Hf [I1 I2]. split; cbn [windows win isWindowCreationStarted set_windows];
      intros i b' Hb.
    + intros Hu. apply lookup_alter_cases in Hb as [(-> & b & Hb & ->)|[_ Hb]].
      * apply (I1 _ _ Hb). destruct (Hf b) as (Hd & Hc & _).
        unfold unsettled in *. rewrite <- Hd, <- Hc. exact Hu.
      * exact (I1 _ _ Hb Hu).
    + apply lookup_alter_cases in Hb as [(-> & b & Hb & ->)|[_ Hb]].
      * apply (Hf b), (I2 _ _ Hb).
      * exact (I2 _ _ Hb).
Qed.

#[global] Instance settledInv_invariant : WindowInvariant settledInv.
Proof.
  split.
  - intros w w' Hw Hs _ Hws [I1 I2]. unfold settledInv. rewrite Hws.
    split; assumption.
  - intros w id f Hf [I1 I2]. split; cbn [windows set_windows];
      intros i b' Hb.
    + apply lookup_alter_cases in Hb as [(-> & b & Hb & ->)|[_ Hb]].
      * destruct (Hf b) as (Hd & Hc & _). rewrite Hd, Hc. exact (I1 _ _ Hb).
      * exact (I1 _ _ Hb).
    + apply lookup_alter_cases in Hb as [(-> & b & Hb & ->)|[_ Hb]].
      * apply (Hf b), (I2 _ _ Hb).
      * exact (I2 _ _ Hb).
Qed.

Create HintDb pres discriminated.

Section Preservation.

Context (P : World -> Prop) `{!WindowInvariant P}.

Lemma pres_ret {A : Type} (a : A) : preserves P (retM a).
Proof. intros w H; exact H. Qed.

Lemma pres_throw {A : Type} (e : Exn) : preserves P (@throwM A e).
Proof. intros w H; exact H. Qed.

Lemma pres_gets {A : Type} (f : World -> A) : preserves P (getsM f).
Proof. intros w H; exact H. Qed.

Lemma pres_liftC {A : Type} (c : Completion A) : preserves P (liftC c).
Proof. intros w H; exact H. Qed.

Lemma pres_bind {A B : Type} (c : M A) (k : A -> M B) :
  preserves P c -> (forall a, preserves P (k a)) -> preserves P (bindM c k).
Proof.
  intros Hc Hk w H. specialize (Hc w H). unfold exec, bindM in *.
  destruct (c w) as [[a|e] w1]; cbn [snd] in *; [apply (Hk a w1 Hc)|exact Hc].
Qed.

Lemma pres_try {A : Type} (body handler : M A) :
  preserves P body -> preserves P handler -> preserves P (tryM body handler).
Proof.
  intros Hb Hh w H. specialize (Hb w H). unfold exec, tryM in *.
  destruct (body w) as [[a|e] w1]; cbn [snd] in *; [exact Hb|apply (Hh w1 Hb)].
Qed.

Lemma pres_when (c : bool) (body : M unit) :
  preserves P body -> preserves P (whenM c body).
Proof. intros Hb. destruct c; [exact Hb|apply pres_ret]. Qed.

Lemma pres_frame (f : World -> World) :
  (forall w, win (f w) = win w) ->
  (forall w, isWindowCreationStarted (f w) = isWindowCreationStarted w) ->
  (forall w, requestFilter (f w) = requestFilter w) ->
  (forall w, windows (f w) = windows w) ->
  preserves P (modifyM f).
Proof.
  intros H1 H2 H3 H4 w H.
  exact (inv_frame w (f w) (H1 w) (H2 w) (H3 w) (H4 w) H).
Qed.

Lemma pres_effect (e : Effect) : preserves P (effectM e).
Proof. apply pres_frame; reflexivity. Qed.

Lemma pres_updWindow (id : nat) (f : BrowserWindow -> BrowserWindow) :
  flagsKept f -> preserves P (updWindow id f).
Proof. intros Hf w H. exact (inv_alter w id f Hf H). Qed.

Lemma pres_getWindow (id : nat) : preserves P (getWindow id).
Proof. intros w H. unfold exec, getWindow. destruct (windows w !! id); exact H. Qed.

Lemma pres_liveWindow (id : nat) : preserves P (liveWindow id).
Proof.
  apply pres_bind; [apply pres_getWindow|].
  intros b. destruct (destroyed b); [apply pres_throw|apply pres_ret].
Qed.

Lemma pres_fs_write (data : jsstring) : preserves P (fs_writeFileSync data).
Proof. apply pres_frame; reflexivity. Qed.

Lemma pres_fs_read : preserves P fs_readFileSync.
Proof. intros w H. unfold exec, fs_readFileSync. destruct (stateFile w); exact H. Qed.

Lemma pres_fs_unlink : preserves P fs_unlinkSync.
Proof.
  intros w H. unfold exec, fs_unlinkSync. destruct (stateFile w); [|exact H].
  cbn [snd]. revert H. apply inv_frame; reflexivity.
Qed.

Lemma pres_JSON_parseM (text : jsstring) : preserves P (JSON_parseM text).
Proof.
  unfold JSON_parseM. destruct (JSON_parse text); [apply pres_ret|apply pres_throw].
Qed.

End Preservation.

#[global] Hint Resolve pres_ret pres_throw pres_gets pres_liftC pres_when
  pres_effect pres_getWindow pres_liveWindow pres_fs_write pres_fs_read
  pres_fs_unlink pres_JSON_parseM pres_try : pres.

Lemma flagsKept_simple (f : BrowserWindow -> BrowserWindow) :
  (forall b, destroyed (f b) = destroyed b) ->
  (forall b, closedEmitted (f b) = closedEmitted b) ->
  (forall b, currentURL (f b) = currentURL b) ->
  (forall b, listeners (f b) = listeners b) ->
  flagsKept f.
Proof.
  intros H1 H2 H3 H4 b. split; [apply H1|]. split; [apply H2|].
  split; [apply H3|]. unfold closedOnly. rewrite H4. auto.
Qed.

Lemma flagsKept_addListener (l : Listener) :
  (l_callback l = CbClosed -> l_event l = closed) ->
  flagsKept (fun b => set_listeners (listeners b ++ [l]) b).
Proof.
  intros Hl b. split; [reflexivity|]. split; [reflexivity|].
  split; [reflexivity|].
  intros Hb x Hx. cbn [listeners set_listeners] in Hx.
  apply in_app_iff in Hx as [Hx|[<-|[]]]; [exact (Hb x Hx)|exact Hl].
Qed.

Lemma In_removeFirst (l x : Listener) (ls : list Listener) :
  In x (removeFirst l ls) -> In x ls.
Proof.
  induction ls as [|y ls IH]; cbn [removeFirst]; [tauto|].
  destruct (bool_decide (y = l)); cbn [In]; tauto.
Qed.

Lemma flagsKept_removeFirst (l : Listener) :
  flagsKept (fun b => set_listeners (removeFirst l (listeners b)) b).
Proof.
  intros b. split; [reflexivity|]. split; [reflexivity|].
  split; [reflexivity|].
  intros Hb x Hx. cbn [listeners set_listeners] in Hx.
  exact (Hb x (In_removeFirst _ _ _ Hx)).
Qed.

(** Solves the preservation of a sequence of host calls. *)
Ltac pres_tac :=
  repeat first
    [ progress intros
    | exact _
    | solve [auto with pres]
    | apply pres_bind
    | apply pres_try
    | apply pres_when
    | apply flagsKept_removeFirst
    | apply flagsKept_addListener; cbn; congruence
    | apply flagsKept_simple; reflexivity
    | apply pres_updWindow
    | apply pres_frame; [exact _ | reflexivity ..]
    | solve [auto with pres]
    | match goal with
      | |- preserves _ (match ?x with _ => _ end) => destruct x
      | |- preserves _ (if ?x then _ else _) => destruct x
      end ].

Section Handlers.

Context (P : World -> Prop) `{!WindowInvariant P}.
Variable URL_new : jsstring -> option URL.

Lemma pres_win_focus (id : nat) : preserves P (win_focus id).
Proof. unfold win_focus. pres_tac. Qed.

Lemma pres_win_show (id : nat) : preserves P (win_show id).
Proof. unfold win_show. pres_tac. Qed.

Lemma pres_win_restore (id : nat) : preserves P (win_restore id).
Proof. unfold win_restore. pres_tac. Qed.

Lemma pres_writeRestoreUrl (url : jsstring) : preserves P (writeRestoreUrl url).
Proof. unfold writeRestoreUrl, Date_now. pres_tac. Qed.

Lemma pres_clearRestoreUrl : preserves P clearRestoreUrl.
Proof. unfold clearRestoreUrl. pres_tac. Qed.

Lemma pres_safeGetCurrentUrl : preserves P (safeGetCurrentUrl URL_new).
Proof.
  unfold safeGetCurrentUrl, win_isDestroyed, webContents_getURL. pres_tac.
Qed.

Lemma pres_onSecondInstance : preserves P (onSecondInstance URL_new).
Proof.
  pose proof pres_safeGetCurrentUrl. pose proof pres_writeRestoreUrl.
  pose proof pres_win_focus. pose proof pres_win_show.
  pose proof pres_win_restore.
  unfold onSecondInstance, win_isDestroyed, win_isFocused, win_isVisible,
    win_isMinimized, app_quit.
  pres_tac.
Qed.

Lemma pres_onNotificationClick : preserves P onNotificationClick.
Proof.
  pose proof pres_win_focus. pose proof pres_win_show.
  pose proof pres_win_restore.
  unfold onNotificationClick, win_isMinimized. pres_tac.
Qed.

Lemma pres_onBeforeRequest (u : jsstring) : preserves P (onBeforeRequest URL_new u).
Proof. unfold onBeforeRequest, console_log. pres_tac. Qed.

Lemma pres_windowOpenHandler (u : jsstring) :
  preserves P (windowOpenHandler URL_new u).
Proof. unfold windowOpenHandler, shell_openExternal. pres_tac. Qed.

Lemma pres_onWillNavigate (e : NavEvent) (u : jsstring) :
  preserves P (onWillNavigate URL_new e u).
Proof. unfold onWillNavigate, shell_openExternal. pres_tac. Qed.

Lemma pres_onWillRedirect (e : NavEvent) (u : jsstring) :
  preserves P (onWillRedirect URL_new e u).
Proof. unfold onWillRedirect, shell_openExternal. pres_tac. Qed.

Lemma pres_onWindowAllClosed : preserves P onWindowAllClosed.
Proof. unfold onWindowAllClosed, app_quit. pres_tac. Qed.

End Handlers.

Section Emit.

Context (P : World -> Prop) `{!WindowInvariant P}.
Variable URL_new : jsstring -> option URL.

Lemma pres_runCallback (cb : Callback) (e : NavEvent) (url : jsstring) :
  cb <> CbClosed -> preserves P (runCallback URL_new cb e url).
Proof.
  pose proof (pres_clearRestoreUrl P). pose proof (pres_onWillNavigate P URL_new).
  pose proof (pres_onWillRedirect P URL_new).
  intros Hcb. destruct cb; cbn [runCallback]; try congruence; pres_tac.
Qed.

Lemma pres_emitTo (id : nat) (ls : list Listener) :
  (forall l e url, In l ls -> preserves P (runCallback URL_new (l_callback l) e url)) ->
  forall e url, preserves P (emitTo URL_new id ls e url).
Proof.
  induction ls as [|l ls IH]; intros Hls e url; cbn [emitTo]; [pres_tac|].
  apply pres_bind; [pres_tac|]. intros _.
  apply pres_bind; [apply Hls; left; reflexivity|].
  intros e'. apply IH. intros; apply Hls; right; assumption.
Qed.

End Emit.

Lemma pres_onClosed_settled : preserves settledInv onClosed.
Proof.
  intros w [I1 I2]. split; [exact I1|exact I2].
Qed.

Lemma settledInv_shellInv (w : World) : settledInv w -> shellInv w.
Proof.
  intros [I1 I2]. split; [|exact I2].
  intros i b Hb [Hu|Hu]; destruct (I1 _ _ Hb); congruence.
Qed.

Section Steps.

Variable URL_new : jsstring -> option URL.

Lemma pres_runCallback_settled (cb : Callback) (e : NavEvent) (url : jsstring) :
  preserves settledInv (runCallback URL_new cb e url).
Proof.
  destruct cb; try (apply pres_runCallback; [exact _|discriminate]).
  cbn [runCallback]. apply pres_bind; [apply pres_onClosed_settled|].
  intros; apply pres_ret.
Qed.

(** The events of a window other than [closed] do not reach the
    [closed] listener. *)
Lemma pres_emit_other (id : nat) (ev : EventName) (url : jsstring) :
  ev <> closed -> preserves shellInv (emit URL_new id ev url).
Proof.
  intros Hev w H. unfold exec, emit, bindM, getWindow.
  destruct (windows w !! id) as [b|] eqn:Hb; [|exact H].
  apply (pres_emitTo shellInv URL_new); [|exact H].
  intros l e u Hl. apply pres_runCallback; [exact _|].
  apply filter_In in Hl as [Hl He]. apply bool_decide_eq_true in He.
  intros Hc. destruct H as [_ I2]. apply Hev. rewrite <- He.
  exact (I2 _ _ Hb l Hl Hc).
Qed.

Lemma pres_emit_settled (id : nat) (ev : EventName) (url : jsstring) :
  preserves settledInv (emit URL_new id ev url).
Proof.
  intros w H. unfold exec, emit, bindM, getWindow.
  destruct (windows w !! id) as [b|] eqn:Hb; [|exact H].
  apply (pres_emitTo settledInv URL_new); [|exact H].
  intros; apply pres_runCallback_settled.
Qed.

Lemma pres_whenLive (P : World -> Prop) (id : nat) (body : M unit) :
  preserves P body -> preserves P (whenLive id body).
Proof.
  intros Hb w H. unfold exec, whenLive.
  destruct (windows w !! id) as [b|]; [|exact H].
  destruct (destroyed b); [exact H|apply Hb, H].
Qed.

(** A world in which creation has not started and [win] is not live has
    no unsettled window. *)
Lemma shellInv_idle (w : World) (i : nat) (b : BrowserWindow) :
  shellInv w -> isWindowCreationStarted w = false ->
  windows w !! i = Some b -> destroyed b = true /\ closedEmitted b = true.
Proof.
  intros [I1 _] Hs Hb.
  destruct (destroyed b) eqn:Hd, (closedEmitted b) eqn:Hc; auto;
    destruct (I1 _ _ Hb) as [_ X]; unfold unsettled; auto; congruence.
Qed.

Lemma shellInv_afterCreate (w : World) (start : jsstring) :
  shellInv w -> isWindowCreationStarted w = false ->
  shellInv (afterCreate w start).
Proof.
  intros H Hs. pose proof H as [I1 I2].
  assert (Hlook : forall i b, windows (afterCreate w start) !! i = Some b ->
            (windows w !! i = Some b)
            \/ (i = length (windows w) /\ b = createdWindow start)).
  { intros i b Hb. cbn [windows afterCreate] in Hb.
    apply lookup_app_Some in Hb as [Hb|[Hl Hb]]; [left; exact Hb|right].
    destruct (i - length (windows w))%nat eqn:E; [|destruct n; discriminate].
    cbn in Hb. split; [lia|congruence]. }
  split; intros i b Hb; destruct (Hlook _ _ Hb) as [Hw|[-> ->]].
  - intros [Hu|Hu]; destruct (shellInv_idle _ _ _ H Hs Hw); congruence.
  - intros _. split; reflexivity.
  - exact (I2 _ _ Hw).
  - intros l Hl Hc. unfold createdWindow, restoreListeners, shellListeners in Hl.
    cbn [listeners] in Hl.
    destruct (negb (strictEq start DEFAULT_URL)); cbn in Hl;
      repeat (destruct Hl as [<-|Hl]; [first [reflexivity|discriminate]|]);
      contradiction.
Qed.

Lemma winIsLive_cases (w : World) :
  (exists id b, liveAt w id b) \/ windowGone w
  \/ (exists id, win w = Some id /\ windows w !! id = None).
Proof.
  destruct (win w) as [id|] eqn:Hw; [|right; left; left; exact Hw].
  destruct (windows w !! id) as [b|] eqn:Hb; [|right; right; exists id; auto].
  destruct (destroyed b) eqn:Hd.
  - right; left; right. exists id, b. auto.
  - left. exists id, b. repeat split; assumption.
Qed.

Lemma createWindow_dangling (w : World) (id : nat) :
  win w = Some id -> windows w !! id = None ->
  createWindow URL_new w = (Throw TypeError, w).
Proof.
  intros Hw Hb. unfold createWindow.
  rewrite (bindM_run _ _ w w (isWindowCreationStarted w)) by reflexivity.
  unfold winIsLive, bindM at 1.
  rewrite (bindM_run _ _ _ _ _ (getsM_win _ _ Hw)).
  unfold win_isDestroyed, bindM, getWindow. rewrite Hb. reflexivity.
Qed.

Lemma pres_createWindow : preserves shellInv (createWindow URL_new).
Proof.
  intros w H. unfold exec.
  destruct (winIsLive_cases w) as [(id & b & L)|[Hg|(id & Hw & Hb)]].
  - rewrite (createWindow_live _ _ _ _ L). cbn [snd].
    apply (pres_win_focus shellInv id w) in H.
    destruct L as (_ & Hb & Hd).
    unfold exec, win_focus in H.
    rewrite (win_method_run _ _ _ _ _ Hb Hd) in H. exact H.
  - destruct (isWindowCreationStarted w) eqn:Hs.
    + rewrite (createWindow_started_gone _ _ Hs Hg). exact H.
    + rewrite (createWindow_fresh _ _ Hs Hg). cbn [snd].
      apply shellInv_afterCreate; assumption.
  - rewrite (createWindow_dangling _ _ Hw Hb). exact H.
Qed.

Lemma pres_onActivate : preserves shellInv (onActivate URL_new).
Proof.
  unfold onActivate. apply pres_bind; [apply pres_gets; exact _|].
  intros n. apply pres_when, pres_createWindow.
Qed.

(** An update that settles nothing and keeps the listeners: the window is
    destroyed, or takes another page. *)
Lemma shellInv_alter (id : nat) (f : BrowserWindow -> BrowserWindow) :
  (forall b, unsettled (f b) -> unsettled b) ->
  (forall b, listeners (f b) = listeners b) ->
  preserves shellInv (updWindow id f).
Proof.
  intros Hu Hl w [I1 I2]. unfold exec, updWindow, modifyM. cbn [snd].
  split; cbn [windows win isWindowCreationStarted set_windows]; intros i b' Hb.
  - intros Hu'. apply lookup_alter_cases in Hb as [(-> & b & Hb & ->)|[_ Hb]].
    + exact (I1 _ _ Hb (Hu _ Hu')).
    + exact (I1 _ _ Hb Hu').
  - apply lookup_alter_cases in Hb as [(-> & b & Hb & ->)|[_ Hb]].
    + unfold closedOnly. rewrite Hl. exact (I2 _ _ Hb).
    + exact (I2 _ _ Hb).
Qed.

Lemma pres_destroy (id : nat) :
  preserves shellInv
    (updWindow id (fun b =>
       set_destroyed true (set_focused false (set_visible false b)))).
Proof.
  apply shellInv_alter; [|reflexivity].
  intros b [Hu|Hu]; [discriminate|right; exact Hu].
Qed.

Lemma pres_navigate (id : nat) (url : jsstring) :
  preserves shellInv
    (installed <- getsM requestFilter ;;
     r <- (if installed then onBeforeRequest URL_new url
           else retM (mkResponse false)) ;;
     whenM (negb (cancel r)) (updWindow id (set_currentURL url)))%M.
Proof.
  pose proof (pres_onBeforeRequest shellInv URL_new).
  apply pres_bind; [pres_tac|]. intros installed.
  apply pres_bind; [destruct installed; pres_tac|]. intros r.
  apply pres_when, shellInv_alter; [intros b Hb; exact Hb|reflexivity].
Qed.

(** [closed] is emitted on the only unsettled window: every window is
    settled when its listeners run. *)
Lemma closed_settles (w : World) (id : nat) (b : BrowserWindow) :
  shellInv w -> windows w !! id = Some b ->
  destroyed b = true -> closedEmitted b = false ->
  settledInv (set_windows (alter (set_closedEmitted true) id (windows w)) w).
Proof.
  intros [I1 I2] Hb Hd Hc.
  destruct (I1 _ _ Hb (or_intror Hc)) as [Hw _].
  split; cbn [windows set_windows]; intros i b' Hb'.
  - apply lookup_alter_cases in Hb' as [(-> & b0 & Hb0 & ->)|[Hn Hb']].
    + rewrite Hb in Hb0. injection Hb0 as <-. split; [exact Hd|reflexivity].
    + destruct (destroyed b') eqn:Hd', (closedEmitted b') eqn:Hc'; auto;
        destruct (I1 _ _ Hb') as [X _]; unfold unsettled; auto; congruence.
  - apply lookup_alter_cases in Hb' as [(-> & b0 & Hb0 & ->)|[Hn Hb']].
    + exact (I2 _ _ Hb0).
    + exact (I2 _ _ Hb').
Qed.

(** The invariant is kept by every event of the host. *)
Lemma shellInv_step (w : World) (ev : HostEvent) :
  shellInv w -> shellInv (step URL_new w ev).
Proof.
  intros H. unfold step.
  assert (Hp : preserves shellInv (dispatch URL_new ev)); [|exact (Hp w H)].
  clear w H. destruct ev; cbn [dispatch].
  - apply pres_createWindow.
  - apply pres_onActivate.
  - apply pres_onSecondInstance; exact _.
  - apply pres_onWindowAllClosed; exact _.
  - apply pres_whenLive, pres_destroy.
  - intros w H. unfold exec.
    destruct (windows w !! id) as [b|] eqn:Hb; [|exact H].
    destruct (destroyed b) eqn:Hd; [|exact H].
    destruct (closedEmitted b) eqn:Hc; [exact H|]. cbn [andb negb].
    apply settledInv_shellInv.
    pose proof (closed_settles _ _ _ H Hb Hd Hc) as Hs.
    unfold bindM at 1. unfold updWindow, modifyM.
    revert Hs. generalize (set_windows (alter (set_closedEmitted true) id (windows w)) w).
    intros w1 Hs.
    assert (Hq : preserves settledInv
                   (bindM (emit URL_new id closed []) (fun _ => retM tt))).
    { apply pres_bind; [apply pres_emit_settled|intros; apply pres_ret]. }
    exact (Hq w1 Hs).
  - apply pres_whenLive, pres_bind;
      [apply pres_emit_other; discriminate|intros; apply pres_ret].
  - apply pres_whenLive, pres_bind;
      [apply pres_emit_other; discriminate|intros; apply pres_ret].
  - apply pres_whenLive, pres_bind;
      [apply pres_emit_other; discriminate|intros; apply pres_ret].
  - apply pres_whenLive, pres_bind;
      [apply pres_emit_other; discriminate|intros; apply pres_ret].
  - apply pres_whenLive. pose proof (pres_windowOpenHandler shellInv URL_new).
    pres_tac.
  - pose proof (pres_onBeforeRequest shellInv URL_new). pres_tac.
  - pose proof (pres_onNotificationClick shellInv). pres_tac.
  - apply pres_whenLive. pres_tac.
  - apply pres_whenLive. pres_tac.
  - apply pres_whenLive. pres_tac.
  - apply pres_whenLive, pres_navigate.
  - pres_tac.
  - apply pres_whenLive, pres_bind;
      [apply pres_emit_other; discriminate|intros; apply pres_ret].
Qed.

End Steps.

Lemma filter_live_unique (ws : list BrowserWindow) :
  (forall i j bi bj, ws !! i = Some bi -> ws !! j = Some bj ->
                     destroyed bi = false -> destroyed bj = false -> i = j) ->
  (length (List.filter (fun b => negb (destroyed b)) ws) <= 1)%nat.
Proof.
  induction ws as [|b ws IH]; intros H; cbn [List.filter]; [cbn; lia|].
  destruct (destroyed b) eqn:Hd; cbn [negb].
  - apply IH. intros i j bi bj Hi Hj Di Dj.
    assert (S i = S j) by (apply (H (S i) (S j) bi bj); assumption). lia.
  - assert (E : List.filter (fun b => negb (destroyed b)) ws = []).
    { destruct (List.filter (fun b => negb (destroyed b)) ws) as [|x r] eqn:E;
        [reflexivity|exfalso].
      assert (Hx : In x (List.filter (fun b => negb (destroyed b)) ws))
        by (rewrite E; left; reflexivity).
      apply filter_In in Hx as [Hx Dx]. apply negb_true_iff in Dx.
      apply In_nth_error in Hx as [j Hj].
      assert (Hj' : (b :: ws) !! S j = Some x).
      { cbn. revert Hj. clear. revert j.
        induction ws as [|y ws IHws]; intros [|j]; cbn; try discriminate; auto. }
      assert (O = S j) by (apply (H O (S j) b x); auto). discriminate. }
    rewrite E. cbn. lia.
Qed.

Lemma shellInv_single (w : World) : shellInv w -> singleWindow w.
Proof.
  intros [I1 _]. apply filter_live_unique.
  intros i j bi bj Hi Hj Di Dj.
  destruct (I1 _ _ Hi (or_introl Di)) as [Wi _].
  destruct (I1 _ _ Hj (or_introl Dj)) as [Wj _]. congruence.
Qed.

Lemma shellInv_initial (supported darwin : bool) (file : option jsstring)
      (now : Z) : shellInv (initialWorld supported darwin file now).
Proof. split; intros i b Hb; destruct i; discriminate. Qed.

Lemma shellInv_run (URL_new : jsstring -> option URL) (evs : list HostEvent) :
  forall w, shellInv w -> shellInv (run URL_new w evs).
Proof.
  induction evs as [|ev evs IH]; intros w H; [exact H|].
  cbn [run fold_left]. apply IH, shellInv_step, H.
Qed.

Lemma createWindow_started_no_window (URL_new : jsstring -> option URL)
      (w : World) :
  isWindowCreationStarted w = true ->
  length (windows (exec (createWindow URL_new) w)) = length (windows w).
Proof.
  intros Hs. unfold exec.
  destruct (winIsLive_cases w) as [(id & b & L)|[Hg|(id & Hw & Hb)]].
  - rewrite (createWindow_live _ _ _ _ L). cbn [snd windows log_effect set_windows].
    apply length_alter.
  - rewrite (createWindow_started_gone _ _ Hs Hg). reflexivity.
  - rewrite (createWindow_dangling _ _ _ Hw Hb). reflexivity.
Qed.

(** C9. At most one window of the shell is alive in every state the
    process reaches: the invariant [shellInv] holds at start, is kept by
    every event (among them [activate] and the emission of [closed]) and
    bounds the live windows by one.  A creation request while the window
    lives focuses it and creates nothing; a request while creation is
    marked as started creates nothing. *)
Theorem at_most_one_window (URL_new : jsstring -> option URL) :
  (forall supported darwin file now evs,
     singleWindow (run URL_new (initialWorld supported darwin file now) evs))
  /\ (forall w ev, shellInv w -> shellInv (step URL_new w ev))
  /\ (forall w, shellInv w -> singleWindow w)
  /\ (forall w id b, liveAt w id b ->
        createWindow URL_new w
        = (Normal tt,
           log_effect (WinFocus id)
             (set_windows (alter (set_focused true) id (windows w)) w)))
  /\ (forall w, isWindowCreationStarted w = true ->
        length (windows (exec (createWindow URL_new) w)) = length (windows w)).
Proof.
  split; [|split; [|split; [|split]]].
  - intros. apply shellInv_single, shellInv_run, shellInv_initial.
  - intros w ev. apply shellInv_step.
  - apply shellInv_single.
  - apply createWindow_live.
  - apply createWindow_started_no_window.
Qed.

(** ** The pages of the windows *)

#[global] Instance pageInv_invariant (URL_new : jsstring -> option URL) :
  WindowInvariant (pageInv URL_new).
Proof.
  split.
  - intros w w' _ _ Hf Hws [I1 I2]. unfold pageInv. rewrite Hf, Hws.
    split; assumption.
  - intros w id f Hf [I1 I2].
    split; cbn [windows requestFilter set_windows].
    + intros Hne. apply I1. intros E. apply Hne. rewrite E. reflexivity.
    + intros i b' Hb.
      apply lookup_alter_cases in Hb as [(-> & b & Hb & ->)|[_ Hb]].
      * destruct (Hf b) as (_ & _ & -> & _). exact (I2 _ _ Hb).
      * exact (I2 _ _ Hb).
Qed.

Section Pages.

Variable URL_new : jsstring -> option URL.

(** An update that keeps the page of the window. *)
Lemma pageInv_alter (id : nat) (f : BrowserWindow -> BrowserWindow) :
  (forall b, currentURL (f b) = currentURL b) ->
  preserves (pageInv URL_new) (updWindow id f).
Proof.
  intros Hf w [I1 I2]. unfold exec, updWindow, modifyM. cbn [snd].
  split; cbn [windows requestFilter set_windows].
  - intros Hne. apply I1. intros E. apply Hne. rewrite E. reflexivity.
  - intros i b' Hb.
    apply lookup_alter_cases in Hb as [(-> & b & Hb & ->)|[_ Hb]].
    + rewrite Hf. exact (I2 _ _ Hb).
    + exact (I2 _ _ Hb).
Qed.

Lemma pres_runCallback_page (cb : Callback) (e : NavEvent) (url : jsstring) :
  preserves (pageInv URL_new) (runCallback URL_new cb e url).
Proof.
  destruct cb; try (apply pres_runCallback; [exact _|discriminate]).
  intros w H. exact H.
Qed.

Lemma pres_emit_page (id : nat) (ev : EventName) (url : jsstring) :
  preserves (pageInv URL_new) (emit URL_new id ev url).
Proof.
  intros w H. unfold exec, emit, bindM, getWindow.
  destruct (windows w !! id) as [b|] eqn:Hb; [|exact H].
  apply (pres_emitTo (pageInv URL_new) URL_new); [|exact H].
  intros; apply pres_runCallback_page.
Qed.

Lemma pageInv_afterCreate (w : World) (start : jsstring) :
  pageInv URL_new w -> pageInv URL_new (afterCreate w start).
Proof.
  intros [I1 I2]. split; [reflexivity|].
  intros i b Hb. cbn [windows afterCreate] in Hb.
  apply lookup_app_Some in Hb as [Hb|[Hl Hb]]; [exact (I2 _ _ Hb)|].
  destruct (i - length (windows w))%nat; [|destruct n; discriminate].
  cbn in Hb. injection Hb as <-. left; reflexivity.
Qed.

Lemma pres_createWindow_page : preserves (pageInv URL_new) (createWindow URL_new).
Proof.
  intros w H. unfold exec.
  destruct (winIsLive_cases w) as [(id & b & L)|[Hg|(id & Hw & Hb)]].
  - rewrite (createWindow_live _ _ _ _ L). cbn [snd].
    apply (pres_win_focus (pageInv URL_new) id w) in H.
    destruct L as (_ & Hb & Hd).
    unfold exec, win_focus in H.
    rewrite (win_method_run _ _ _ _ _ Hb Hd) in H. exact H.
  - destruct (isWindowCreationStarted w) eqn:Hs.
    + rewrite (createWindow_started_gone _ _ Hs Hg). exact H.
    + rewrite (createWindow_fresh _ _ Hs Hg). cbn [snd].
      apply pageInv_afterCreate; assumption.
  - rewrite (createWindow_dangling _ _ _ Hw Hb). exact H.
Qed.

(** The filter decides like [blockedUrl]. *)
Lemma onBeforeRequest_blocked (u : jsstring) (w : World) :
  result (onBeforeRequest URL_new u) w = Normal (mkResponse (blockedUrl URL_new u)).
Proof.
  unfold result, blockedUrl. rewrite onBeforeRequest_run.
  destruct (URL_new u) as [url|]; [|reflexivity].
  destruct (isHttpUrl url); [|reflexivity].
  destruct (allowedUrl url); reflexivity.
Qed.

(** A page is taken by a window only when the filter, which is installed,
    has let its request through. *)
Lemma pres_navigate_page (id : nat) (url : jsstring) :
  preserves (pageInv URL_new)
    (whenLive id
       (installed <- getsM requestFilter ;;
        r <- (if installed then onBeforeRequest URL_new url
              else retM (mkResponse false)) ;;
        whenM (negb (cancel r)) (updWindow id (set_currentURL url)))%M).
Proof.
  intros w H. unfold exec, whenLive.
  destruct (windows w !! id) as [b|] eqn:Hb; [|exact H].
  destruct (destroyed b); [exact H|].
  assert (Hf : requestFilter w = true).
  { apply H. intros E. rewrite E in Hb. discriminate. }
  rewrite (bindM_run _ _ w w true) by (unfold getsM; rewrite Hf; reflexivity).
  pose proof (onBeforeRequest_blocked url w) as Hr.
  pose proof (pres_onBeforeRequest (pageInv URL_new) URL_new url w H) as Hp.
  unfold result, exec in Hr, Hp. unfold bindM.
  destruct (onBeforeRequest URL_new url w) as [r w1]. cbn [fst snd] in Hr, Hp.
  subst r. cbn [cancel].
  destruct (blockedUrl URL_new url) eqn:Hbl; cbn [negb whenM]; [exact Hp|].
  destruct Hp as [I1 I2]. unfold updWindow, modifyM. cbn [snd].
  split; cbn [windows requestFilter set_windows].
  - intros Hne. apply I1. intros E. apply Hne. rewrite E. reflexivity.
  - intros i b' Hb'.
    apply lookup_alter_cases in Hb' as [(-> & b0 & Hb0 & ->)|[_ Hb']].
    + right. exact Hbl.
    + exact (I2 _ _ Hb').
Qed.

Lemma pageInv_step (w : World) (ev : HostEvent) :
  pageInv URL_new w -> pageInv URL_new (step URL_new w ev).
Proof.
  intros H. unfold step.
  assert (Hp : preserves (pageInv URL_new) (dispatch URL_new ev));
    [|exact (Hp w H)].
  clear w H.
  pose proof pres_emit_page.
  pose proof (pres_windowOpenHandler (pageInv URL_new) URL_new).
  pose proof (pres_onBeforeRequest (pageInv URL_new) URL_new).
  pose proof (pres_onNotificationClick (pageInv URL_new)).
  destruct ev; cbn [dispatch].
  - apply pres_createWindow_page.
  - unfold onActivate. apply pres_bind; [pres_tac|].
    intros n. apply pres_when, pres_createWindow_page.
  - apply pres_onSecondInstance; exact _.
  - apply pres_onWindowAllClosed; exact _.
  - apply pres_whenLive, pageInv_alter; reflexivity.
  - intros w Hw. unfold exec.
    destruct (windows w !! id) as [b|] eqn:Hb; [|exact Hw].
    destruct (destroyed b && negb (closedEmitted b)); [|exact Hw].
    assert (Hq : preserves (pageInv URL_new)
                   (updWindow id (set_closedEmitted true) ;;;
                    emit URL_new id closed [] ;;; retM tt)%M).
    { apply pres_bind; [apply pageInv_alter; reflexivity|]. pres_tac. }
    exact (Hq w Hw).
  - apply pres_whenLive. pres_tac.
  - apply pres_whenLive. pres_tac.
  - apply pres_whenLive. pres_tac.
  - apply pres_whenLive. pres_tac.
  - apply pres_whenLive. pres_tac.
  - pres_tac.
  - pres_tac.
  - apply pres_whenLive. pres_tac.
  - apply pres_whenLive. pres_tac.
  - apply pres_whenLive. pres_tac.
  - exact (pres_navigate_page id url).
  - pres_tac.
  - apply pres_whenLive. pres_tac.
Qed.

Lemma pageInv_run (evs : list HostEvent) :
  forall w, pageInv URL_new w -> pageInv URL_new (run URL_new w evs).
Proof.
  induction evs as [|ev evs IH]; intros w H; [exact H|].
  cbn [run fold_left]. apply IH, pageInv_step, H.
Qed.

Lemma pageInv_initial (supported darwin : bool) (file : option jsstring)
      (now : Z) : pageInv URL_new (initialWorld supported darwin file now).
Proof.
  split; [intros H; exfalso; apply H; reflexivity|].
  intros i b Hb; destruct i; discriminate.
Qed.

End Pages.

(** ** The interception points of the windows *)

Lemma filter_removeFirst (ev : EventName) (l : Listener) (ls : list Listener) :
  l_event l <> ev ->
  List.filter (fun x => bool_decide (l_event x = ev)) (removeFirst l ls)
  = List.filter (fun x => bool_decide (l_event x = ev)) ls.
Proof.
  intros Hne. induction ls as [|a ls IH]; [reflexivity|].
  cbn [removeFirst List.filter].
  destruct (bool_decide (a = l)) eqn:E.
  - apply bool_decide_eq_true in E. subst a.
    rewrite bool_decide_eq_false_2 by exact Hne. reflexivity.
  - cbn [List.filter]. rewrite IH. reflexivity.
Qed.

Section EveryWindow.

Variable W : BrowserWindow -> Prop.

Lemma everyWindow_modify (f : World -> World) :
  (forall w, windows (f w) = windows w) ->
  preserves (everyWindow W) (modifyM f).
Proof.
  intros Hf w H i b Hb. unfold exec, modifyM in Hb. cbn [snd] in Hb.
  rewrite Hf in Hb. exact (H i b Hb).
Qed.

Lemma everyWindow_upd (id : nat) (f : BrowserWindow -> BrowserWindow) :
  (forall b, W b -> W (f b)) -> preserves (everyWindow W) (updWindow id f).
Proof.
  intros Hf w H i b' Hb. unfold exec, updWindow, modifyM in Hb.
  cbn [snd windows set_windows] in Hb.
  apply lookup_alter_cases in Hb as [(-> & b & Hb & ->)|[_ Hb]].
  - apply Hf, (H _ _ Hb).
  - exact (H _ _ Hb).
Qed.

Lemma everyWindow_fs_unlink : preserves (everyWindow W) fs_unlinkSync.
Proof.
  intros w H. unfold exec, fs_unlinkSync. destruct (stateFile w); exact H.
Qed.

Lemma everyWindow_initial (supported darwin : bool) (file : option jsstring)
      (now : Z) : everyWindow W (initialWorld supported darwin file now).
Proof. intros i b Hb. destruct i; discriminate Hb. Qed.

End EveryWindow.

(** Solves the preservation of a property of the windows that the
    fields a host call sets do not touch. *)
Ltac window_tac :=
  repeat first
    [ match goal with |- forall _, _ => intro end
    | solve [auto with pres]
    | apply pres_bind
    | apply pres_try
    | apply pres_when
    | apply everyWindow_modify; reflexivity
    | apply everyWindow_upd; intros ? ?; assumption
    | apply everyWindow_fs_unlink
    | match goal with
      | |- preserves _ (match ?x with _ => _ end) => destruct x
      | |- preserves _ (if ?x then _ else _) => destruct x
      end ].

Section Guards.

Variable URL_new : jsstring -> option URL.

Lemma guarded_win_focus (id : nat) :
  preserves (everyWindow guarded) (win_focus id).
Proof. unfold win_focus, effectM. window_tac. Qed.

Lemma guarded_win_show (id : nat) :
  preserves (everyWindow guarded) (win_show id).
Proof. unfold win_show, effectM. window_tac. Qed.

Lemma guarded_win_restore (id : nat) :
  preserves (everyWindow guarded) (win_restore id).
Proof. unfold win_restore, effectM. window_tac. Qed.

Lemma guarded_onSecondInstance :
  preserves (everyWindow guarded) (onSecondInstance URL_new).
Proof.
  pose proof guarded_win_focus. pose proof guarded_win_show.
  pose proof guarded_win_restore.
  unfold onSecondInstance, safeGetCurrentUrl, writeRestoreUrl, Date_now,
    fs_writeFileSync, win_isDestroyed, win_isFocused, win_isVisible,
    win_isMinimized, webContents_getURL, app_quit, effectM.
  window_tac.
Qed.

Lemma guarded_onNotificationClick :
  preserves (everyWindow guarded) onNotificationClick.
Proof.
  pose proof guarded_win_focus. pose proof guarded_win_show.
  pose proof guarded_win_restore.
  unfold onNotificationClick, win_isMinimized. window_tac.
Qed.

Lemma guarded_runCallback (cb : Callback) (e : NavEvent) (url : jsstring) :
  preserves (everyWindow guarded) (runCallback URL_new cb e url).
Proof.
  destruct cb; cbn [runCallback];
    unfold clearRestoreUrl, onWillNavigate, onWillRedirect, onClosed,
      shell_openExternal, effectM;
    window_tac.
Qed.

(** A one-shot listener that is removed is no listener of will-navigate
    nor of will-redirect. *)
Lemma guarded_emitTo (id : nat) (ls : list Listener) :
  (forall l, In l ls -> l_once l = true ->
             l_event l <> will_navigate /\ l_event l <> will_redirect) ->
  forall e url, preserves (everyWindow guarded) (emitTo URL_new id ls e url).
Proof.
  pose proof guarded_runCallback.
  induction ls as [|l ls IH]; intros Hls e url; cbn [emitTo]; [window_tac|].
  apply pres_bind.
  - destruct (l_once l) eqn:Ho; cbn [whenM]; [|window_tac].
    destruct (Hls l (or_introl eq_refl) Ho) as [Hn Hr].
    apply everyWindow_upd. intros b (H1 & H2 & H3).
    split; [exact H1|]. unfold listenersOf in *.
    cbn [listeners set_listeners].
    rewrite !filter_removeFirst by assumption. split; assumption.
  - intros _. apply pres_bind; [window_tac|].
    intros e'. apply IH. intros l' Hl'. apply Hls. right; exact Hl'.
Qed.

Lemma guarded_emit (id : nat) (ev : EventName) (url : jsstring) :
  preserves (everyWindow guarded) (emit URL_new id ev url).
Proof.
  intros w H. unfold exec, emit, bindM, getWindow.
  destruct (windows w !! id) as [b|] eqn:Hb; [|exact H].
  apply guarded_emitTo; [|exact H].
  intros l Hl Ho. apply filter_In in Hl as [Hl He].
  apply bool_decide_eq_true in He.
  destruct (H _ _ Hb) as (_ & Hn & Hr).
  split; intros Hx.
  - assert (Hin : In l (listenersOf will_navigate b)).
    { apply filter_In. split; [exact Hl|]. apply bool_decide_eq_true, Hx. }
    rewrite Hn in Hin. destruct Hin as [<-|[]]. discriminate Ho.
  - assert (Hin : In l (listenersOf will_redirect b)).
    { apply filter_In. split; [exact Hl|]. apply bool_decide_eq_true, Hx. }
    rewrite Hr in Hin. destruct Hin as [<-|[]]. discriminate Ho.
Qed.

Lemma guarded_createdWindow (start : jsstring) : guarded (createdWindow start).
Proof.
  split; [reflexivity|].
  unfold listenersOf, createdWindow, restoreListeners.
  destruct (negb (strictEq start DEFAULT_URL)); split; reflexivity.
Qed.

Lemma guarded_afterCreate (w : World) (start : jsstring) :
  everyWindow guarded w -> everyWindow guarded (afterCreate w start).
Proof.
  intros H i b Hb. cbn [windows afterCreate] in Hb.
  apply lookup_app_Some in Hb as [Hb|[Hl Hb]]; [exact (H _ _ Hb)|].
  destruct (i - length (windows w))%nat; [|destruct n; discriminate].
  cbn in Hb. injection Hb as <-. apply guarded_createdWindow.
Qed.

Lemma guarded_createWindow :
  preserves (everyWindow guarded) (createWindow URL_new).
Proof.
  intros w H. unfold exec.
  destruct (winIsLive_cases w) as [(id & b & L)|[Hg|(id & Hw & Hb)]].
  - rewrite (createWindow_live _ _ _ _ L). cbn [snd].
    apply (guarded_win_focus id w) in H.
    destruct L as (_ & Hb & Hd).
    unfold exec, win_focus in H.
    rewrite (win_method_run _ _ _ _ _ Hb Hd) in H. exact H.
  - destruct (isWindowCreationStarted w) eqn:Hs.
    + rewrite (createWindow_started_gone _ _ Hs Hg). exact H.
    + rewrite (createWindow_fresh _ _ Hs Hg). cbn [snd].
      apply guarded_afterCreate; assumption.
  - rewrite (createWindow_dangling _ _ _ Hw Hb). exact H.
Qed.

Lemma guarded_step (w : World) (ev : HostEvent) :
  everyWindow guarded w -> everyWindow guarded (step URL_new w ev).
Proof.
  intros H. unfold step.
  assert (Hp : preserves (everyWindow guarded) (dispatch URL_new ev));
    [|exact (Hp w H)].
  clear w H.
  pose proof guarded_createWindow. pose proof guarded_onSecondInstance.
  pose proof guarded_onNotificationClick. pose proof guarded_emit.
  destruct ev; cbn [dispatch];
    unfold onActivate, onWindowAllClosed, app_quit, windowOpenHandler,
      onBeforeRequest, shell_openExternal, console_log, effectM;
    try (apply pres_whenLive); try solve [window_tac].
  intros w Hw. unfold exec.
  destruct (windows w !! id) as [b|] eqn:Hb; [|exact Hw].
  destruct (destroyed b && negb (closedEmitted b)); [|exact Hw].
  assert (Hq : preserves (everyWindow guarded)
                 (updWindow id (set_closedEmitted true) ;;;
                  emit URL_new id closed [] ;;; retM tt)%M) by window_tac.
  exact (Hq w Hw).
Qed.

Lemma guarded_run (evs : list HostEvent) :
  forall w, everyWindow guarded w -> everyWindow guarded (run URL_new w evs).
Proof.
  induction evs as [|ev evs IH]; intros w H; [exact H|].
  cbn [run fold_left]. apply IH, guarded_step, H.
Qed.

(** The three top-level intents on a guarded, live window, and the
    request of a page through the installed filter, for a URL that
    [shouldOpenExternally] holds of. *)
Lemma intents_handed_off (u : jsstring) (w : World) (id : nat)
      (b : BrowserWindow) :
  shouldOpenExternally URL_new u = Normal true ->
  windows w !! id = Some b -> destroyed b = false -> guarded b ->
  requestFilter w = true ->
  step URL_new w (WindowOpen id u) = log_effect (OpenExternal u) w
  /\ emit URL_new id will_navigate u w
     = (Normal (mkNavEvent true), log_effect (OpenExternal u) w)
  /\ emit URL_new id will_redirect u w
     = (Normal (mkNavEvent true), log_effect (OpenExternal u) w)
  /\ step URL_new w (WillNavigate id u) = log_effect (OpenExternal u) w
  /\ step URL_new w (WillRedirect id u) = log_effect (OpenExternal u) w
  /\ step URL_new w (Navigate id u)
     = log_effect (ConsoleLog (js "[BLOCKED]") u) w
  /\ step URL_new w (BeforeRequest u)
     = log_effect (ConsoleLog (js "[BLOCKED]") u) w.
Proof.
  intros Hs Hb Hd (G1 & G2 & G3) Hf.
  assert (P : exists url, URL_new u = Some url /\ isHttpUrl url = true
                          /\ allowedUrl url = false).
  { destruct (URL_new u) as [url|] eqn:E.
    - exists url. split; [reflexivity|].
      rewrite (shouldOpenExternally_parsed _ _ _ E) in Hs.
      fold (allowedUrl url) in Hs.
      destruct (isHttpUrl url), (allowedUrl url); try discriminate Hs.
      split; reflexivity.
    - rewrite (shouldOpenExternally_unparsed _ _ E) in Hs. discriminate Hs. }
  destruct P as (url & E & Hh & Ha).
  assert (N : emit URL_new id will_navigate u w
              = (Normal (mkNavEvent true), log_effect (OpenExternal u) w)).
  { rewrite (emit_run _ _ _ _ _ _ Hb). fold (listenersOf will_navigate b).
    rewrite G2. cbn [emitTo l_once whenM l_callback runCallback].
    unfold bindM. cbn [retM]. rewrite onWillNavigate_run, Hs. reflexivity. }
  assert (R : emit URL_new id will_redirect u w
              = (Normal (mkNavEvent true), log_effect (OpenExternal u) w)).
  { rewrite (emit_run _ _ _ _ _ _ Hb). fold (listenersOf will_redirect b).
    rewrite G3. cbn [emitTo l_once whenM l_callback runCallback].
    unfold bindM. cbn [retM]. rewrite onWillRedirect_run, Hs. reflexivity. }
  assert (B : onBeforeRequest URL_new u w
              = (Normal (mkResponse true),
                 log_effect (ConsoleLog (js "[BLOCKED]") u) w)).
  { rewrite onBeforeRequest_run, E, Hh, Ha. reflexivity. }
  split; [|split; [exact N|split; [exact R|split; [|split; [|split]]]]].
  - unfold step, exec, dispatch, whenLive. rewrite Hb, Hd.
    rewrite (bindM_run _ _ _ _ _ (getWindow_run _ _ _ Hb)), G1. cbn [whenM].
    unfold bindM. rewrite windowOpenHandler_run, E, Hh. reflexivity.
  - unfold step, exec, dispatch, whenLive. rewrite Hb, Hd.
    unfold bindM. rewrite N. reflexivity.
  - unfold step, exec, dispatch, whenLive. rewrite Hb, Hd.
    unfold bindM. rewrite R. reflexivity.
  - unfold step, exec, dispatch, whenLive. rewrite Hb, Hd.
    rewrite (bindM_run _ _ w w true) by (unfold getsM; rewrite Hf; reflexivity).
    rewrite (bindM_run _ _ _ _ _ B). reflexivity.
  - unfold step, exec, dispatch.
    rewrite (bindM_run _ _ w w true) by (unfold getsM; rewrite Hf; reflexivity).
    cbn [whenM]. unfold bindM. rewrite B. reflexivity.
Qed.

End Guards.

(** C1. A URL [u] of scheme http or https that the domain policy does not
    allow is stopped at every interception point, in every state of the
    shell: the request filter cancels it (and logs it), the window-open
    handler denies the window, and the will-navigate and will-redirect
    listeners cancel the navigation; the three top-level intents hand [u]
    to the OS browser.  In no state that the process reaches is [u] the
    page of a window (a window that has loaded nothing has the empty
    string for page).  And in every state that the process reaches, on
    every live window, the interception points are those that
    [createWindow] has set up: an intent to open a window on [u], to
    navigate to [u] or to redirect to [u] makes exactly one call of
    [shell.openExternal], with [u], the navigation is prevented and
    nothing else changes; a request of [u], for a page or for a
    subresource, is canceled and logged, and nothing else changes. *)
Theorem disallowed_never_in_shell (URL_new : jsstring -> option URL)
        (u : jsstring) (url : URL) (w : World) (e : NavEvent) :
  URL_new u = Some url -> httpScheme url ->
  isAllowed URL_new u = Normal false ->
  onBeforeRequest URL_new u w
  = (Normal (mkResponse true), log_effect (ConsoleLog (js "[BLOCKED]") u) w)
  /\ windowOpenHandler URL_new u w
     = (Normal deny, log_effect (OpenExternal u) w)
  /\ onWillNavigate URL_new e u w
     = (Normal (mkNavEvent true), log_effect (OpenExternal u) w)
  /\ onWillRedirect URL_new e u w
     = (Normal (mkNavEvent true), log_effect (OpenExternal u) w)
  /\ (u <> [] ->
      forall supported darwin file now evs i b,
        windows (run URL_new (initialWorld supported darwin file now) evs) !! i
        = Some b ->
        currentURL b <> u)
  /\ (forall supported darwin file now evs id b,
        let r := run URL_new (initialWorld supported darwin file now) evs in
        windows r !! id = Some b -> destroyed b = false ->
        step URL_new r (WindowOpen id u) = log_effect (OpenExternal u) r
        /\ emit URL_new id will_navigate u r
           = (Normal (mkNavEvent true), log_effect (OpenExternal u) r)
        /\ emit URL_new id will_redirect u r
           = (Normal (mkNavEvent true), log_effect (OpenExternal u) r)
        /\ step URL_new r (WillNavigate id u) = log_effect (OpenExternal u) r
        /\ step URL_new r (WillRedirect id u) = log_effect (OpenExternal u) r
        /\ step URL_new r (Navigate id u)
           = log_effect (ConsoleLog (js "[BLOCKED]") u) r
        /\ step URL_new r (BeforeRequest u)
           = log_effect (ConsoleLog (js "[BLOCKED]") u) r).
Proof.
  intros E Hh Ha.
  pose proof (allowedUrl_of_isAllowed _ _ _ _ E Ha) as Hb.
  apply isHttpUrl_spec in Hh.
  assert (Hs : shouldOpenExternally URL_new u = Normal true).
  { rewrite (shouldOpenExternally_parsed _ _ _ E). fold (allowedUrl url).
    rewrite Hh, Hb. reflexivity. }
  split; [|split; [|split; [|split; [|split]]]].
  - rewrite onBeforeRequest_run, E, Hh, Hb. reflexivity.
  - rewrite windowOpenHandler_run, E, Hh. reflexivity.
  - rewrite onWillNavigate_run, Hs. reflexivity.
  - rewrite onWillRedirect_run, Hs. reflexivity.
  - intros Hne supported darwin file now evs i b Hw Hu.
    destruct (pageInv_run URL_new evs _
                (pageInv_initial URL_new supported darwin file now))
      as [_ I2].
    destruct (I2 _ _ Hw) as [Hn|Hn]; [congruence|].
    rewrite Hu in Hn. unfold blockedUrl in Hn. rewrite E, Hh, Hb in Hn.
    discriminate Hn.
  - intros supported darwin file now evs id b r Hw Hd.
    apply (intents_handed_off URL_new u r id b Hs Hw Hd).
    + exact (guarded_run URL_new evs _
               (everyWindow_initial guarded supported darwin file now)
               _ _ Hw).
    + apply (pageInv_run URL_new evs _
               (pageInv_initial URL_new supported darwin file now)).
      intros X. fold r in X. rewrite X in Hw. discriminate Hw.
Qed.

(** ** The properties at work on concrete inputs *)

(** C1 at [https://example.org/]: on the listeners themselves in a world
    with one window, and on the events of the host after the window was
    created, minimized and its [did-finish-load] came. *)
Lemma disallowed_never_in_shell_witness :
  let u := js "https://example.org/" in
  let w := sampleWorld (sampleWindow (js "https://grok.com/") true true false) in
  let r := run UrlRef.parse (startWorld None)
             [Ready; UserMinimize 0%nat true; DidFinishLoad 0%nat] in
  onBeforeRequest UrlRef.parse u w
  = (Normal (mkResponse true), log_effect (ConsoleLog (js "[BLOCKED]") u) w)
  /\ windowOpenHandler UrlRef.parse u w
     = (Normal deny, log_effect (OpenExternal u) w)
  /\ onWillNavigate UrlRef.parse (mkNavEvent false) u w
     = (Normal (mkNavEvent true), log_effect (OpenExternal u) w)
  /\ onWillRedirect UrlRef.parse (mkNavEvent false) u w
     = (Normal (mkNavEvent true), log_effect (OpenExternal u) w)
  /\ (forall supported darwin file now evs i b,
        windows (run UrlRef.parse (initialWorld supported darwin file now) evs)
        !! i = Some b ->
        currentURL b <> u)
  /\ step UrlRef.parse r (WindowOpen 0%nat u) = log_effect (OpenExternal u) r
  /\ step UrlRef.parse r (WillNavigate 0%nat u) = log_effect (OpenExternal u) r
  /\ step UrlRef.parse r (WillRedirect 0%nat u) = log_effect (OpenExternal u) r
  /\ step UrlRef.parse r (Navigate 0%nat u)
     = log_effect (ConsoleLog (js "[BLOCKED]") u) r.
Proof.
  intros u w r.
  destruct (disallowed_never_in_shell UrlRef.parse u
              (mkURL (js "https:") (js "example.org")) w (mkNavEvent false))
    as (H1 & H2 & H3 & H4 & H5 & H6).
  - vm_compute; reflexivity.
  - right; reflexivity.
  - vm_compute; reflexivity.
  - assert (Hb : exists b, windows r !! 0%nat = Some b /\ destroyed b = false).
    { vm_compute. eexists. split; reflexivity. }
    destruct Hb as (b & Hb & Hd).
    destruct (H6 true false None 1700000000000%Z
                 [Ready; UserMinimize 0%nat true; DidFinishLoad 0%nat]
                 0%nat b Hb Hd)
      as (K1 & _ & _ & K4 & K5 & K6 & _).
    split; [exact H1|]. split; [exact H2|]. split; [exact H3|].
    split; [exact H4|]. split; [apply H5; discriminate|].
    split; [exact K1|]. split; [exact K4|]. split; [exact K5|exact K6].
Defined.

(** C2 at an allowed subdomain, at plain http and at a string that is
    not a URL. *)
Lemma isAllowed_iff_witness :
  isAllowed UrlRef.parse (js "https://Accounts.X.ai/login") = Normal true
  /\ (exists url, UrlRef.parse (js "https://status.grok.com/") = Some url
                  /\ protocol url = js "https:"
                  /\ exists a, In a ALLOWED_HOSTS /\ matchesEntry (hostname url) a)
  /\ isAllowed UrlRef.parse (js "not a url") = Normal false.
Proof.
  split; [|split].
  - apply (proj1 (isAllowed_iff UrlRef.parse (js "https://Accounts.X.ai/login"))).
    exists (mkURL (js "https:") (js "accounts.x.ai")).
    split; [vm_compute; reflexivity|]. split; [reflexivity|].
    exists (js "x.ai"). split; [right; left; reflexivity|].
    right. exists (js "accounts"). reflexivity.
  - apply (proj1 (isAllowed_iff UrlRef.parse (js "https://status.grok.com/"))).
    vm_compute; reflexivity.
  - apply (proj2 (proj2 (isAllowed_iff UrlRef.parse (js "not a url")))).
    vm_compute; reflexivity.
Defined.

(** C3 at a [data:] URL, at an allowed URL and at an allowed host over
    plain http. *)
Lemma onBeforeRequest_policy_witness :
  let w := startWorld None in
  onBeforeRequest UrlRef.parse (js "data:text/plain,hi") w
  = (Normal (mkResponse false), w)
  /\ onBeforeRequest UrlRef.parse (js "https://grok.com/rest/app") w
     = (Normal (mkResponse false), w)
  /\ onBeforeRequest UrlRef.parse (js "http://grok.com/") w
     = (Normal (mkResponse true),
        log_effect (ConsoleLog (js "[BLOCKED]") (js "http://grok.com/")) w)
  /\ loggedWhenBlocked UrlRef.parse (js "http://grok.com/") w.
Proof.
  intros w.
  destruct (onBeforeRequest_policy UrlRef.parse (js "data:text/plain,hi")
              (mkURL (js "data:") []) w) as (A & _);
    [vm_compute; reflexivity|].
  destruct (onBeforeRequest_policy UrlRef.parse (js "https://grok.com/rest/app")
              (mkURL (js "https:") (js "grok.com")) w) as (_ & B & _);
    [vm_compute; reflexivity|].
  destruct (onBeforeRequest_policy UrlRef.parse (js "http://grok.com/")
              (mkURL (js "http:") (js "grok.com")) w) as (_ & _ & C & _ & D & _);
    [vm_compute; reflexivity|].
  split; [|split; [|split]].
  - apply A. intros [H|H]; vm_compute in H; discriminate H.
  - apply B; [right; reflexivity|vm_compute; reflexivity].
  - apply C; [left; reflexivity|vm_compute; reflexivity].
  - exact D.
Defined.

(** C4: a record that is not allowed, and a record of the default URL,
    are still on disk after the first page has loaded. *)
Lemma restore_not_consumed :
  ~ restoreConsumed UrlRef.parse
      (startWorld (Some (recordOf (js "https://example.org/page"))))
  /\ ~ restoreConsumed UrlRef.parse (startWorld (Some (recordOf DEFAULT_URL))).
Proof.
  split; unfold restoreConsumed; intros H; vm_compute in H; discriminate H.
Qed.

Lemma startup_url_and_restore_witness :
  let w := startWorld (Some (recordOf (js "https://grok.com/c/42"))) in
  let w' := exec (createWindow UrlRef.parse) w in
  exists startUrl,
    trace w' = trace w ++ [SetApplicationMenu; LoadURL 0%nat startUrl]
    /\ startUrl = js "https://grok.com/c/42"
    /\ stateFile w' = stateFile w
    /\ stateFile (step UrlRef.parse w' (DidFinishLoad 0%nat)) = None
    /\ stateFile (step UrlRef.parse w' (DidFailLoad 0%nat)) = None.
Proof.
  intros w w'.
  destruct (startup_url_and_restore UrlRef.parse w)
    as (startUrl & Ht & Ha & _ & _ & Hf & Hl).
  - vm_compute; reflexivity.
  - reflexivity.
  - left; reflexivity.
  - assert (E : startUrl = js "https://grok.com/c/42").
    { apply Ha; vm_compute; reflexivity. }
    exists startUrl. split; [exact Ht|]. split; [exact E|]. split; [exact Hf|].
    split.
    + pose proof (Hl (DidFinishLoad 0%nat) (or_introl eq_refl)) as X.
      rewrite E in X. exact X.
    + pose proof (Hl (DidFailLoad 0%nat) (or_intror eq_refl)) as X.
      rewrite E in X. exact X.
Defined.

(** C5: a focused window on an allowed page hands off; a minimized one is
    brought back. *)
Lemma second_instance_hand_off_witness :
  let url := js "https://grok.com/c/42" in
  let front := sampleWindow url true true false in
  let behind := sampleWindow url false true true in
  (result readRestoreUrl (exec (onSecondInstance UrlRef.parse) (sampleWorld front))
   = Normal (Some url)
   /\ trace (exec (onSecondInstance UrlRef.parse) (sampleWorld front)) = [AppQuit])
  /\ ((exists b', windows (exec (onSecondInstance UrlRef.parse) (sampleWorld behind))
                  !! 0%nat = Some b'
                  /\ destroyed b' = false /\ minimized b' = false
                  /\ visible b' = true /\ focused b' = true)
      /\ stateFile (exec (onSecondInstance UrlRef.parse) (sampleWorld behind)) = None).
Proof.
  intros url front behind. split.
  - destruct (second_instance_hand_off UrlRef.parse (sampleWorld front) 0%nat front)
      as [Hf _].
    + reflexivity.
    + repeat split.
    + destruct (Hf eq_refl) as (Ha & _ & Ht).
      split; [apply Ha; vm_compute; reflexivity|exact Ht].
  - destruct (second_instance_hand_off UrlRef.parse (sampleWorld behind) 0%nat behind)
      as [_ Hb].
    + reflexivity.
    + repeat split.
    + destruct (Hb eq_refl) as (Hw & Hs & _). split; [exact Hw|exact Hs].
Defined.

(** C6 on a URL with a quote, a control character and a lone surrogate,
    and on files that are not a record. *)
Lemma restore_state_round_trip_witness :
  let url := js "https://grok.com/?q=" ++ [34; 9; 55357; 92] in
  let w := startWorld (Some (js "{ not json")) in
  result readRestoreUrl (exec (writeRestoreUrl url) w) = Normal (Some url)
  /\ result readRestoreUrl (exec clearRestoreUrl (exec (writeRestoreUrl url) w))
     = Normal None
  /\ result readRestoreUrl (startWorld None) = Normal None
  /\ result readRestoreUrl w = Normal None
  /\ result readRestoreUrl
       (startWorld (Some (JSON_stringify (JObject [(js "restoreUrl", JNumber (js "5"))]))))
     = Normal None.
Proof.
  intros url w.
  destruct (restore_state_round_trip url w) as (H1 & H2 & _ & _ & H5 & _).
  split; [exact H1|]. split; [exact H2|]. split; [|split].
  - apply (restore_state_round_trip url (startWorld None)). reflexivity.
  - apply (H5 (js "{ not json")); vm_compute; reflexivity.
  - set (w2 := startWorld (Some (JSON_stringify
                 (JObject [(js "restoreUrl", JNumber (js "5"))])))).
    destruct (restore_state_round_trip url w2) as (_ & _ & _ & _ & _ & H6 & _).
    apply (H6 (JSON_stringify (JObject [(js "restoreUrl", JNumber (js "5"))]))
              (JObject [(js "restoreUrl", JNumber (js "5"))])).
    + reflexivity.
    + vm_compute; reflexivity.
    + intros s H. vm_compute in H. discriminate H.
Defined.

(** C7 at a plain-http URL, at a [mailto:] URL naming an allowed host and
    at a string that is not a URL. *)
Lemma shouldOpenExternally_sound_witness :
  (exists url, UrlRef.parse (js "http://grok.com/") = Some url /\ httpScheme url
               /\ isAllowed UrlRef.parse (js "http://grok.com/") = Normal false)
  /\ shouldOpenExternally UrlRef.parse (js "mailto:help@grok.com") = Normal false
  /\ shouldOpenExternally UrlRef.parse (js "not a url") = Normal false.
Proof.
  split; [|split].
  - apply (proj1 (shouldOpenExternally_sound UrlRef.parse (js "http://grok.com/"))).
    vm_compute; reflexivity.
  - apply (proj1 (proj2 (shouldOpenExternally_sound UrlRef.parse
                           (js "mailto:help@grok.com")))
             (mkURL (js "mailto:") [])).
    + vm_compute; reflexivity.
    + intros [H|H]; vm_compute in H; discriminate H.
  - apply (proj2 (proj2 (shouldOpenExternally_sound UrlRef.parse (js "not a url")))).
    vm_compute; reflexivity.
Defined.

(** C8 at an allowed URL, at a [mailto:] URL and at a string that is not
    a URL. *)
Lemma windowOpen_always_denied_witness :
  let w := sampleWorld (sampleWindow (js "https://grok.com/") true true false) in
  (result (windowOpenHandler UrlRef.parse (js "https://grok.com/share/1")) w
   = Normal deny
   /\ exec (windowOpenHandler UrlRef.parse (js "https://grok.com/share/1")) w
      = log_effect (OpenExternal (js "https://grok.com/share/1")) w)
  /\ exec (windowOpenHandler UrlRef.parse (js "mailto:help@grok.com")) w = w
  /\ exec (windowOpenHandler UrlRef.parse (js "not a url")) w = w.
Proof.
  intros w. split; [split|split].
  - apply (windowOpen_always_denied UrlRef.parse (js "https://grok.com/share/1") w).
  - apply (proj1 (proj2 (proj2 (windowOpen_always_denied UrlRef.parse
                                  (js "https://grok.com/share/1") w)))
             (mkURL (js "https:") (js "grok.com"))).
    + vm_compute; reflexivity.
    + right; reflexivity.
  - apply (proj1 (proj2 (proj2 (proj2 (windowOpen_always_denied UrlRef.parse
                                         (js "mailto:help@grok.com") w))))
             (mkURL (js "mailto:") [])).
    + vm_compute; reflexivity.
    + intros [H|H]; vm_compute in H; discriminate H.
  - apply (proj2 (proj2 (proj2 (proj2 (windowOpen_always_denied UrlRef.parse
                                         (js "not a url") w))))).
    vm_compute; reflexivity.
Defined.

(** C9 along a run that creates, closes and re-creates the window, with
    creation requests in between. *)
Lemma at_most_one_window_witness :
  let evs := [Ready; Activate; Ready; Destroy 0%nat; Ready; Closed 0%nat;
              Activate; Ready] in
  singleWindow (run UrlRef.parse (startWorld None) evs)
  /\ liveCount (run UrlRef.parse (startWorld None) evs) = 1%nat
  /\ length (windows (exec (createWindow UrlRef.parse)
                          (run UrlRef.parse (startWorld None) [Ready])))
     = 1%nat.
Proof.
  intros evs. split; [|split].
  - apply (proj1 (at_most_one_window UrlRef.parse)).
  - vm_compute; reflexivity.
  - rewrite (proj2 (proj2 (proj2 (proj2 (at_most_one_window UrlRef.parse)))))
      by (vm_compute; reflexivity).
    vm_compute; reflexivity.
Defined.


(* ================================================================== *)
(** * Further properties of the code *)
(* ================================================================== *)

(** ** The allow list *)

(** A host that matches a subdomain of an entry matches the entry. *)
Lemma hostMatches_parent (h q a : jsstring) :
  hostMatches h (q ++ js "." ++ a) = true -> hostMatches h a = true.
Proof.
  unfold hostMatches. rewrite !orb_true_iff, !strictEq_spec, !endsWith_spec.
  intros [->|[p ->]]; right.
  - exists q. reflexivity.
  - exists (p ++ js "." ++ q). rewrite <- !app_assoc. reflexivity.
Qed.

(** A subdomain of a host that matches an entry matches it. *)
Lemma hostMatches_subdomain (h p a : jsstring) :
  hostMatches h a = true -> hostMatches (p ++ js "." ++ h) a = true.
Proof.
  unfold hostMatches. rewrite !orb_true_iff, !strictEq_spec, !endsWith_spec.
  intros [->|[q ->]]; right.
  - exists p. reflexivity.
  - exists (p ++ js "." ++ q). rewrite <- !app_assoc. reflexivity.
Qed.

Lemma existsb_hostMatches_subdomain (h p : jsstring) (l : list jsstring) :
  existsb (hostMatches h) l = true ->
  existsb (hostMatches (p ++ js "." ++ h)) l = true.
Proof.
  rewrite !existsb_exists. intros (a & Ha & Hm).
  exists a. split; [exact Ha|apply hostMatches_subdomain, Hm].
Qed.

(** X1. The allow list is closed under subdomains: when [isAllowed]
    accepts a URL, it accepts every https URL whose host name is the host
    name of that URL behind a prefix and a dot. *)
Theorem isAllowed_subdomain (URL_new : jsstring -> option URL)
        (u v p : jsstring) (url url' : URL) :
  URL_new u = Some url -> isAllowed URL_new u = Normal true ->
  URL_new v = Some url' -> protocol url' = js "https:" ->
  hostname url' = p ++ js "." ++ hostname url ->
  isAllowed URL_new v = Normal true.
Proof.
  intros E Ha E' Hp Hh.
  rewrite (isAllowed_parsed _ _ _ E) in Ha.
  assert (H : strictEq (protocol url) (js "https:")
              && existsb (hostMatches (toLowerCase (hostname url)))
                         ALLOWED_HOSTS = true) by congruence.
  apply andb_true_iff in H as [_ H].
  rewrite (isAllowed_parsed _ _ _ E'), Hp, Hh, !toLowerCase_app.
  change (toLowerCase (js ".")) with (js ".").
  rewrite (existsb_hostMatches_subdomain _ _ _ H). reflexivity.
Qed.


(** Finds the entry of [main.js] that covers an entry of the second
    copy: the entry itself, or the entry it is a subdomain of. *)
Ltac covered :=
  first
    [ match goal with
      | |- exists a, _ /\ (?x = a \/ _) =>
          exists x; split; [cbn; tauto|left; reflexivity]
      end
    | exists (js "x.ai"); split; [cbn; tauto|];
      right; first [ exists (js "accounts"); reflexivity
                   | exists (js "api"); reflexivity
                   | exists (js "console"); reflexivity
                   | exists (js "docs"); reflexivity ]
    | exists (js "cloudflare.com"); split; [cbn; tauto|];
      right; exists (js "challenges"); reflexivity
    | exists (js "xai.com"); split; [cbn; tauto|];
      right; exists (js "api.grok"); reflexivity
    | exists (js "grokipedia.com"); split; [cbn; tauto|];
      right; exists (js "auth"); reflexivity
    | exists (js "grokusercontent.com"); split; [cbn; tauto|];
      right; exists (js "auth"); reflexivity ].

(** Every entry of the second copy's list is an entry of the list of
    [main.js] or a subdomain of one. *)
Lemma Part000_entry_covered (a' : jsstring) :
  In a' Part000.ALLOWED_HOSTS ->
  exists a, In a ALLOWED_HOSTS /\ (a' = a \/ exists q, a' = q ++ js "." ++ a).
Proof.
  intros H. unfold Part000.ALLOWED_HOSTS in H. cbn [In] in H.
  repeat (destruct H as [<-|H]; [covered|]). contradiction.
Qed.

(** X2. The allow list of [main.js] covers the list of the second copy:
    every string that [isAllowed] of the second copy accepts, [isAllowed]
    of [main.js] accepts. *)
Theorem Part000_isAllowed_included (URL_new : jsstring -> option URL)
        (u : jsstring) :
  Part000.isAllowed URL_new u = Normal true ->
  isAllowed URL_new u = Normal true.
Proof.
  unfold Part000.isAllowed, isAllowed, newURL.
  destruct (URL_new u) as [url|]; [|discriminate]. cbn [bindC tryC].
  destruct (strictEq (protocol url) (js "https:")); cbn [negb]; [|discriminate].
  cbn [tryC]. intros H.
  assert (H' : existsb (hostMatches (toLowerCase (hostname url)))
                 Part000.ALLOWED_HOSTS = true) by congruence.
  apply existsb_exists in H' as (a' & Ha' & Hm).
  destruct (Part000_entry_covered a' Ha') as (a & Ha & [->|[q ->]]).
  - f_equal. apply existsb_exists. exists a. auto.
  - f_equal. apply existsb_exists. exists a. split; [exact Ha|].
    exact (hostMatches_parent _ _ _ Hm).
Qed.

Section NavFacts.

Variable URL_new : jsstring -> option URL.

Lemma shouldOpenExternally_total (u : jsstring) :
  exists b, shouldOpenExternally URL_new u = Normal b.
Proof.
  destruct (URL_new u) as [url|] eqn:E.
  - eexists; apply shouldOpenExternally_parsed; eassumption.
  - eexists; apply shouldOpenExternally_unparsed; assumption.
Qed.

(** [shouldOpenExternally] answers false for the URLs that are allowed,
    that have another scheme than http and https, or that do not parse. *)
Lemma shouldOpenExternally_false_iff (u : jsstring) :
  shouldOpenExternally URL_new u = Normal false <->
  isAllowed URL_new u = Normal true
  \/ URL_new u = None
  \/ exists url, URL_new u = Some url /\ ~ httpScheme url.
Proof.
  destruct (URL_new u) as [url|] eqn:E.
  - rewrite (shouldOpenExternally_parsed _ _ _ E), (isAllowed_parsed _ _ _ E).
    fold (allowedUrl url).
    destruct (isHttpUrl url) eqn:Hh, (allowedUrl url) eqn:Ha; cbn [andb negb].
    + split; [left; reflexivity|reflexivity].
    + split; [discriminate|].
      intros [H|[H|(url' & H & Hn)]]; try discriminate.
      injection H as <-. exfalso. apply Hn, isHttpUrl_spec, Hh.
    + split; [left; reflexivity|reflexivity].
    + split; [|reflexivity]. intros _. right; right. exists url.
      split; [reflexivity|]. intros H. apply isHttpUrl_spec in H. congruence.
  - rewrite (shouldOpenExternally_unparsed _ _ E). split; [|reflexivity].
    intros _. right; left; reflexivity.
Qed.

End NavFacts.

(** X3. The listeners of will-navigate and will-redirect never throw.
    They prevent the navigation and hand the URL to [shell.openExternal]
    exactly when [shouldOpenExternally] holds of it; otherwise they give
    back the event as they got it and change nothing.  The second case is
    that of a URL that is allowed, that does not parse, or whose scheme is
    neither http nor https. *)
Theorem navigation_listeners_decide (URL_new : jsstring -> option URL)
        (e : NavEvent) (u : jsstring) (w : World) :
  exists external,
    shouldOpenExternally URL_new u = Normal external
    /\ onWillNavigate URL_new e u w
       = (Normal (if external then mkNavEvent true else e),
          if external then log_effect (OpenExternal u) w else w)
    /\ onWillRedirect URL_new e u w
       = (Normal (if external then mkNavEvent true else e),
          if external then log_effect (OpenExternal u) w else w)
    /\ (external = false <->
        isAllowed URL_new u = Normal true
        \/ URL_new u = None
        \/ exists url, URL_new u = Some url /\ ~ httpScheme url).
Proof.
  destruct (shouldOpenExternally_total URL_new u) as [x Hx].
  exists x. split; [exact Hx|].
  rewrite onWillNavigate_run, onWillRedirect_run, Hx.
  split; [destruct x; reflexivity|]. split; [destruct x; reflexivity|].
  rewrite <- shouldOpenExternally_false_iff, Hx.
  split; [intros ->; reflexivity|congruence].
Qed.

Section CurrentUrl.

Variable URL_new : jsstring -> option URL.

Lemma safeGetCurrentUrl_gone (w : World) :
  windowGone w -> safeGetCurrentUrl URL_new w = (Normal None, w).
Proof.
  intros [H|(id & b & H & Hb & Hd)]; unfold safeGetCurrentUrl, tryM;
    rewrite (bindM_run _ _ _ _ _ (getsM_win _ _ H)); [reflexivity|].
  rewrite (bindM_run _ _ _ _ _ (win_isDestroyed_run _ _ _ Hb)), Hd. reflexivity.
Qed.

(** [win] names no window of the host: the method call throws and the
    [catch] answers null. *)
Lemma safeGetCurrentUrl_dangling (w : World) (id : nat) :
  win w = Some id -> windows w !! id = None ->
  safeGetCurrentUrl URL_new w = (Normal None, w).
Proof.
  intros H Hb. unfold safeGetCurrentUrl, tryM.
  rewrite (bindM_run _ _ _ _ _ (getsM_win _ _ H)).
  unfold win_isDestroyed, bindM, getWindow. rewrite Hb. reflexivity.
Qed.

End CurrentUrl.

(** X4. [safeGetCurrentUrl] never throws and changes nothing.  It
    answers a URL exactly when [win] names a live window whose page is
    that URL, is not the empty string and is accepted by [isAllowed]; in
    every other case it answers null. *)
Theorem safeGetCurrentUrl_sound (URL_new : jsstring -> option URL) (w : World) :
  exists r,
    safeGetCurrentUrl URL_new w = (Normal r, w)
    /\ forall u,
         r = Some u <->
         exists id b, liveAt w id b /\ currentURL b = u /\ u <> []
                      /\ isAllowed URL_new u = Normal true.
Proof.
  destruct (winIsLive_cases w) as [(id & b & L)|[Hg|(id & Hw & Hb)]].
  - rewrite (safeGetCurrentUrl_run _ _ _ _ L). eexists. split; [reflexivity|].
    intros u. split.
    + destruct (currentURL b) as [|c t] eqn:Eu; cbn [truthy]; [discriminate|].
      destruct (isAllowed URL_new (c :: t)) as [[|]|] eqn:Ha; try discriminate.
      intros H. injection H as <-. exists id, b.
      split; [exact L|]. split; [exact Eu|]. split; [discriminate|exact Ha].
    + intros (id' & b' & L' & Hu & Hne & Ha).
      destruct L as (H1 & H2 & H3), L' as (H1' & H2' & H3').
      assert (id' = id) by congruence. subst id'.
      assert (b' = b) by congruence. subst b'.
      rewrite Hu, Ha. destruct u; [contradiction|reflexivity].
  - rewrite (safeGetCurrentUrl_gone _ _ Hg). eexists. split; [reflexivity|].
    intros u. split; [discriminate|].
    intros (id & b & (H1 & H2 & H3) & _).
    destruct Hg as [Hg|(id' & b' & G1 & G2 & G3)]; [congruence|].
    assert (id' = id) by congruence. subst id'. congruence.
  - rewrite (safeGetCurrentUrl_dangling _ _ _ Hw Hb). eexists.
    split; [reflexivity|]. intros u. split; [discriminate|].
    intros (id' & b & (H1 & H2 & H3) & _). congruence.
Qed.

(** X5. The request filter and the navigation listeners agree on every
    URL that parses: the filter cancels a request exactly when
    [shouldOpenExternally] holds of its URL or the URL does not parse, and
    lets it through exactly when the URL parses and
    [shouldOpenExternally] does not hold.  A URL that does not parse is
    canceled by the filter and left alone by the navigation listeners. *)
Theorem filter_and_navigation_agree (URL_new : jsstring -> option URL)
        (u : jsstring) (w : World) :
  (result (onBeforeRequest URL_new u) w = Normal (mkResponse true)
   <-> shouldOpenExternally URL_new u = Normal true \/ URL_new u = None)
  /\ (result (onBeforeRequest URL_new u) w = Normal (mkResponse false)
      <-> shouldOpenExternally URL_new u = Normal false /\ URL_new u <> None).
Proof.
  unfold result. rewrite onBeforeRequest_run.
  destruct (URL_new u) as [url|] eqn:E.
  - rewrite (shouldOpenExternally_parsed _ _ _ E). fold (allowedUrl url).
    destruct (isHttpUrl url), (allowedUrl url); cbn [fst andb negb];
      intuition (try discriminate; try congruence).
  - rewrite (shouldOpenExternally_unparsed _ _ E). cbn [fst].
    intuition (try discriminate; try congruence).
Qed.

(** ** What the events leave behind: host calls and the state file *)

#[global] Instance adds_frame (P : Effect -> Prop) : Frame (adds P).
Proof.
  split.
  - intros a b c (x & Hx & Px) (y & Hy & Py). exists (x ++ y).
    split; [rewrite Hy, Hx, app_assoc; reflexivity|].
    apply Forall_app; split; assumption.
  - intros w w' _ Ht. exists []. split; [rewrite Ht, app_nil_r; reflexivity|].
    constructor.
Qed.

#[global] Instance keptOrDeleted_frame : Frame keptOrDeleted.
Proof.
  split.
  - intros a b c [H1|H1] [H2|H2]; unfold keptOrDeleted;
      first [left; congruence | right; congruence].
  - intros w w' H _. left; exact H.
Qed.

#[global] Instance fileSafe_frame (URL_new : jsstring -> option URL) :
  Frame (fileSafe URL_new).
Proof.
  split.
  - intros a b c H1 [[H2|H2]|H2].
    + destruct H1 as [[H1|H1]|H1].
      * left; left; congruence.
      * left; right; congruence.
      * right. rewrite H2. exact H1.
    + left; right; exact H2.
    + right; exact H2.
  - intros w w' H _. left; left; exact H.
Qed.

Create HintDb keeps discriminated.

Section Frames.

Context (R : World -> World -> Prop) `{!Frame R}.

Lemma frame_refl (w : World) : R w w.
Proof. apply frame_silent; reflexivity. Qed.

Lemma keeps_ret {A : Type} (a : A) : keeps R (retM a).
Proof. intros w; apply frame_refl. Qed.

Lemma keeps_throw {A : Type} (e : Exn) : keeps R (@throwM A e).
Proof. intros w; apply frame_refl. Qed.

Lemma keeps_gets {A : Type} (f : World -> A) : keeps R (getsM f).
Proof. intros w; apply frame_refl. Qed.

Lemma keeps_liftC {A : Type} (c : Completion A) : keeps R (liftC c).
Proof. intros w; apply frame_refl. Qed.

Lemma keeps_bind {A B : Type} (c : M A) (k : A -> M B) :
  keeps R c -> (forall a, keeps R (k a)) -> keeps R (bindM c k).
Proof.
  intros Hc Hk w. specialize (Hc w). unfold exec, bindM in *.
  destruct (c w) as [[a|e] w1]; cbn [snd] in *; [|exact Hc].
  exact (frame_trans _ _ _ Hc (Hk a w1)).
Qed.

Lemma keeps_try {A : Type} (body handler : M A) :
  keeps R body -> keeps R handler -> keeps R (tryM body handler).
Proof.
  intros Hb Hh w. specialize (Hb w). unfold exec, tryM in *.
  destruct (body w) as [[a|e] w1]; cbn [snd] in *; [exact Hb|].
  exact (frame_trans _ _ _ Hb (Hh w1)).
Qed.

Lemma keeps_when (c : bool) (body : M unit) :
  keeps R body -> keeps R (whenM c body).
Proof. intros Hb. destruct c; [exact Hb|apply keeps_ret]. Qed.

Lemma keeps_silent (f : World -> World) :
  (forall w, stateFile (f w) = stateFile w) ->
  (forall w, trace (f w) = trace w) ->
  keeps R (modifyM f).
Proof. intros H1 H2 w. apply frame_silent; [apply H1|apply H2]. Qed.

Lemma keeps_updWindow (id : nat) (f : BrowserWindow -> BrowserWindow) :
  keeps R (updWindow id f).
Proof. apply keeps_silent; reflexivity. Qed.

Lemma keeps_getWindow (id : nat) : keeps R (getWindow id).
Proof.
  intros w. unfold exec, getWindow.
  destruct (windows w !! id); apply frame_refl.
Qed.

Lemma keeps_liveWindow (id : nat) : keeps R (liveWindow id).
Proof.
  apply keeps_bind; [apply keeps_getWindow|].
  intros b. destruct (destroyed b); [apply keeps_throw|apply keeps_ret].
Qed.

Lemma keeps_new_BrowserWindow : keeps R new_BrowserWindow.
Proof. intros w. apply frame_silent; reflexivity. Qed.

Lemma keeps_readRestoreUrl : keeps R readRestoreUrl.
Proof.
  intros w. unfold exec. rewrite readRestoreUrl_stored. apply frame_refl.
Qed.

Lemma keeps_whenLive (id : nat) (body : M unit) :
  keeps R body -> keeps R (whenLive id body).
Proof.
  intros Hb w. unfold exec, whenLive.
  destruct (windows w !! id) as [b|]; [|apply frame_refl].
  destruct (destroyed b); [apply frame_refl|apply Hb].
Qed.

End Frames.

#[global] Hint Resolve keeps_ret keeps_throw keeps_gets keeps_liftC keeps_when
  keeps_updWindow keeps_getWindow keeps_liveWindow keeps_new_BrowserWindow
  keeps_readRestoreUrl keeps_try : keeps.

(** Solves the frame of a sequence of host calls. *)
Ltac keeps_tac :=
  repeat first
    [ match goal with |- forall _, _ => intro end
    | exact _
    | solve [auto with keeps]
    | apply keeps_bind
    | apply keeps_try
    | apply keeps_when
    | apply keeps_silent; [exact _ | reflexivity ..]
    | match goal with
      | |- keeps _ (match ?x with _ => _ end) => destruct x
      | |- keeps _ (if ?x then _ else _) => destruct x
      end ].

Section Events.

Variable URL_new : jsstring -> option URL.
Context (R : World -> World -> Prop) `{!Frame R}.

(** The relation holds across every host call but [app.quit()] and a
    call of [shell.openExternal] with something else than an http or
    https URL, and across the deletion of the state file. *)
Hypothesis R_log : forall e w,
  httpTarget URL_new e -> notQuit e -> R w (log_effect e w).
Hypothesis R_delete : forall w, R w (set_stateFile None w).

Lemma keeps_effect (e : Effect) :
  httpTarget URL_new e -> notQuit e -> keeps R (effectM e).
Proof. intros H1 H2 w. apply R_log; assumption. Qed.

Lemma keeps_win_focus (id : nat) : keeps R (win_focus id).
Proof.
  unfold win_focus. keeps_tac. apply keeps_effect; [exact I|discriminate].
Qed.

Lemma keeps_win_show (id : nat) : keeps R (win_show id).
Proof.
  unfold win_show. keeps_tac. apply keeps_effect; [exact I|discriminate].
Qed.

Lemma keeps_win_restore (id : nat) : keeps R (win_restore id).
Proof.
  unfold win_restore. keeps_tac. apply keeps_effect; [exact I|discriminate].
Qed.

Lemma keeps_clearRestoreUrl : keeps R clearRestoreUrl.
Proof. intros w. unfold exec. rewrite clearRestoreUrl_run. apply R_delete. Qed.

Lemma keeps_onBeforeRequest (u : jsstring) :
  keeps R (onBeforeRequest URL_new u).
Proof.
  intros w. unfold exec. rewrite onBeforeRequest_run.
  destruct (URL_new u) as [url|]; [|apply frame_refl; exact _].
  destruct (isHttpUrl url); [|apply frame_refl; exact _].
  destruct (allowedUrl url); [apply frame_refl; exact _|].
  apply R_log; [exact I|discriminate].
Qed.

Lemma keeps_windowOpenHandler (u : jsstring) :
  keeps R (windowOpenHandler URL_new u).
Proof.
  intros w. unfold exec. rewrite windowOpenHandler_run. cbn [snd].
  destruct (URL_new u) as [url|] eqn:E; [|apply frame_refl; exact _].
  destruct (isHttpUrl url) eqn:Hh; [|apply frame_refl; exact _].
  apply R_log; [|discriminate].
  exists url. split; [exact E|apply isHttpUrl_spec, Hh].
Qed.

Lemma shouldOpenExternally_http (u : jsstring) :
  shouldOpenExternally URL_new u = Normal true ->
  httpTarget URL_new (OpenExternal u).
Proof.
  intros H. destruct (URL_new u) as [url|] eqn:E.
  - rewrite (shouldOpenExternally_parsed _ _ _ E) in H.
    exists url. split; [exact E|]. apply isHttpUrl_spec.
    destruct (isHttpUrl url); [reflexivity|discriminate].
  - rewrite (shouldOpenExternally_unparsed _ _ E) in H. discriminate.
Qed.

Lemma keeps_onWillNavigate (e : NavEvent) (u : jsstring) :
  keeps R (onWillNavigate URL_new e u).
Proof.
  intros w. unfold exec. rewrite onWillNavigate_run.
  destruct (shouldOpenExternally URL_new u) as [[|]|] eqn:H;
    try (apply frame_refl; exact _).
  apply R_log; [apply shouldOpenExternally_http, H|discriminate].
Qed.

Lemma keeps_onWillRedirect (e : NavEvent) (u : jsstring) :
  keeps R (onWillRedirect URL_new e u).
Proof.
  intros w. unfold exec. rewrite onWillRedirect_run.
  destruct (shouldOpenExternally URL_new u) as [[|]|] eqn:H;
    try (apply frame_refl; exact _).
  apply R_log; [apply shouldOpenExternally_http, H|discriminate].
Qed.

Lemma keeps_onNotificationClick : keeps R onNotificationClick.
Proof.
  pose proof keeps_win_focus. pose proof keeps_win_show.
  pose proof keeps_win_restore.
  unfold onNotificationClick, win_isMinimized. keeps_tac.
Qed.

Lemma keeps_createWindow : keeps R (createWindow URL_new).
Proof.
  pose proof keeps_win_focus.
  unfold createWindow, winIsLive, win_isDestroyed, once_, on_, addListener,
    win_setMenuBarVisibility, webContents_setWindowOpenHandler, win_loadURL.
  keeps_tac; apply keeps_effect; first [exact I|discriminate].
Qed.

Lemma keeps_onActivate : keeps R (onActivate URL_new).
Proof.
  pose proof keeps_createWindow. unfold onActivate. keeps_tac.
Qed.

Lemma keeps_runCallback (cb : Callback) (e : NavEvent) (url : jsstring) :
  keeps R (runCallback URL_new cb e url).
Proof.
  pose proof keeps_clearRestoreUrl. pose proof keeps_onWillNavigate.
  pose proof keeps_onWillRedirect.
  destruct cb; cbn [runCallback]; unfold onClosed; keeps_tac.
  apply keeps_effect; [exact I|discriminate].
Qed.

Lemma keeps_emitTo (id : nat) (ls : list Listener) :
  forall e url, keeps R (emitTo URL_new id ls e url).
Proof.
  pose proof keeps_runCallback.
  induction ls as [|l ls IH]; intros e url; cbn [emitTo]; keeps_tac.
Qed.

Lemma keeps_emit (id : nat) (ev : EventName) (url : jsstring) :
  keeps R (emit URL_new id ev url).
Proof. pose proof keeps_emitTo. unfold emit. keeps_tac. Qed.

(** Every event but [second-instance] and [window-all-closed]. *)
Lemma keeps_dispatch (ev : HostEvent) :
  ev <> SecondInstance -> ev <> WindowAllClosed ->
  keeps R (dispatch URL_new ev).
Proof.
  pose proof keeps_createWindow. pose proof keeps_onActivate.
  pose proof keeps_emit. pose proof keeps_windowOpenHandler.
  pose proof keeps_onBeforeRequest. pose proof keeps_onNotificationClick.
  intros Hs Hc.
  destruct ev; cbn [dispatch]; try congruence;
    try (apply keeps_whenLive; [exact _|]); try solve [keeps_tac].
  intros w. unfold exec.
  destruct (windows w !! id) as [b|]; [|apply frame_refl; exact _].
  destruct (destroyed b && negb (closedEmitted b));
    [|apply frame_refl; exact _].
  assert (Hq : keeps R (updWindow id (set_closedEmitted true) ;;;
                        emit URL_new id closed [] ;;; retM tt)%M) by keeps_tac.
  exact (Hq w).
Qed.

Lemma keeps_onWindowAllClosed :
  (forall w, R w (log_effect AppQuit w)) -> keeps R onWindowAllClosed.
Proof.
  intros Hq. unfold onWindowAllClosed, app_quit. keeps_tac.
Qed.

Lemma keeps_onSecondInstance :
  (forall w, R w (log_effect AppQuit w)) ->
  (forall v w, R w (set_stateFile v w)) ->
  keeps R (onSecondInstance URL_new).
Proof.
  intros Hq Hw. pose proof keeps_win_focus. pose proof keeps_win_show.
  pose proof keeps_win_restore.
  assert (Hwr : forall u, keeps R (writeRestoreUrl u)).
  { intros u w. unfold exec. rewrite writeRestoreUrl_run. apply Hw. }
  assert (Hs : keeps R (safeGetCurrentUrl URL_new)).
  { unfold safeGetCurrentUrl, win_isDestroyed, webContents_getURL. keeps_tac. }
  unfold onSecondInstance, win_isDestroyed, win_isFocused, win_isVisible,
    win_isMinimized, app_quit.
  keeps_tac; apply keeps_effect; [exact I|discriminate].
Qed.

End Events.

Lemma adds_log (P : Effect -> Prop) (e : Effect) (w : World) :
  P e -> adds P w (log_effect e w).
Proof.
  intros H. exists [e]. split; [reflexivity|].
  constructor; [exact H|constructor].
Qed.

Lemma adds_silent (P : Effect -> Prop) (w w' : World) :
  trace w' = trace w -> adds P w w'.
Proof.
  intros H. exists []. split; [rewrite H, app_nil_r; reflexivity|constructor].
Qed.

Lemma frame_run (URL_new : jsstring -> option URL)
      (R : World -> World -> Prop) `{!Frame R} :
  (forall w ev, R w (step URL_new w ev)) ->
  forall evs w, R w (run URL_new w evs).
Proof.
  intros Hs. induction evs as [|ev evs IH]; intros w; cbn [run fold_left].
  - apply frame_refl; exact _.
  - exact (frame_trans _ _ _ (Hs w ev) (IH _)).
Qed.

Section Steps.

Variable URL_new : jsstring -> option URL.

Lemma onSecondInstance_dangling (w : World) (id : nat) :
  win w = Some id -> windows w !! id = None ->
  onSecondInstance URL_new w = (Throw TypeError, w).
Proof.
  intros H Hb. unfold onSecondInstance.
  rewrite (bindM_run _ _ _ _ _ (getsM_win _ _ H)).
  unfold win_isDestroyed, bindM, getWindow. rewrite Hb. reflexivity.
Qed.

Lemma http_step (w : World) (ev : HostEvent) :
  adds (httpTarget URL_new) w (step URL_new w ev).
Proof.
  assert (Hl : forall e w, httpTarget URL_new e -> notQuit e ->
                           adds (httpTarget URL_new) w (log_effect e w))
    by (intros; apply adds_log; assumption).
  assert (Hd : forall w, adds (httpTarget URL_new) w (set_stateFile None w))
    by (intros; apply adds_silent; reflexivity).
  assert (Hq : forall w, adds (httpTarget URL_new) w (log_effect AppQuit w))
    by (intros; apply adds_log; exact I).
  assert (Hw : forall v w, adds (httpTarget URL_new) w (set_stateFile v w))
    by (intros; apply adds_silent; reflexivity).
  unfold step.
  destruct ev;
    first [ exact (keeps_onSecondInstance URL_new (adds (httpTarget URL_new))
                     Hl Hq Hw w)
          | exact (keeps_onWindowAllClosed (adds (httpTarget URL_new)) Hq w)
          | apply (keeps_dispatch URL_new (adds (httpTarget URL_new)) Hl Hd);
            discriminate ].
Qed.

Lemma quiet_step (w : World) (ev : HostEvent) :
  ev <> SecondInstance -> ev <> WindowAllClosed ->
  adds notQuit w (step URL_new w ev).
Proof.
  intros H1 H2. unfold step.
  apply (keeps_dispatch URL_new (adds notQuit)); try assumption.
  - intros; apply adds_log; assumption.
  - intros; apply adds_silent; reflexivity.
Qed.

Lemma file_step (w : World) (ev : HostEvent) :
  ev <> SecondInstance -> keptOrDeleted w (step URL_new w ev).
Proof.
  intros H1. unfold step.
  assert (Hl : forall e w, httpTarget URL_new e -> notQuit e ->
                           keptOrDeleted w (log_effect e w))
    by (intros; left; reflexivity).
  assert (Hd : forall w, keptOrDeleted w (set_stateFile None w))
    by (intros; right; reflexivity).
  assert (Hq : forall w, keptOrDeleted w (log_effect AppQuit w))
    by (intros; left; reflexivity).
  destruct ev;
    first [ congruence
          | exact (keeps_onWindowAllClosed keptOrDeleted Hq w)
          | apply (keeps_dispatch URL_new keptOrDeleted Hl Hd); discriminate ].
Qed.

(** What [second-instance] writes is the record of an allowed URL. *)
Lemma file_secondInstance (w : World) :
  fileSafe URL_new w (step URL_new w SecondInstance).
Proof.
  unfold step, exec. cbn [dispatch].
  destruct (winIsLive_cases w) as [(id & b & L)|[Hg|(id & Hw & Hb)]].
  - destruct (inFront b) eqn:Hf.
    + rewrite (onSecondInstance_front _ _ _ _ L Hf). cbn [snd].
      destruct (truthy (currentURL b)); [|left; left; reflexivity].
      destruct (isAllowed URL_new (currentURL b)) as [[|]|] eqn:Ha;
        try (left; left; reflexivity).
      right. exists (currentURL b), (clock w). split; [reflexivity|exact Ha].
    + destruct (onSecondInstance_behind URL_new _ _ _ L Hf)
        as (w' & b' & -> & _ & _ & _ & _ & _ & _ & Hs & _).
      left; left; exact Hs.
  - rewrite (onSecondInstance_gone _ _ Hg). left; left; reflexivity.
  - rewrite (onSecondInstance_dangling _ _ Hw Hb). left; left; reflexivity.
Qed.

Lemma fileSafe_step (w : World) (ev : HostEvent) :
  fileSafe URL_new w (step URL_new w ev).
Proof.
  destruct ev;
    first [ apply file_secondInstance
          | left; apply file_step; discriminate ].
Qed.

(** [second-instance] asks to quit only from a window in front. *)
Lemma quit_secondInstance (w : World) :
  adds notQuit w (step URL_new w SecondInstance)
  \/ exists id b, liveAt w id b /\ inFront b = true.
Proof.
  unfold step, exec. cbn [dispatch].
  destruct (winIsLive_cases w) as [(id & b & L)|[Hg|(id & Hw & Hb)]].
  - destruct (inFront b) eqn:Hf; [right; exists id, b; auto|left].
    destruct (onSecondInstance_behind URL_new _ _ _ L Hf)
      as (w' & b' & -> & _ & _ & _ & _ & _ & _ & _ & added & Ht & Hn).
    exists added. split; [exact Ht|]. apply List.Forall_forall.
    intros e He ->. exact (Hn He).
  - left. rewrite (onSecondInstance_gone _ _ Hg).
    apply adds_silent; reflexivity.
  - left. rewrite (onSecondInstance_dangling _ _ Hw Hb).
    apply adds_silent; reflexivity.
Qed.

End Steps.

(** X6. Whatever the events, from any state: every call of
    [shell.openExternal] that the process makes has for argument a string
    that parses as a URL of scheme http or https. *)
Theorem openExternal_only_http (URL_new : jsstring -> option URL)
        (w : World) (evs : list HostEvent) :
  adds (httpTarget URL_new) w (run URL_new w evs).
Proof. apply frame_run; [exact _|apply http_step]. Qed.

(** X7. [app.quit()] is called by two listeners only.  An event other
    than second-instance and window-all-closed adds no [app.quit()];
    window-all-closed adds exactly one, except on macOS, where it adds
    nothing; second-instance adds one only when [win] names a live window
    that is focused, visible and not minimized. *)
Theorem quit_only_when_asked (URL_new : jsstring -> option URL) (w : World) :
  (forall ev, ev <> SecondInstance -> ev <> WindowAllClosed ->
              adds notQuit w (step URL_new w ev))
  /\ trace (step URL_new w WindowAllClosed)
     = trace w ++ (if isDarwin w then [] else [AppQuit])
  /\ (adds notQuit w (step URL_new w SecondInstance)
      \/ exists id b, liveAt w id b /\ inFront b = true).
Proof.
  split; [intros ev; apply quiet_step|]. split; [|apply quit_secondInstance].
  unfold step, exec, dispatch, onWindowAllClosed.
  rewrite (bindM_run _ _ w w (isDarwin w)) by reflexivity.
  destruct (isDarwin w); cbn; [rewrite app_nil_r|]; reflexivity.
Qed.

(** X8. The state file is written by the listener of second-instance
    only, and only with the record of an allowed URL: every other event
    leaves the file as it is or deletes it, and after any sequence of
    events the file is what it was, is gone, or holds the record of a URL
    that [isAllowed] accepts. *)
Theorem restore_file_discipline (URL_new : jsstring -> option URL) (w : World) :
  (forall ev, ev <> SecondInstance -> keptOrDeleted w (step URL_new w ev))
  /\ (forall evs, fileSafe URL_new w (run URL_new w evs)).
Proof.
  split; [intros ev; apply file_step|].
  intros evs. apply frame_run; [exact _|apply fileSafe_step].
Qed.

(** ** Bringing the window to the front *)

Lemma onlyWindow_refl (id : nat) (w : World) : onlyWindow id w w.
Proof. repeat split. Qed.

Lemma onlyWindow_trans (id : nat) (a b c : World) :
  onlyWindow id a b -> onlyWindow id b c -> onlyWindow id a c.
Proof.
  intros (A1 & A2 & A3 & A4 & A5 & A6 & A7) (B1 & B2 & B3 & B4 & B5 & B6 & B7).
  repeat split; try congruence.
  intros i Hi. rewrite (B7 i Hi). apply A7, Hi.
Qed.

(** A method of the live window [id]: the window is updated, the call
    is recorded, and nothing else changes. *)
Lemma method_step (w : World) (id : nat) (b : BrowserWindow)
      (f : BrowserWindow -> BrowserWindow) (e : Effect) :
  windows w !! id = Some b -> destroyed b = false ->
  exists w',
    bindM (liveWindow id)
          (fun _ => bindM (updWindow id f) (fun _ => effectM e)) w
    = (Normal tt, w')
    /\ windows w' !! id = Some (f b)
    /\ trace w' = trace w ++ [e]
    /\ onlyWindow id w w'.
Proof.
  intros Hb Hd. eexists. split; [exact (win_method_run _ _ _ _ _ Hb Hd)|].
  split; [exact (lookup_updated _ _ _ f Hb)|]. split; [reflexivity|].
  repeat split.
  - cbn [windows log_effect set_windows]. apply length_alter.
  - intros i Hi. cbn [windows log_effect set_windows].
    apply list_lookup_alter_ne. congruence.
Qed.

(** [if (win.isMinimized()) win.restore();] *)
Lemma restore_step (w : World) (id : nat) (b : BrowserWindow) :
  windows w !! id = Some b -> destroyed b = false ->
  exists w' b',
    whenM (minimized b) (win_restore id) w = (Normal tt, w')
    /\ windows w' !! id = Some b'
    /\ destroyed b' = false /\ minimized b' = false
    /\ visible b' = visible b /\ currentURL b' = currentURL b
    /\ trace w' = trace w ++ (if minimized b then [WinRestore id] else [])
    /\ onlyWindow id w w'.
Proof.
  intros Hb Hd. destruct (minimized b) eqn:Em; cbn [whenM].
  - destruct (method_step w id b (set_minimized false) (WinRestore id) Hb Hd)
      as (w' & R & B & T & O).
    exists w', (set_minimized false b). repeat split; try assumption; apply O.
  - exists w, b. repeat split; try assumption.
    symmetry; apply app_nil_r.
Qed.

Section Raise.

Variable URL_new : jsstring -> option URL.

Lemma onNotificationClick_live (w : World) (id : nat) (b : BrowserWindow) :
  liveAt w id b ->
  exists w' b',
    onNotificationClick w = (Normal tt, w')
    /\ windows w' !! id = Some b'
    /\ destroyed b' = false /\ minimized b' = false
    /\ visible b' = true /\ focused b' = true
    /\ currentURL b' = currentURL b
    /\ trace w' = trace w ++ (if minimized b then [WinRestore id] else [])
                          ++ [WinShow id; WinFocus id]
    /\ onlyWindow id w w'.
Proof.
  intros (H & Hb & Hd). unfold onNotificationClick.
  rewrite (bindM_run _ _ _ _ _ (getsM_win _ _ H)).
  unfold win_isMinimized.
  rewrite (bindM_run _ _ _ _ _ (liveWindow_get _ _ _ _ Hb Hd)).
  destruct (restore_step w id b Hb Hd)
    as (w1 & b1 & R1 & B1 & D1 & M1 & V1 & U1 & T1 & O1).
  rewrite (bindM_run _ _ _ _ _ R1).
  destruct (method_step w1 id b1
              (fun b => set_focused true (set_visible true b))
              (WinShow id) B1 D1) as (w2 & R2 & B2 & T2 & O2).
  change (win_show id w1 = (Normal tt, w2)) in R2.
  rewrite (bindM_run _ _ _ _ _ R2).
  destruct (method_step w2 id _ (set_focused true) (WinFocus id) B2 D1)
    as (w3 & R3 & B3 & T3 & O3).
  change (win_focus id w2 = (Normal tt, w3)) in R3.
  assert (O : onlyWindow id w w3).
  { eapply onlyWindow_trans; [|exact O3].
    eapply onlyWindow_trans; [exact O1|exact O2]. }
  exists w3, (set_focused true (set_focused true (set_visible true b1))).
  split; [exact R3|]. split; [exact B3|].
  split; [exact D1|]. split; [exact M1|]. split; [reflexivity|].
  split; [reflexivity|]. split; [exact U1|]. split; [|exact O].
  rewrite T3, T2, T1, <- !app_assoc. reflexivity.
Qed.

Lemma onNotificationClick_gone (w : World) :
  windowGone w -> onNotificationClick w = (Throw TypeError, w).
Proof.
  intros [H|(id & b & H & Hb & Hd)]; unfold onNotificationClick;
    rewrite (bindM_run _ _ _ _ _ (getsM_win _ _ H)); [reflexivity|].
  unfold win_isMinimized, bindM. rewrite (liveWindow_destroyed _ _ _ Hb Hd).
  reflexivity.
Qed.

(** [if (!win.isVisible()) win.show();] *)
Lemma show_step (w : World) (id : nat) (b : BrowserWindow) :
  windows w !! id = Some b -> destroyed b = false ->
  exists w' b',
    whenM (negb (visible b)) (win_show id) w = (Normal tt, w')
    /\ windows w' !! id = Some b'
    /\ destroyed b' = false /\ minimized b' = minimized b
    /\ visible b' = true /\ currentURL b' = currentURL b
    /\ trace w' = trace w ++ (if visible b then [] else [WinShow id])
    /\ onlyWindow id w w'.
Proof.
  intros Hb Hd. destruct (visible b) eqn:Ev; cbn [whenM negb].
  - exists w, b. repeat split; try assumption.
    symmetry; apply app_nil_r.
  - destruct (method_step w id b
                (fun b => set_focused true (set_visible true b))
                (WinShow id) Hb Hd) as (w' & R & B & T & O).
    exists w', (set_focused true (set_visible true b)).
    repeat split; try assumption; apply O.
Qed.

(** The calls of the listener of [second-instance] on a window that is
    not in front, up to [win.focus()]. *)
Lemma raise_steps (w : World) (id : nat) (b : BrowserWindow) (k : M unit) :
  windows w !! id = Some b -> destroyed b = false ->
  exists w' b',
    (m <- win_isMinimized id ;;
     whenM m (win_restore id) ;;;
     v <- win_isVisible id ;;
     whenM (negb v) (win_show id) ;;;
     win_focus id ;;;
     k)%M w = k w'
    /\ windows w' !! id = Some b'
    /\ destroyed b' = false /\ minimized b' = false
    /\ visible b' = true /\ focused b' = true
    /\ currentURL b' = currentURL b
    /\ trace w' = trace w ++ raiseCalls id b
    /\ onlyWindow id w w'.
Proof.
  intros Hb Hd. unfold win_isMinimized, win_isVisible.
  rewrite (bindM_run _ _ _ _ _ (liveWindow_get _ _ _ _ Hb Hd)).
  destruct (restore_step w id b Hb Hd)
    as (w1 & b1 & R1 & B1 & D1 & M1 & V1 & U1 & T1 & O1).
  rewrite (bindM_run _ _ _ _ _ R1).
  rewrite (bindM_run _ _ _ _ _ (liveWindow_get _ _ _ _ B1 D1)).
  destruct (show_step w1 id b1 B1 D1)
    as (w2 & b2 & R2 & B2 & D2 & M2 & V2 & U2 & T2 & O2).
  rewrite (bindM_run _ _ _ _ _ R2).
  destruct (method_step w2 id b2 (set_focused true) (WinFocus id) B2 D2)
    as (w3 & R3 & B3 & T3 & O3).
  change (win_focus id w2 = (Normal tt, w3)) in R3.
  rewrite (bindM_run _ _ _ _ _ R3).
  exists w3, (set_focused true b2). split; [reflexivity|].
  split; [exact B3|]. split; [exact D2|]. split; [cbn; congruence|].
  split; [exact V2|]. split; [reflexivity|]. split; [cbn; congruence|].
  split.
  - rewrite T3, T2, T1, V1. unfold raiseCalls. rewrite <- !app_assoc.
    reflexivity.
  - eapply onlyWindow_trans; [|exact O3].
    eapply onlyWindow_trans; [exact O1|exact O2].
Qed.

End Raise.

(** X9. The click listener of the notification, run while [win] names
    a live window, restores the window if it is minimized, then shows and
    focuses it: the window ends not minimized, visible and focused, on
    the same page, and nothing else changes.  Run when the window is gone
    ([win] is null, or the window is destroyed), it throws a TypeError
    and changes nothing. *)
Theorem notification_click_raises (w : World) :
  (forall id b, liveAt w id b ->
     exists b',
       result onNotificationClick w = Normal tt
       /\ windows (exec onNotificationClick w) !! id = Some b'
       /\ destroyed b' = false /\ minimized b' = false
       /\ visible b' = true /\ focused b' = true
       /\ currentURL b' = currentURL b
       /\ trace (exec onNotificationClick w)
          = trace w ++ (if minimized b then [WinRestore id] else [])
                    ++ [WinShow id; WinFocus id]
       /\ onlyWindow id w (exec onNotificationClick w))
  /\ (windowGone w -> onNotificationClick w = (Throw TypeError, w)).
Proof.
  split; [|apply onNotificationClick_gone].
  intros id b L. unfold result, exec.
  destruct (onNotificationClick_live w id b L) as (w' & b' & -> & H).
  exists b'. split; [reflexivity|exact H].
Qed.

(** X10. On a live window that is not in front, the listener of
    second-instance calls [restore] only if the window is minimized,
    [show] only if it is not visible, then [focus], and shows one
    notification titled Grok exactly when notifications are supported.
    It changes neither [win], nor the state file, nor any other window,
    and the window stays on its page. *)
Theorem second_instance_raise_calls (URL_new : jsstring -> option URL)
        (w : World) (id : nat) (b : BrowserWindow) :
  liveAt w id b -> inFront b = false ->
  let w' := exec (onSecondInstance URL_new) w in
  trace w'
  = trace w ++ raiseCalls id b
            ++ (if notificationSupported w
                then [NotificationShow (js "Grok") NOTIFICATION_BODY] else [])
  /\ pendingNotifications w'
     = (if notificationSupported w then S (pendingNotifications w)
        else pendingNotifications w)
  /\ win w' = win w
  /\ stateFile w' = stateFile w
  /\ length (windows w') = length (windows w)
  /\ (forall i, i <> id -> windows w' !! i = windows w !! i)
  /\ exists b', windows w' !! id = Some b' /\ currentURL b' = currentURL b.
Proof.
  intros L Hf w'. subst w'. pose proof L as (H & Hb & Hd).
  unfold exec, onSecondInstance;
    rewrite (bindM_run _ _ _ _ _ (getsM_win _ _ H));
    rewrite (bindM_run _ _ _ _ _ (win_isDestroyed_run _ _ _ Hb)), Hd;
    unfold win_isFocused, win_isVisible, win_isMinimized;
    rewrite !(bindM_run _ _ _ _ _ (liveWindow_get _ _ _ _ Hb Hd)).
  unfold inFront in Hf. rewrite Hf.
  match goal with
  | |- context [bindM (win_focus id) (fun _ => ?k)] =>
      destruct (raise_steps w id b k Hb Hd)
        as (w3 & b3 & R & B3 & _ & _ & _ & _ & U3 & T3 & O3)
  end.
  unfold win_isMinimized, win_isVisible in R. rewrite R. clear R.
  destruct O3 as (O1 & O2 & O4 & O5 & O6 & O7 & O8).
  rewrite (bindM_run _ _ w3 w3 (notificationSupported w3)) by reflexivity.
  rewrite O5. destruct (notificationSupported w); cbn.
  - rewrite T3, O6, <- app_assoc. repeat split; try assumption.
    exists b3. split; assumption.
  - rewrite T3, app_nil_r. repeat split; try assumption.
    exists b3. split; assumption.
Qed.

(** X11. The listener of the second copy, on a live window that is not
    in front, makes the same calls and then one more [show], whatever the
    state of the window; its notification is titled ChatGPT.  The window
    ends in front, on its page; the state file and [win] are what they
    were. *)
Theorem Part000_second_instance_raise (URL_new : jsstring -> option URL)
        (w : World) (id : nat) (b : BrowserWindow) :
  liveAt w id b -> inFront b = false ->
  let w' := exec (Part000.onSecondInstance URL_new) w in
  result (Part000.onSecondInstance URL_new) w = Normal tt
  /\ trace w'
     = trace w ++ (if minimized b then [WinRestore id] else [])
               ++ (if visible b then [] else [WinShow id])
               ++ [WinShow id; WinFocus id]
               ++ (if notificationSupported w
                   then [NotificationShow (js "ChatGPT") NOTIFICATION_BODY]
                   else [])
  /\ stateFile w' = stateFile w
  /\ win w' = win w
  /\ exists b', windows w' !! id = Some b'
                /\ destroyed b' = false /\ minimized b' = false
                /\ visible b' = true /\ focused b' = true
                /\ currentURL b' = currentURL b.
Proof.
  intros L Hf w'. subst w'. pose proof L as (H & Hb & Hd).
  unfold result, exec, Part000.onSecondInstance;
    rewrite (bindM_run _ _ _ _ _ (getsM_win _ _ H));
    unfold win_isFocused, win_isVisible, win_isMinimized;
    rewrite !(bindM_run _ _ _ _ _ (liveWindow_get _ _ _ _ Hb Hd)).
  unfold inFront in Hf. rewrite Hf.
  rewrite (bindM_run _ _ _ _ _ (liveWindow_get _ _ _ _ Hb Hd)).
  destruct (restore_step w id b Hb Hd)
    as (w1 & b1 & R1 & B1 & D1 & M1 & V1 & U1 & T1 & O1).
  rewrite (bindM_run _ _ _ _ _ R1).
  rewrite (bindM_run _ _ _ _ _ (liveWindow_get _ _ _ _ B1 D1)).
  destruct (show_step w1 id b1 B1 D1)
    as (w2 & b2 & R2 & B2 & D2 & M2 & V2 & U2 & T2 & O2).
  rewrite (bindM_run _ _ _ _ _ R2).
  destruct (method_step w2 id b2
              (fun b => set_focused true (set_visible true b))
              (WinShow id) B2 D2) as (w3 & R3 & B3 & T3 & O3).
  change (win_show id w2 = (Normal tt, w3)) in R3.
  rewrite (bindM_run _ _ _ _ _ R3).
  destruct (method_step w3 id _ (set_focused true) (WinFocus id) B3 D2)
    as (w4 & R4 & B4 & T4 & O4).
  change (win_focus id w3 = (Normal tt, w4)) in R4.
  rewrite (bindM_run _ _ _ _ _ R4).
  assert (O : onlyWindow id w w4).
  { eapply onlyWindow_trans; [|exact O4].
    eapply onlyWindow_trans; [|exact O3].
    eapply onlyWindow_trans; [exact O1|exact O2]. }
  destruct O as (X1 & X2 & X3 & X4 & X5 & X6 & X7).
  rewrite (bindM_run _ _ w4 w4 (notificationSupported w4)) by reflexivity.
  assert (T : trace w4
              = trace w ++ (if minimized b then [WinRestore id] else [])
                        ++ (if visible b then [] else [WinShow id])
                        ++ [WinShow id; WinFocus id]).
  { rewrite T4, T3, T2, T1, V1, <- !app_assoc. reflexivity. }
  assert (Bf : exists b', windows w4 !! id = Some b'
                /\ destroyed b' = false /\ minimized b' = false
                /\ visible b' = true /\ focused b' = true
                /\ currentURL b' = currentURL b).
  { eexists. split; [exact B4|]. cbn. repeat split; congruence. }
  rewrite X4. destruct (notificationSupported w); cbn.
  - rewrite T, <- !app_assoc. repeat split; assumption.
  - rewrite T. repeat split; assumption.
Qed.

(** ** Start-up *)

Section Startup.

Variable URL_new : jsstring -> option URL.

Lemma isAllowed_parses (u : jsstring) :
  isAllowed URL_new u = Normal true ->
  exists url, URL_new u = Some url /\ isHttpUrl url = true
              /\ allowedUrl url = true.
Proof.
  intros Ha. destruct (URL_new u) as [url|] eqn:E.
  - exists url. split; [reflexivity|].
    pose proof (allowedUrl_of_isAllowed _ _ _ _ E Ha) as Hb.
    split; [|exact Hb]. unfold allowedUrl in Hb. unfold isHttpUrl.
    apply andb_true_iff in Hb as [-> _]. apply orb_true_r.
  - rewrite (isAllowed_unparsed _ _ E) in Ha. discriminate.
Qed.

(** The page of the window that was created last is requested. *)
Lemma navigate_after_create (w : World) (start u : jsstring) :
  isAllowed URL_new u = Normal true ->
  step URL_new (afterCreate w start) (Navigate (length (windows w)) u)
  = set_windows (windows w ++ [set_currentURL u (createdWindow start)])
                (afterCreate w start).
Proof.
  intros Ha. destruct (isAllowed_parses u Ha) as (url & E & Hh & Hb).
  assert (L : windows (afterCreate w start) !! length (windows w)
              = Some (createdWindow start)) by apply lookup_last.
  unfold step, exec, dispatch, whenLive. rewrite L.
  cbn [destroyed createdWindow].
  rewrite (bindM_run _ _ (afterCreate w start) (afterCreate w start) true)
    by reflexivity.
  assert (R : onBeforeRequest URL_new u (afterCreate w start)
              = (Normal (mkResponse false), afterCreate w start)).
  { rewrite onBeforeRequest_run, E, Hh, Hb. reflexivity. }
  rewrite (bindM_run _ _ _ _ _ R).
  cbn [cancel negb whenM snd updWindow modifyM].
  cbn [windows afterCreate]. rewrite alter_last. reflexivity.
Qed.

Lemma chooseStartUrl_allowed (r : option jsstring) :
  isAllowed URL_new DEFAULT_URL = Normal true ->
  isAllowed URL_new (chooseStartUrl URL_new r) = Normal true.
Proof.
  intros Hd. destruct r as [r|]; cbn [chooseStartUrl]; [|exact Hd].
  destruct (truthy r); [|exact Hd].
  destruct (isAllowed URL_new r) as [[|]|] eqn:Ha; assumption.
Qed.

End Startup.

(** X13. The page the shell starts on passes the shell's own filter.
    When the URL constructor parses the default URL as https on grok.com,
    the URL that [createWindow] loads is accepted by [isAllowed], the
    request filter lets it through without a log line, and the window
    takes it as its page. *)
Theorem start_page_passes_filter (URL_new : jsstring -> option URL)
        (w : World) (d : URL) :
  URL_new DEFAULT_URL = Some d ->
  protocol d = js "https:" -> hostname d = js "grok.com" ->
  isWindowCreationStarted w = false -> windowGone w ->
  let id := length (windows w) in
  let w1 := exec (createWindow URL_new) w in
  exists startUrl,
    trace w1 = trace w ++ [SetApplicationMenu; LoadURL id startUrl]
    /\ isAllowed URL_new startUrl = Normal true
    /\ (forall w0, onBeforeRequest URL_new startUrl w0
                   = (Normal (mkResponse false), w0))
    /\ trace (step URL_new w1 (Navigate id startUrl)) = trace w1
    /\ exists b, windows (step URL_new w1 (Navigate id startUrl)) !! id = Some b
                 /\ currentURL b = startUrl.
Proof.
  intros E Hp Hh Hs Hg id w1. subst id w1. unfold exec.
  rewrite (createWindow_fresh _ _ Hs Hg). cbn [snd].
  assert (Hd : isAllowed URL_new DEFAULT_URL = Normal true).
  { rewrite (isAllowed_parsed _ _ _ E), Hp, Hh. vm_compute. reflexivity. }
  pose proof (chooseStartUrl_allowed URL_new (storedUrl w) Hd) as Ha.
  exists (chooseStartUrl URL_new (storedUrl w)).
  split; [reflexivity|]. split; [exact Ha|]. split.
  - intros w0. destruct (isAllowed_parses _ _ Ha) as (url & Eu & Hu & Hb).
    rewrite onBeforeRequest_run, Eu, Hu, Hb. reflexivity.
  - rewrite (navigate_after_create _ _ _ _ Ha). split; [reflexivity|].
    eexists. split; [apply lookup_last|reflexivity].
Qed.

(** X14. A hand-off is picked up by the next process.  The record that
    second-instance writes from a window in front on an allowed page
    makes [createWindow] of a fresh process load that very page; the
    record stays on disk while the page loads, and the first
    did-finish-load or did-fail-load deletes it, unless the page is the
    default URL. *)
Theorem hand_off_is_restored (URL_new : jsstring -> option URL)
        (w : World) (id : nat) (b : BrowserWindow)
        (supported darwin : bool) (now : Z) :
  URL_new [] = None -> liveAt w id b -> inFront b = true ->
  isAllowed URL_new (currentURL b) = Normal true ->
  let file := stateFile (step URL_new w SecondInstance) in
  let w1 := step URL_new (initialWorld supported darwin file now) Ready in
  trace (step URL_new w SecondInstance) = trace w ++ [AppQuit]
  /\ trace w1 = [SetApplicationMenu; LoadURL 0%nat (currentURL b)]
  /\ stateFile w1 = file
  /\ forall ev, ev = DidFinishLoad 0%nat \/ ev = DidFailLoad 0%nat ->
       stateFile (step URL_new w1 ev)
       = if strictEq (currentURL b) DEFAULT_URL then file else None.
Proof.
  intros He L Hf Ha file w1.
  assert (Ht : truthy (currentURL b) = true).
  { destruct (currentURL b); [|reflexivity].
    rewrite (isAllowed_unparsed _ _ He) in Ha. discriminate. }
  assert (Hfile : file = Some (recordText (currentURL b)
                                          (numberToString (clock w)))).
  { subst file. unfold step, exec. cbn [dispatch].
    rewrite (onSecondInstance_front _ _ _ _ L Hf), Ht, Ha. reflexivity. }
  split.
  { unfold step, exec. cbn [dispatch].
    rewrite (onSecondInstance_front _ _ _ _ L Hf), Ht, Ha. reflexivity. }
  clearbody file.
  assert (Hst : storedUrl (initialWorld supported darwin file now)
                = Some (currentURL b)).
  { unfold storedUrl. cbn [stateFile initialWorld].
    rewrite Hfile, JSON_parse_recordText. reflexivity. }
  assert (W1 : w1 = afterCreate (initialWorld supported darwin file now)
                                (currentURL b)).
  { subst w1. unfold step, exec. cbn [dispatch].
    rewrite createWindow_fresh by (first [reflexivity | left; reflexivity]).
    cbn [snd]. rewrite Hst. cbn [chooseStartUrl]. rewrite Ht, Ha. reflexivity. }
  clearbody w1. subst w1.
  split; [reflexivity|]. split; [reflexivity|].
  intros ev Hev.
  rewrite (load_event_after_create URL_new
             (initialWorld supported darwin file now) _ _ Hev).
  destruct (strictEq (currentURL b) DEFAULT_URL); reflexivity.
Qed.

(** ** Listeners at work *)

Lemma exec_then_ret {A : Type} (c : M A) (w : World) :
  exec (bindM c (fun _ => retM tt)) w = exec c w.
Proof. unfold exec, bindM. destruct (c w) as [[a|e] w1]; reflexivity. Qed.

#[global] Instance idle_invariant : WindowInvariant idle.
Proof.
  split.
  - intros w w' Hw Hs _ _ [I1 I2]. split; congruence.
  - intros w id f _ H. exact H.
Qed.

#[global] Instance windowCount_invariant (n : nat) :
  WindowInvariant (windowCount n).
Proof.
  split.
  - intros w w' _ _ _ Hws H. unfold windowCount in *. congruence.
  - intros w id f _ H. unfold windowCount in *.
    cbn [windows set_windows]. rewrite length_alter. exact H.
Qed.

Section Listeners.

Variable URL_new : jsstring -> option URL.

(** No listener of the source throws. *)
Lemma runCallback_normal (cb : Callback) (e : NavEvent) (url : jsstring)
      (w : World) :
  exists e', result (runCallback URL_new cb e url) w = Normal e'.
Proof.
  unfold result. destruct cb; cbn [runCallback].
  - unfold bindM. rewrite clearRestoreUrl_run. eexists; reflexivity.
  - eexists; reflexivity.
  - rewrite onWillNavigate_run.
    destruct (shouldOpenExternally_total URL_new url) as [[|] ->];
      eexists; reflexivity.
  - rewrite onWillRedirect_run.
    destruct (shouldOpenExternally_total URL_new url) as [[|] ->];
      eexists; reflexivity.
  - eexists; reflexivity.
Qed.

(** A property that every listener keeps and that the listener [cb0]
    brings about holds after an event that [cb0] listens to. *)
Lemma emitTo_establishes (Q : World -> Prop) (cb0 : Callback) (id : nat) :
  (forall cb e url, preserves Q (runCallback URL_new cb e url)) ->
  (forall e url w, Q (exec (runCallback URL_new cb0 e url) w)) ->
  (forall f, preserves Q (updWindow id f)) ->
  forall ls,
    (exists l, In l ls /\ l_callback l = cb0) ->
    forall e url w, Q (exec (emitTo URL_new id ls e url) w).
Proof.
  intros Hk H0 Hu.
  assert (Hall : forall ls e url, preserves Q (emitTo URL_new id ls e url)).
  { induction ls as [|l ls IH]; intros e url; cbn [emitTo];
      [intros w H; exact H|].
    intros w H.
    assert (H1 : Q (exec (whenM (l_once l)
                  (updWindow id (fun b => set_listeners
                     (removeFirst l (listeners b)) b))) w)).
    { destruct (l_once l); [apply Hu, H|exact H]. }
    unfold exec, bindM in *.
    destruct (whenM (l_once l) _ w) as [[[]|x] w1]; cbn [snd] in *; [|exact H1].
    pose proof (Hk (l_callback l) e url w1 H1) as H2. unfold exec in H2.
    destruct (runCallback URL_new (l_callback l) e url w1) as [[e'|x] w2];
      cbn [snd] in *; [|exact H2].
    exact (IH e' url w2 H2). }
  induction ls as [|l ls IH]; intros (l0 & Hin & Hcb) e url w;
    [destruct Hin|].
  cbn [emitTo]. unfold exec, bindM.
  destruct (whenM (l_once l) _ w) as [[[]|x] w1] eqn:E1.
  2:{ destruct (l_once l); discriminate E1. }
  destruct (runCallback_normal (l_callback l) e url w1) as [e' He'].
  pose proof (H0 e url w1) as H1. unfold result, exec in He', H1.
  destruct (runCallback URL_new (l_callback l) e url w1) as [r w2] eqn:E2.
  cbn [fst snd] in *. subst r.
  destruct Hin as [<-|Hin].
  - rewrite Hcb in E2. rewrite E2 in H1. cbn [snd] in H1.
    exact (Hall ls e' url w2 H1).
  - apply (IH (ex_intro _ l0 (conj Hin Hcb))).
Qed.

Lemma emit_establishes (Q : World -> Prop) (cb0 : Callback) (id : nat)
      (ev : EventName) (url : jsstring) (w : World) (b : BrowserWindow) :
  (forall cb e url, preserves Q (runCallback URL_new cb e url)) ->
  (forall e url w, Q (exec (runCallback URL_new cb0 e url) w)) ->
  (forall f, preserves Q (updWindow id f)) ->
  windows w !! id = Some b ->
  (exists l, In l (listeners b) /\ l_event l = ev /\ l_callback l = cb0) ->
  Q (exec (emit URL_new id ev url) w).
Proof.
  intros Hk H0 Hu Hb (l & Hin & Hev & Hcb). unfold exec.
  rewrite (emit_run _ _ _ _ _ _ Hb).
  apply (emitTo_establishes Q cb0 id Hk H0 Hu).
  exists l. split; [|exact Hcb].
  apply filter_In. split; [exact Hin|]. apply bool_decide_eq_true. exact Hev.
Qed.

Lemma pres_runCallback_any (P : World -> Prop) `{!WindowInvariant P}
      (cb : Callback) (e : NavEvent) (url : jsstring) :
  preserves P onClosed -> preserves P (runCallback URL_new cb e url).
Proof.
  intros Hc. destruct cb; try (apply pres_runCallback; [exact _|discriminate]).
  cbn [runCallback]. apply pres_bind; [exact Hc|].
  intros; apply pres_ret.
Qed.

Lemma pres_emit_any (P : World -> Prop) `{!WindowInvariant P}
      (id : nat) (ev : EventName) (url : jsstring) :
  preserves P onClosed -> preserves P (emit URL_new id ev url).
Proof.
  intros Hc w H. unfold exec, emit, bindM, getWindow.
  destruct (windows w !! id) as [b|] eqn:Hb; [|exact H].
  apply (pres_emitTo P URL_new); [|exact H].
  intros; apply pres_runCallback_any; [exact _|exact Hc].
Qed.

End Listeners.

(** ** Closing the window and opening it again *)

Lemma liveCount_settled (w : World) : settledInv w -> liveCount w = 0%nat.
Proof.
  intros [I1 _]. unfold liveCount.
  destruct (List.filter (fun b => negb (destroyed b)) (windows w))
    as [|x r] eqn:E; [reflexivity|exfalso].
  assert (Hx : In x (List.filter (fun b => negb (destroyed b)) (windows w)))
    by (rewrite E; left; reflexivity).
  apply filter_In in Hx as [Hx Dx]. apply negb_true_iff in Dx.
  apply In_nth_error in Hx as [j Hj].
  assert (Hj' : windows w !! j = Some x).
  { revert Hj. generalize (windows w). clear. intros l. revert j.
    induction l as [|y l IHl]; intros [|j]; cbn; try discriminate; auto. }
  destruct (I1 _ _ Hj'). congruence.
Qed.

Lemma liveCount_live (w : World) (id : nat) (b : BrowserWindow) :
  windows w !! id = Some b -> destroyed b = false -> liveCount w <> 0%nat.
Proof.
  intros Hb Hd. unfold liveCount.
  assert (Hin : In b (List.filter (fun b => negb (destroyed b)) (windows w))).
  { apply filter_In. split; [|rewrite Hd; reflexivity].
    revert Hb. generalize (windows w). clear. intros l. revert id.
    induction l as [|y l IHl]; intros [|j]; cbn; try discriminate.
    - intros H; injection H as ->; left; reflexivity.
    - intros H; right; exact (IHl _ H). }
  destruct (List.filter _ (windows w)); [destruct Hin|discriminate].
Qed.

Lemma liveCount_afterCreate (w : World) (start : jsstring) :
  liveCount (afterCreate w start) = S (liveCount w).
Proof.
  unfold liveCount. cbn [windows afterCreate].
  rewrite List.filter_app, length_app. cbn. lia.
Qed.

Section Lifecycle.

Variable URL_new : jsstring -> option URL.

Lemma destroy_step (w : World) (id : nat) (b : BrowserWindow) :
  windows w !! id = Some b -> destroyed b = false ->
  step URL_new w (Destroy id)
  = set_windows (alter destroyWindow id (windows w)) w.
Proof.
  intros Hb Hd. unfold step, exec, dispatch, whenLive. rewrite Hb, Hd.
  reflexivity.
Qed.

(** The world after the [closed] event of the window that [win] names. *)
Lemma closed_step (w : World) (id : nat) (b : BrowserWindow) :
  shellInv w -> windows w !! id = Some b ->
  destroyed b = true -> closedEmitted b = false ->
  In (mkListener closed CbClosed false) (listeners b) ->
  let w' := step URL_new w (Closed id) in
  idle w' /\ settledInv w' /\ length (windows w') = length (windows w).
Proof.
  intros Hi Hb Hd Hc Hl w'.
  pose proof (closed_settles _ _ _ Hi Hb Hd Hc) as Hs.
  set (wc := set_windows (alter (set_closedEmitted true) id (windows w)) w)
    in *.
  assert (Bc : windows wc !! id = Some (set_closedEmitted true b))
    by (apply lookup_updated, Hb).
  assert (E : w' = exec (emit URL_new id closed []) wc).
  { subst w'. unfold step, exec, dispatch. rewrite Hb, Hd, Hc. cbn [andb negb].
    unfold bindM, updWindow, modifyM. fold wc.
    destruct (emit URL_new id closed [] wc) as [[e|x] w1]; reflexivity. }
  clearbody w'. subst w'.
  split; [|split].
  - apply (emit_establishes URL_new idle CbClosed id closed [] wc
             (set_closedEmitted true b)); try exact Bc.
    + intros cb e url. apply pres_runCallback_any; [exact _|].
      intros w0 _. split; reflexivity.
    + intros e url w0. split; reflexivity.
    + intros f w0 H. exact H.
    + exists (mkListener closed CbClosed false). repeat split. exact Hl.
  - exact (pres_emit_settled URL_new id closed [] wc Hs).
  - assert (Hn : windowCount (length (windows w)) wc).
    { unfold windowCount, wc. cbn [windows set_windows]. apply length_alter. }
    apply (pres_emit_any URL_new (windowCount (length (windows w)))
             id closed []); [|exact Hn].
    intros w0 H. exact H.
Qed.

Lemma onActivate_live (w : World) (id : nat) (b : BrowserWindow) :
  windows w !! id = Some b -> destroyed b = false ->
  onActivate URL_new w = (Normal tt, w).
Proof.
  intros Hb Hd. unfold onActivate.
  rewrite (bindM_run _ _ w w (liveCount w)) by reflexivity.
  pose proof (liveCount_live _ _ _ Hb Hd) as Hn.
  destruct (liveCount w); [congruence|reflexivity].
Qed.

End Lifecycle.

(** X15. The window can be opened again after it was closed, and only
    then.  While the window lives, [activate] changes nothing.  Between
    the destruction of the window and its [closed] event, [activate]
    changes nothing either.  After the [closed] event [win] is null, the
    creation flag is reset and no window lives; [activate] then creates
    one window, which [win] names. *)
Theorem window_recreated_after_close (URL_new : jsstring -> option URL)
        (w : World) (id : nat) (b : BrowserWindow) :
  shellInv w -> liveAt w id b -> closedEmitted b = false ->
  In (mkListener closed CbClosed false) (listeners b) ->
  let wd := step URL_new w (Destroy id) in
  let wc := step URL_new wd (Closed id) in
  let wa := step URL_new wc Activate in
  step URL_new w Activate = w
  /\ step URL_new wd Activate = wd
  /\ (win wc = None /\ isWindowCreationStarted wc = false
      /\ liveCount wc = 0%nat)
  /\ (liveCount wa = 1%nat
      /\ liveAt wa (length (windows w))
                (createdWindow (chooseStartUrl URL_new (storedUrl wc)))).
Proof.
  intros Hi L Hc Hl wd wc wa. pose proof L as (H & Hb & Hd).
  assert (Ed : wd = set_windows (alter destroyWindow id (windows w)) w)
    by (apply destroy_step with b; assumption).
  assert (Bd : windows wd !! id = Some (destroyWindow b))
    by (rewrite Ed; apply lookup_updated, Hb).
  assert (Hid : shellInv wd) by (apply shellInv_step, Hi).
  assert (Hst : isWindowCreationStarted w = true).
  { destruct Hi as [I1 _]. apply (I1 _ _ Hb). left; exact Hd. }
  destruct (closed_step URL_new wd id (destroyWindow b) Hid Bd eq_refl Hc Hl)
    as ([C1 C2] & C3 & C4).
  fold wc in C1, C2, C3, C4.
  assert (Hlen : length (windows wc) = length (windows w)).
  { rewrite C4, Ed. cbn [windows set_windows]. apply length_alter. }
  split; [|split; [|split]].
  - unfold step, exec. cbn [dispatch]. rewrite (onActivate_live _ _ _ _ Hb Hd).
    reflexivity.
  - unfold step at 1, exec. cbn [dispatch]. unfold onActivate.
    rewrite (bindM_run _ _ wd wd (liveCount wd)) by reflexivity.
    destruct (liveCount wd =? 0)%nat; [|reflexivity]. cbn [whenM].
    rewrite createWindow_started_gone; [reflexivity| |].
    + rewrite Ed. exact Hst.
    + right. exists id, (destroyWindow b). split; [rewrite Ed; exact H|].
      split; [exact Bd|reflexivity].
  - split; [exact C1|]. split; [exact C2|apply liveCount_settled, C3].
  - assert (Ea : wa = afterCreate wc (chooseStartUrl URL_new (storedUrl wc))).
    { unfold wa, step, exec. cbn [dispatch]. unfold onActivate.
      rewrite (bindM_run _ _ wc wc (liveCount wc)) by reflexivity.
      rewrite (liveCount_settled _ C3). cbn [Nat.eqb whenM].
      rewrite (createWindow_fresh _ _ C2 (or_introl C1)). reflexivity. }
    rewrite Ea. split.
    + rewrite liveCount_afterCreate, (liveCount_settled _ C3). reflexivity.
    + rewrite <- Hlen. split; [reflexivity|].
      split; [apply lookup_last|reflexivity].
Qed.

(** ** The two clearing hooks *)

Section Hooks.

Variable URL_new : jsstring -> option URL.

(** The first [did-finish-load] of a window created on a restored URL. *)
Lemma finish_after_create (w : World) (start : jsstring) :
  strictEq start DEFAULT_URL = false ->
  step URL_new (afterCreate w start) (DidFinishLoad (length (windows w)))
  = set_stateFile None
      (set_windows
         (windows w ++
          [set_listeners (failHook :: shellListeners) (createdWindow start)])
         (afterCreate w start)).
Proof.
  intros Hs.
  assert (L : windows (afterCreate w start) !! length (windows w)
              = Some (createdWindow start)) by apply lookup_last.
  unfold step, exec, dispatch, whenLive. rewrite L.
  cbn [destroyed createdWindow].
  unfold bindM at 1. rewrite (emit_run _ _ _ _ _ _ L).
  assert (F : List.filter (fun l => bool_decide (l_event l = did_finish_load))
                (listeners (createdWindow start)) = [finishHook]).
  { unfold createdWindow, restoreListeners. rewrite Hs. reflexivity. }
  rewrite F.
  cbn [emitTo l_once whenM l_callback runCallback finishHook].
  unfold bindM, updWindow, modifyM. rewrite clearRestoreUrl_run.
  cbn [retM snd]. f_equal.
  cbn [windows afterCreate set_windows]. unfold set_windows. f_equal.
  rewrite alter_last. unfold createdWindow, restoreListeners. rewrite Hs.
  reflexivity.
Qed.

(** A registered clearing hook deletes the state file when its event
    comes, whatever the file holds. *)
Lemma hook_clears (w : World) (id : nat) (b : BrowserWindow)
      (ev : EventName) (l : Listener) :
  windows w !! id = Some b -> In l (listeners b) ->
  l_event l = ev -> l_callback l = CbClearRestoreUrl ->
  stateFile (exec (emit URL_new id ev []) w) = None.
Proof.
  intros Hb Hl Hev Hcb.
  apply (emit_establishes URL_new (fun w => stateFile w = None)
           CbClearRestoreUrl id ev [] w b); try assumption.
  - intros cb e url w0 H0.
    assert (K : keptOrDeleted w0 (exec (runCallback URL_new cb e url) w0)).
    { apply (keeps_runCallback URL_new keptOrDeleted).
      - intros; left; reflexivity.
      - intros; right; reflexivity. }
    destruct K as [K|K]; congruence.
  - intros e url w0. unfold exec. cbn [runCallback]. unfold bindM.
    rewrite clearRestoreUrl_run. reflexivity.
  - intros f w0 H0. exact H0.
  - exists l. auto.
Qed.

End Hooks.

(** X16. The two clearing hooks are independent one-shots.  After a
    start on a restored URL and the first did-finish-load, the state file
    is gone and the did-finish-load hook is removed, but the did-fail-load
    hook is still registered; and whenever that hook is registered on a
    live window, a did-fail-load deletes the state file, whatever the
    file holds by then. *)
Theorem clearing_hooks_independent (URL_new : jsstring -> option URL)
        (w : World) :
  isWindowCreationStarted w = false -> windowGone w ->
  chooseStartUrl URL_new (storedUrl w) <> DEFAULT_URL ->
  let id := length (windows w) in
  let w1 := run URL_new w [Ready; DidFinishLoad id] in
  stateFile w1 = None
  /\ (exists b1, windows w1 !! id = Some b1 /\ destroyed b1 = false
                 /\ In failHook (listeners b1)
                 /\ ~ In finishHook (listeners b1))
  /\ (forall w2 b2,
        windows w2 !! id = Some b2 -> destroyed b2 = false ->
        In failHook (listeners b2) ->
        stateFile (step URL_new w2 (DidFailLoad id)) = None).
Proof.
  intros Hs Hg Hne id w1.
  assert (Hd : strictEq (chooseStartUrl URL_new (storedUrl w)) DEFAULT_URL
               = false).
  { destruct (strictEq _ DEFAULT_URL) eqn:E; [|reflexivity].
    apply strictEq_spec in E. contradiction. }
  assert (E1 : w1 = set_stateFile None
      (set_windows
         (windows w ++
          [set_listeners (failHook :: shellListeners)
             (createdWindow (chooseStartUrl URL_new (storedUrl w)))])
         (afterCreate w (chooseStartUrl URL_new (storedUrl w))))).
  { subst w1. cbn [run fold_left]. unfold step at 2, exec. cbn [dispatch].
    rewrite (createWindow_fresh _ _ Hs Hg). cbn [snd].
    apply finish_after_create, Hd. }
  clearbody w1. subst w1.
  split; [reflexivity|]. split.
  - eexists. split; [apply lookup_last|]. split; [reflexivity|].
    cbn [listeners set_listeners]. split; [left; reflexivity|].
    unfold shellListeners, finishHook, failHook.
    intros [X|[X|[X|[X|[X|[]]]]]]; discriminate X.
  - intros w2 b2 Hb Hl Hin. unfold step, exec, dispatch, whenLive.
    rewrite Hb, Hl.
    match goal with
    | |- stateFile (snd (?c w2)) = None => change (stateFile (exec c w2) = None)
    end.
    rewrite exec_then_ret.
    apply (hook_clears URL_new w2 id b2 did_fail_load failHook);
      first [assumption | reflexivity].
Qed.

(** ** The wiring of the windows *)

Lemma wired_modify (f : World -> World) :
  (forall w, windows (f w) = windows w) -> preserves wiredInv (modifyM f).
Proof.
  intros Hf w H i b Hb. unfold exec, modifyM in Hb. cbn [snd] in Hb.
  rewrite Hf in Hb. exact (H i b Hb).
Qed.

Lemma wired_upd (id : nat) (f : BrowserWindow -> BrowserWindow) :
  (forall b, wired b -> wired (f b)) -> preserves wiredInv (updWindow id f).
Proof.
  intros Hf w H i b' Hb. unfold exec, updWindow, modifyM in Hb.
  cbn [snd windows set_windows] in Hb.
  apply lookup_alter_cases in Hb as [(-> & b & Hb & ->)|[_ Hb]].
  - apply Hf, (H _ _ Hb).
  - exact (H _ _ Hb).
Qed.

Lemma wired_add (l : Listener) (b : BrowserWindow) :
  wired b -> wired (set_listeners (listeners b ++ [l]) b).
Proof.
  intros [H1 H2]. split; [exact H1|].
  intros x Hx. cbn [listeners set_listeners]. apply in_or_app. left. auto.
Qed.

(** Removing a one-shot listener leaves the permanent ones. *)
Lemma wired_remove (l : Listener) (b : BrowserWindow) :
  l_once l = true ->
  wired b -> wired (set_listeners (removeFirst l (listeners b)) b).
Proof.
  intros Ho [H1 H2]. split; [exact H1|].
  intros x Hx. cbn [listeners set_listeners].
  assert (Hne : x <> l).
  { intros ->. cbn in Hx.
    destruct Hx as [<-|[<-|[<-|[<-|[]]]]]; discriminate Ho. }
  specialize (H2 x Hx). revert H2. generalize (listeners b). clear -Hne.
  intros ls. induction ls as [|y ls IH]; cbn [removeFirst In]; [tauto|].
  intros [->|Hin].
  - rewrite bool_decide_eq_false_2 by exact Hne. left; reflexivity.
  - destruct (bool_decide (y = l)); [exact Hin|right; auto].
Qed.

(** Solves the preservation of the wiring by a sequence of host calls. *)
Ltac wired_tac :=
  repeat first
    [ match goal with |- forall _, _ => intro end
    | solve [auto with pres]
    | apply pres_bind
    | apply pres_try
    | apply pres_when
    | apply wired_modify; reflexivity
    | apply wired_upd; intros ? ?;
      first [assumption | apply wired_add; assumption]
    | match goal with
      | |- preserves _ (match ?x with _ => _ end) => destruct x
      | |- preserves _ (if ?x then _ else _) => destruct x
      end ].

Section Wiring.

Variable URL_new : jsstring -> option URL.

Lemma wired_fs_unlink : preserves wiredInv fs_unlinkSync.
Proof.
  intros w H. unfold exec, fs_unlinkSync. destruct (stateFile w); exact H.
Qed.

Lemma wired_win_focus (id : nat) : preserves wiredInv (win_focus id).
Proof. unfold win_focus, effectM. wired_tac. Qed.

Lemma wired_win_show (id : nat) : preserves wiredInv (win_show id).
Proof. unfold win_show, effectM. wired_tac. Qed.

Lemma wired_win_restore (id : nat) : preserves wiredInv (win_restore id).
Proof. unfold win_restore, effectM. wired_tac. Qed.

Lemma wired_onSecondInstance : preserves wiredInv (onSecondInstance URL_new).
Proof.
  pose proof wired_win_focus. pose proof wired_win_show.
  pose proof wired_win_restore.
  unfold onSecondInstance, safeGetCurrentUrl, writeRestoreUrl, Date_now,
    fs_writeFileSync, win_isDestroyed, win_isFocused, win_isVisible,
    win_isMinimized, webContents_getURL, app_quit, effectM.
  wired_tac.
Qed.

Lemma wired_onNotificationClick : preserves wiredInv onNotificationClick.
Proof.
  pose proof wired_win_focus. pose proof wired_win_show.
  pose proof wired_win_restore.
  unfold onNotificationClick, win_isMinimized. wired_tac.
Qed.

Lemma wired_runCallback (cb : Callback) (e : NavEvent) (url : jsstring) :
  preserves wiredInv (runCallback URL_new cb e url).
Proof.
  pose proof wired_fs_unlink.
  destruct cb; cbn [runCallback];
    unfold clearRestoreUrl, onWillNavigate, onWillRedirect, onClosed,
      shell_openExternal, effectM;
    wired_tac.
Qed.

Lemma wired_emitTo (id : nat) (ls : list Listener) :
  forall e url, preserves wiredInv (emitTo URL_new id ls e url).
Proof.
  pose proof wired_runCallback.
  induction ls as [|l ls IH]; intros e url; cbn [emitTo]; [wired_tac|].
  apply pres_bind; [|wired_tac].
  destruct (l_once l) eqn:Ho; cbn [whenM]; [|wired_tac].
  apply wired_upd. intros b. apply wired_remove, Ho.
Qed.

Lemma wired_emit (id : nat) (ev : EventName) (url : jsstring) :
  preserves wiredInv (emit URL_new id ev url).
Proof. pose proof wired_emitTo. unfold emit. wired_tac. Qed.

Lemma wired_afterCreate (w : World) (start : jsstring) :
  wiredInv w -> wiredInv (afterCreate w start).
Proof.
  intros H i b Hb. cbn [windows afterCreate] in Hb.
  apply lookup_app_Some in Hb as [Hb|[Hl Hb]]; [exact (H _ _ Hb)|].
  destruct (i - length (windows w))%nat; [|destruct n; discriminate].
  cbn in Hb. injection Hb as <-. split; [reflexivity|].
  intros l Hl'. cbn [listeners createdWindow]. apply in_or_app. right.
  exact Hl'.
Qed.

Lemma wired_createWindow : preserves wiredInv (createWindow URL_new).
Proof.
  intros w H. unfold exec.
  destruct (winIsLive_cases w) as [(id & b & L)|[Hg|(id & Hw & Hb)]].
  - rewrite (createWindow_live _ _ _ _ L). cbn [snd].
    apply (wired_win_focus id w) in H.
    destruct L as (_ & Hb & Hd).
    unfold exec, win_focus in H.
    rewrite (win_method_run _ _ _ _ _ Hb Hd) in H. exact H.
  - destruct (isWindowCreationStarted w) eqn:Hs.
    + rewrite (createWindow_started_gone _ _ Hs Hg). exact H.
    + rewrite (createWindow_fresh _ _ Hs Hg). cbn [snd].
      apply wired_afterCreate; assumption.
  - rewrite (createWindow_dangling _ _ _ Hw Hb). exact H.
Qed.

Lemma wired_step (w : World) (ev : HostEvent) :
  wiredInv w -> wiredInv (step URL_new w ev).
Proof.
  intros H. unfold step.
  assert (Hp : preserves wiredInv (dispatch URL_new ev)); [|exact (Hp w H)].
  clear w H.
  pose proof wired_createWindow. pose proof wired_onSecondInstance.
  pose proof wired_onNotificationClick. pose proof wired_emit.
  destruct ev; cbn [dispatch];
    unfold onActivate, onWindowAllClosed, app_quit, windowOpenHandler,
      onBeforeRequest, shell_openExternal, console_log, effectM;
    try (apply pres_whenLive); try solve [wired_tac].
  intros w Hw. unfold exec.
  destruct (windows w !! id) as [b|] eqn:Hb; [|exact Hw].
  destruct (destroyed b && negb (closedEmitted b)); [|exact Hw].
  assert (Hq : preserves wiredInv
                 (updWindow id (set_closedEmitted true) ;;;
                  emit URL_new id closed [] ;;; retM tt)%M) by wired_tac.
  exact (Hq w Hw).
Qed.

Lemma wired_run (evs : list HostEvent) :
  forall w, wiredInv w -> wiredInv (run URL_new w evs).
Proof.
  induction evs as [|ev evs IH]; intros w H; [exact H|].
  cbn [run fold_left]. apply IH, wired_step, H.
Qed.

End Wiring.

(** X17. In every state that the process reaches, every window has the
    handler of [window.open] and the listeners of will-navigate,
    will-redirect, closed and context-menu, and the request filter of the
    session is installed: the one-shot hooks are the only listeners that
    are ever removed. *)
Theorem windows_stay_wired (URL_new : jsstring -> option URL)
        (supported darwin : bool) (file : option jsstring) (now : Z)
        (evs : list HostEvent) (i : nat) (b : BrowserWindow) :
  let w := run URL_new (initialWorld supported darwin file now) evs in
  windows w !! i = Some b ->
  requestFilter w = true
  /\ hasOpenHandler b = true
  /\ In (mkListener will_navigate CbWillNavigate false) (listeners b)
  /\ In (mkListener will_redirect CbWillRedirect false) (listeners b)
  /\ In (mkListener closed CbClosed false) (listeners b)
  /\ In (mkListener context_menu CbContextMenu false) (listeners b).
Proof.
  intros w Hb.
  assert (Hw : wiredInv w).
  { apply wired_run. intros j x Hx. destruct j; discriminate Hx. }
  destruct (Hw _ _ Hb) as [H1 H2].
  destruct (pageInv_run URL_new evs _
              (pageInv_initial URL_new supported darwin file now)) as [I1 _].
  split.
  - apply I1. fold w. intros E. rewrite E in Hb. discriminate Hb.
  - split; [exact H1|]. repeat split; apply H2; cbn; tauto.
Qed.

(** ** The context menu *)

Lemma push_each {A B : Type} (g : A -> B) (l : list A) (acc : list B) :
  fold_left (fun items s => items ++ [g s]) l acc = acc ++ List.map g l.
Proof.
  revert acc. induction l as [|a l IH]; intros acc; cbn [fold_left List.map].
  - symmetry; apply app_nil_r.
  - rewrite IH, <- app_assoc. reflexivity.
Qed.

(** Cases on the suggestions that are offered. *)
Ltac case_offered s r :=
  match goal with
  | |- context [firstn 8 ?l] => destruct (firstn 8 l) as [|s r]
  | H : context [firstn 8 ?l] |- _ => destruct (firstn 8 l) as [|s r]
  end.

(** The template in three parts: spelling, editing, link. *)
Lemma contextMenuItems_parts (p : ContextMenuParams) :
  contextMenuItems p
  = (if truthy (misspelledWord p) then
       match firstn 8 (match dictionarySuggestions p with
                       | Some l => l
                       | None => []
                       end) with
       | [] => [noSuggestionsItem]
       | s :: r => List.map suggestionItem (s :: r)
       end ++ [separatorItem]
     else [])
    ++ editItems p
    ++ (if truthy (linkURL p)
        then [separatorItem; copyLinkItem (linkURL p)] else []).
Proof.
  unfold contextMenuItems. rewrite push_each. cbn [app].
  destruct (truthy (misspelledWord p)), (truthy (linkURL p));
    try case_offered s r; cbn [List.map length Nat.eqb app];
    rewrite <- ?app_assoc; cbn [app]; rewrite ?app_nil_r; reflexivity.
Qed.

Lemma filter_suggestions (l : list jsstring) :
  List.filter isSuggestion (List.map suggestionItem l)
  = List.map suggestionItem l.
Proof.
  induction l as [|s l IH]; [reflexivity|].
  cbn [List.map List.filter isSuggestion click suggestionItem]. rewrite IH.
  reflexivity.
Qed.

(** X18. The context menu offers replacements for a misspelled word
    only: the entries that replace the word are the first eight
    dictionary suggestions, in order, when [misspelledWord] is not empty,
    and there is none otherwise; the disabled entry "No suggestions" is
    present exactly when the word is misspelled and nothing is
    suggested. *)
Theorem contextMenu_suggestions (p : ContextMenuParams) :
  let suggestions :=
    match dictionarySuggestions p with Some l => l | None => [] end in
  List.filter isSuggestion (contextMenuItems p)
  = (if truthy (misspelledWord p)
     then List.map suggestionItem (firstn 8 suggestions) else [])
  /\ (length (List.filter isSuggestion (contextMenuItems p)) <= 8)%nat
  /\ (In noSuggestionsItem (contextMenuItems p)
      <-> truthy (misspelledWord p) = true /\ suggestions = []).
Proof.
  intros suggestions.
  assert (F : List.filter isSuggestion (contextMenuItems p)
              = if truthy (misspelledWord p)
                then List.map suggestionItem (firstn 8 suggestions) else []).
  { rewrite contextMenuItems_parts. fold suggestions.
    rewrite !List.filter_app.
    assert (E : List.filter isSuggestion (editItems p) = []) by reflexivity.
    assert (K : List.filter isSuggestion
                  (if truthy (linkURL p)
                   then [separatorItem; copyLinkItem (linkURL p)] else []) = []).
    { destruct (truthy (linkURL p)); reflexivity. }
    rewrite E, K, !app_nil_r.
    destruct (truthy (misspelledWord p)); [|reflexivity].
    rewrite List.filter_app. cbn [List.filter isSuggestion click separatorItem].
    rewrite app_nil_r.
    destruct (firstn 8 suggestions) as [|s r]; [reflexivity|].
    apply filter_suggestions. }
  split; [exact F|]. split.
  - rewrite F. destruct (truthy (misspelledWord p)); [|cbn; lia].
    rewrite length_map. apply List.firstn_le_length.
  - rewrite contextMenuItems_parts. fold suggestions.
    rewrite !in_app_iff. split.
    + intros [H|[H|H]].
      * destruct (truthy (misspelledWord p)); [|destruct H].
        split; [reflexivity|]. apply in_app_iff in H as [H|[H|[]]];
          [|discriminate H].
        destruct suggestions as [|s r]; [reflexivity|exfalso].
        cbn [firstn List.map In] in H. destruct H as [H|H]; [discriminate H|].
        apply in_map_iff in H as (x & Hx & _). discriminate Hx.
      * exfalso. cbn in H.
        destruct H as [H|[H|[H|[H|[]]]]]; discriminate H.
      * exfalso. destruct (truthy (linkURL p)); [|destruct H].
        destruct H as [H|[H|[]]]; discriminate H.
    + intros [-> E]. rewrite E. left. cbn. left; reflexivity.
Qed.

Lemma role_outside_edit (p : ContextMenuParams) (it : MenuItem) :
  In it (contextMenuItems p) -> role it <> None -> In it (editItems p).
Proof.
  rewrite contextMenuItems_parts, !in_app_iff. intros [H|[H|H]] Hr.
  - exfalso. destruct (truthy (misspelledWord p)); [|destruct H].
    apply in_app_iff in H as [H|[<-|[]]]; [|apply Hr; reflexivity].
    case_offered s r.
    + destruct H as [<-|[]]. apply Hr; reflexivity.
    + apply in_map_iff in H as (x & <- & _). apply Hr; reflexivity.
  - exact H.
  - exfalso. destruct (truthy (linkURL p)); [|destruct H].
    destruct H as [<-|[<-|[]]]; apply Hr; reflexivity.
Qed.

(** X19. The context menu always has the entries Cut, Copy, Paste and
    Select All, in this order and once; it has between 4 and 15 entries;
    "Copy Link Address" comes last, after a separator, when [linkURL] is
    not empty, and it is the only entry that writes to the clipboard,
    which it does with [linkURL]; outside an editable field Cut and Paste
    are disabled. *)
Theorem contextMenu_shape (p : ContextMenuParams) :
  (exists pre post,
      contextMenuItems p = pre ++ editItems p ++ post
      /\ (forall it, In it pre -> role it = None)
      /\ (forall it, In it post -> role it = None))
  /\ (4 <= length (contextMenuItems p) <= 15)%nat
  /\ (truthy (linkURL p) = true ->
      exists pre, contextMenuItems p
                  = pre ++ [separatorItem; copyLinkItem (linkURL p)])
  /\ (forall it s, In it (contextMenuItems p) ->
        click it = Some (ClipboardWriteText s) ->
        truthy (linkURL p) = true /\ s = linkURL p)
  /\ (isEditable p = false ->
      forall it, In it (contextMenuItems p) ->
        role it = Some cut \/ role it = Some paste ->
        enabled it = Some (VBool false)).
Proof.
  split; [|split; [|split; [|split]]].
  - eexists _, _. split; [apply contextMenuItems_parts|]. split.
    + intros it H. destruct (truthy (misspelledWord p)); [|destruct H].
      apply in_app_iff in H as [H|[<-|[]]]; [|reflexivity].
      case_offered s r.
      * destruct H as [<-|[]]. reflexivity.
      * apply in_map_iff in H as (x & <- & _). reflexivity.
    + intros it H. destruct (truthy (linkURL p)); [|destruct H].
      destruct H as [<-|[<-|[]]]; reflexivity.
  - rewrite contextMenuItems_parts, !length_app.
    assert (Hs : (length (firstn 8 (match dictionarySuggestions p with
                                    | Some l => l
                                    | None => []
                                    end)) <= 8)%nat)
      by apply List.firstn_le_length.
    destruct (truthy (misspelledWord p)), (truthy (linkURL p));
      try case_offered s r;
      rewrite ?length_app, ?length_map; cbn [length editItems] in *; lia.
  - intros Hl. rewrite contextMenuItems_parts, Hl.
    eexists. rewrite app_assoc. reflexivity.
  - intros it s. rewrite contextMenuItems_parts, !in_app_iff.
    intros [H|[H|H]] Hc.
    + exfalso. destruct (truthy (misspelledWord p)); [|destruct H].
      apply in_app_iff in H as [H|[<-|[]]]; [|discriminate Hc].
      case_offered s0 r.
      * destruct H as [<-|[]]. discriminate Hc.
      * apply in_map_iff in H as (x & <- & _). discriminate Hc.
    + exfalso. cbn in H.
      destruct H as [<-|[<-|[<-|[<-|[]]]]]; discriminate Hc.
    + destruct (truthy (linkURL p)); [|destruct H].
      destruct H as [<-|[<-|[]]]; [discriminate Hc|].
      cbn in Hc. split; [reflexivity|congruence].
  - intros He it Hin Hr.
    assert (Hed : In it (editItems p)).
    { apply role_outside_edit; [exact Hin|].
      destruct Hr as [-> | ->]; discriminate. }
    unfold editItems in Hed. rewrite He in Hed. cbn [andb In] in Hed.
    destruct Hed as [<-|[<-|[<-|[<-|[]]]]]; try reflexivity;
      destruct Hr as [Hr|Hr]; discriminate Hr.
Qed.

(** ** The further properties at work on concrete inputs *)

(** A subdomain two labels below an entry of the allow list. *)
Lemma isAllowed_subdomain_witness :
  isAllowed UrlRef.parse (js "https://a.b.grok.com/chat") = Normal true.
Proof.
  apply (isAllowed_subdomain UrlRef.parse (js "https://grok.com/")
           (js "https://a.b.grok.com/chat") (js "a.b")
           (mkURL (js "https:") (js "grok.com"))
           (mkURL (js "https:") (js "a.b.grok.com")));
    vm_compute; reflexivity.
Defined.

(** A host that the older list names and a host that only the list of
    [main.js] accepts. *)
Lemma Part000_isAllowed_included_witness :
  isAllowed UrlRef.parse (js "https://api.grok.xai.com/v1") = Normal true
  /\ isAllowed UrlRef.parse (js "https://xai.com/") = Normal true
  /\ Part000.isAllowed UrlRef.parse (js "https://xai.com/") = Normal false.
Proof.
  split; [|split].
  - apply (Part000_isAllowed_included UrlRef.parse). vm_compute; reflexivity.
  - vm_compute; reflexivity.
  - vm_compute; reflexivity.
Defined.

(** A process started on the record of a conversation. *)
Lemma start_page_passes_filter_witness :
  let w := startWorld (Some (recordOf (js "https://grok.com/c/42"))) in
  let w1 := exec (createWindow UrlRef.parse) w in
  exists startUrl,
    trace w1 = [SetApplicationMenu; LoadURL 0%nat startUrl]
    /\ isAllowed UrlRef.parse startUrl = Normal true
    /\ trace (step UrlRef.parse w1 (Navigate 0%nat startUrl)) = trace w1
    /\ exists b, windows (step UrlRef.parse w1 (Navigate 0%nat startUrl)) !! 0%nat
                 = Some b
                 /\ currentURL b = startUrl.
Proof.
  intros w w1.
  destruct (start_page_passes_filter UrlRef.parse w
              (mkURL (js "https:") (js "grok.com")))
    as (startUrl & H1 & H2 & _ & H4 & H5).
  - vm_compute; reflexivity.
  - reflexivity.
  - reflexivity.
  - reflexivity.
  - left; reflexivity.
  - exists startUrl. split; [exact H1|]. split; [exact H2|].
    split; [exact H4|exact H5].
Defined.

(** The events of a session that never ask to quit, and the one that
    does. *)
Lemma quit_only_when_asked_witness :
  let w :=
    sampleWorld (sampleWindow (js "https://grok.com/") false true false) in
  adds notQuit w
       (step UrlRef.parse w (WillNavigate 0%nat (js "https://example.org/")))
  /\ adds notQuit w (step UrlRef.parse w (Closed 0%nat))
  /\ trace (step UrlRef.parse w WindowAllClosed) = [AppQuit].
Proof.
  intros w.
  destruct (quit_only_when_asked UrlRef.parse w) as (H1 & H2 & _).
  split; [apply H1; discriminate|]. split; [apply H1; discriminate|exact H2].
Defined.

Lemma restore_file_discipline_witness :
  let w := startWorld (Some (recordOf (js "https://grok.com/c/42"))) in
  keptOrDeleted w (step UrlRef.parse w Ready)
  /\ fileSafe UrlRef.parse w
       (run UrlRef.parse w
          [Ready; Navigate 0%nat (js "https://grok.com/c/7"); DidFinishLoad 0%nat;
           SecondInstance]).
Proof.
  intros w. destruct (restore_file_discipline UrlRef.parse w) as (H1 & H2).
  split; [apply H1; discriminate|apply H2].
Defined.

Lemma hand_off_is_restored_witness :
  let url := js "https://grok.com/c/42" in
  let w := sampleWorld (sampleWindow url true true false) in
  let file := stateFile (step UrlRef.parse w SecondInstance) in
  let w1 :=
    step UrlRef.parse (initialWorld true false file 1700000000500) Ready in
  trace w1 = [SetApplicationMenu; LoadURL 0%nat url]
  /\ stateFile w1 = file
  /\ stateFile (step UrlRef.parse w1 (DidFinishLoad 0%nat)) = None.
Proof.
  intros url w file w1.
  destruct (hand_off_is_restored UrlRef.parse w 0%nat
              (sampleWindow url true true false) true false 1700000000500)
    as (_ & H2 & H3 & H4).
  - reflexivity.
  - repeat split.
  - reflexivity.
  - vm_compute; reflexivity.
  - split; [exact H2|]. split; [exact H3|].
    exact (H4 (DidFinishLoad 0%nat) (or_introl eq_refl)).
Defined.

Lemma notification_click_raises_witness :
  let w :=
    sampleWorld (sampleWindow (js "https://grok.com/") false false true) in
  (exists b',
      windows (exec onNotificationClick w) !! 0%nat = Some b'
      /\ minimized b' = false /\ visible b' = true /\ focused b' = true
      /\ trace (exec onNotificationClick w)
         = [WinRestore 0%nat; WinShow 0%nat; WinFocus 0%nat])
  /\ onNotificationClick (startWorld None) = (Throw TypeError, startWorld None).
Proof.
  intros w. split.
  - destruct (proj1 (notification_click_raises w) 0%nat
                (sampleWindow (js "https://grok.com/") false false true))
      as (b' & _ & H2 & _ & H4 & H5 & H6 & _ & H8 & _).
    + repeat split.
    + exists b'. auto.
  - apply (proj2 (notification_click_raises (startWorld None))).
    left; reflexivity.
Defined.

Lemma second_instance_raise_calls_witness :
  let b := sampleWindow (js "https://grok.com/") false false true in
  let w' := exec (onSecondInstance UrlRef.parse) (sampleWorld b) in
  trace w' = [WinRestore 0%nat; WinShow 0%nat; WinFocus 0%nat;
              NotificationShow (js "Grok") NOTIFICATION_BODY]
  /\ pendingNotifications w' = 1%nat
  /\ stateFile w' = None.
Proof.
  intros b w'.
  destruct (second_instance_raise_calls UrlRef.parse (sampleWorld b) 0%nat b)
    as (H1 & H2 & _ & H4 & _).
  - repeat split.
  - reflexivity.
  - split; [exact H1|]. split; [exact H2|exact H4].
Defined.

Lemma Part000_second_instance_raise_witness :
  let b := sampleWindow (js "https://grok.com/") false true false in
  let w' := exec (Part000.onSecondInstance UrlRef.parse) (sampleWorld b) in
  trace w' = [WinShow 0%nat; WinFocus 0%nat;
              NotificationShow (js "ChatGPT") NOTIFICATION_BODY]
  /\ stateFile w' = None.
Proof.
  intros b w'.
  destruct (Part000_second_instance_raise UrlRef.parse (sampleWorld b) 0%nat b)
    as (_ & H2 & H3 & _).
  - repeat split.
  - reflexivity.
  - split; [exact H2|exact H3].
Defined.

Lemma window_recreated_after_close_witness :
  let w := run UrlRef.parse (startWorld None) [Ready] in
  let wc := run UrlRef.parse w [Destroy 0%nat; Closed 0%nat] in
  step UrlRef.parse w Activate = w
  /\ win wc = None
  /\ liveCount (step UrlRef.parse wc Activate) = 1%nat
  /\ win (step UrlRef.parse wc Activate) = Some 1%nat.
Proof.
  intros w wc.
  destruct (window_recreated_after_close UrlRef.parse w 0%nat
              (createdWindow DEFAULT_URL))
    as (H1 & _ & (H3 & _) & H4 & H5 & _).
  - apply shellInv_run, shellInv_initial.
  - repeat split.
  - reflexivity.
  - apply in_or_app. right. cbn. tauto.
  - split; [exact H1|]. split; [exact H3|]. split; [exact H4|exact H5].
Defined.

(** A hand-off record written after the page has loaded is deleted by a
    later [did-fail-load]. *)
Lemma clearing_hooks_independent_witness :
  let w := startWorld (Some (recordOf (js "https://grok.com/c/42"))) in
  let w2 := run UrlRef.parse w
              [Ready; Navigate 0%nat (js "https://grok.com/c/42");
               DidFinishLoad 0%nat; SecondInstance] in
  stateFile (run UrlRef.parse w [Ready; DidFinishLoad 0%nat]) = None
  /\ result readRestoreUrl w2 = Normal (Some (js "https://grok.com/c/42"))
  /\ stateFile (step UrlRef.parse w2 (DidFailLoad 0%nat)) = None.
Proof.
  intros w w2.
  destruct (clearing_hooks_independent UrlRef.parse w) as (H1 & _ & H3).
  - reflexivity.
  - left; reflexivity.
  - intros H. vm_compute in H. discriminate H.
  - split; [exact H1|]. split; [vm_compute; reflexivity|].
    eapply H3.
    + vm_compute. reflexivity.
    + reflexivity.
    + cbn. tauto.
Defined.

Lemma windows_stay_wired_witness :
  let w := run UrlRef.parse
             (startWorld (Some (recordOf (js "https://grok.com/c/42"))))
             [Ready; DidFinishLoad 0%nat; DidFailLoad 0%nat;
              UserMinimize 0%nat true; SecondInstance; NotificationClick] in
  exists b, windows w !! 0%nat = Some b
            /\ requestFilter w = true /\ hasOpenHandler b = true
            /\ In (mkListener will_navigate CbWillNavigate false) (listeners b)
            /\ In (mkListener closed CbClosed false) (listeners b).
Proof.
  intros w.
  assert (Hb : exists b, windows w !! 0%nat = Some b).
  { vm_compute. eexists; reflexivity. }
  destruct Hb as [b Hb]. exists b. split; [exact Hb|].
  destruct (windows_stay_wired UrlRef.parse true false
              (Some (recordOf (js "https://grok.com/c/42"))) 1700000000000
              [Ready; DidFinishLoad 0%nat; DidFailLoad 0%nat;
               UserMinimize 0%nat true; SecondInstance; NotificationClick]
              0%nat b Hb)
    as (H1 & H2 & H3 & _ & H5 & _).
  split; [exact H1|]. split; [exact H2|]. split; [exact H3|exact H5].
Defined.

(** The menu over a misspelled word with ten suggestions, on a link in an
    editable field. *)
Lemma contextMenu_shape_witness :
  let p := mkParams (js "teh")
             (Some [js "the"; js "ten"; js "tea"; js "tee"; js "teh"; js "Ted";
                    js "eh"; js "heh"; js "meh"; js "yeh"])
             false (mkEditFlags true true) (Some (js "teh"))
             (js "https://grok.com/") in
  length (contextMenuItems p) = 15%nat
  /\ (exists pre, contextMenuItems p
                  = pre ++ [separatorItem; copyLinkItem (js "https://grok.com/")])
  /\ forall it, In it (contextMenuItems p) ->
       role it = Some cut \/ role it = Some paste ->
       enabled it = Some (VBool false).
Proof.
  intros p.
  destruct (contextMenu_shape p) as (_ & _ & H3 & _ & H5).
  split; [reflexivity|]. split; [apply H3; reflexivity|apply H5; reflexivity].
Defined.
